(** * The legacy uImage codec of the boot.scr editor (uimage.ts)

    A shallow embedding of the binary codec: the CRC-32 engine, the 64-byte
    header reader and writer, [parseLegacyUImage] and
    [buildLegacyScriptImage], followed by the properties of the codec.
    The custom editor that calls the codec (extension.ts) is embedded after
    the codec, and its properties follow those of the codec.

    Conventions of the embedding.
    - A [Uint8Array] is a [list byte]; its elements are bytes by type.
    - A JavaScript number that the code only uses as an integer is a [Z];
      the 32-bit conversions of the bitwise operators are written out in
      module [JS].
    - A string is the list of its code points, as the String iterator
      yields them.
    - [Date.now()] is an explicit argument of the builder.
    - [window.showWarningMessage] is an output of the parser: the parser
      returns the list of warnings it raised next to its result. *)

From Stdlib.Strings Require Import String Ascii Byte.
From Stdlib Require Import ZArith List Lia Bool.
Import ListNotations.
Open Scope Z_scope.

(** ** JavaScript 32-bit integer operators *)

Module JS.

Definition ToUint32 (x : Z) : Z := x mod 2 ^ 32.

Definition ToInt32 (x : Z) : Z := (x + 2 ^ 31) mod 2 ^ 32 - 2 ^ 31.

(** [a | b], [a & b], [a ^ b]: both operands through [ToInt32], the result
    is a signed 32-bit integer. *)
Definition bor (a b : Z) : Z := ToInt32 (Z.lor (ToInt32 a) (ToInt32 b)).
Definition band (a b : Z) : Z := ToInt32 (Z.land (ToInt32 a) (ToInt32 b)).
Definition bxor (a b : Z) : Z := ToInt32 (Z.lxor (ToInt32 a) (ToInt32 b)).

(** [a << k] and [a >>> k]; every shift count in the source is a literal
    below 32, so the masking of the count is left out. *)
Definition shl (a k : Z) : Z := ToInt32 (Z.shiftl (ToInt32 a) k).
Definition shru (a k : Z) : Z := Z.shiftr (ToUint32 a) k.

End JS.

(** ** Bytes and typed arrays *)

Definition b2z (b : byte) : Z := Z.of_N (Byte.to_N b).

(** Storing a number into a [Uint8Array] keeps it modulo 256. *)
Definition z2b (z : Z) : byte :=
  match Byte.of_N (Z.to_N (z mod 256)) with
  | Some b => b
  | None => x00
  end.

Definition Uint8Array : Type := list byte.

(** [new Uint8Array(n)] *)
Definition new_Uint8Array (n : nat) : Uint8Array := repeat x00 n.

(** [buf[off]] read inside a bitwise expression: an index past the end gives
    [undefined], which the bitwise operators read as 0. *)
Definition get (buf : Uint8Array) (off : nat) : Z :=
  match nth_error buf off with
  | Some b => b2z b
  | None => 0
  end.

(** [buf[off] = v]: a store past the end of a typed array is ignored. *)
Fixpoint store (buf : Uint8Array) (off : nat) (v : Z) : Uint8Array :=
  match buf, off with
  | [], _ => []
  | _ :: rest, O => z2b v :: rest
  | b :: rest, S off' => b :: store rest off' v
  end.

(** [buf.slice(s, e)] for the non-negative indices the source passes. *)
Definition slice (buf : Uint8Array) (s e : Z) : Uint8Array :=
  firstn (Z.to_nat e - Z.to_nat s) (skipn (Z.to_nat s) buf).

(** [src] written over the front of [dst]; [dst] is at least as long. *)
Fixpoint overwrite (src dst : Uint8Array) : Uint8Array :=
  match src, dst with
  | [], _ => dst
  | s :: src', _ :: dst' => s :: overwrite src' dst'
  | _ :: _, [] => []
  end.

(** [dst.set(src, off)]: a [RangeError] ([None]) when [src] does not fit. *)
Definition set (dst src : Uint8Array) (off : nat) : option Uint8Array :=
  if (off + length src <=? length dst)%nat
  then Some (firstn off dst ++ overwrite src (skipn off dst))
  else None.

Definition UIMAGE_MAGIC : Z := 0x27051956.
Definition HEADER_SIZE : nat := 64.
Definition TYPE_SCRIPT : Z := 6.
Definition COMP_NONE : Z := 0.

Definition readU32BE (buf : Uint8Array) (off : nat) : Z :=
  JS.shru
    (JS.bor (JS.bor (JS.bor (JS.shl (get buf off) 24)
                            (JS.shl (get buf (off + 1)) 16))
                    (JS.shl (get buf (off + 2)) 8))
            (get buf (off + 3)))
    0.

Definition writeU32BE (buf : Uint8Array) (off : nat) (val : Z) : Uint8Array :=
  let buf := store buf off (JS.band (JS.shru val 24) 0xff) in
  let buf := store buf (off + 1) (JS.band (JS.shru val 16) 0xff) in
  let buf := store buf (off + 2) (JS.band (JS.shru val 8) 0xff) in
  store buf (off + 3) (JS.band val 0xff).

(** ** CRC-32 *)

Definition crc_table_step (c : Z) : Z :=
  if JS.band c 1 =? 0 then JS.shru c 1 else JS.bxor 0xedb88320 (JS.shru c 1).

Definition crc_table_entry (i : Z) : Z :=
  JS.shru (Nat.iter 8 crc_table_step i) 0.

Definition CRC32_TABLE : list Z :=
  Eval vm_compute in map (fun i => crc_table_entry (Z.of_nat i)) (seq 0 256).

Definition table_get (i : Z) : Z := nth (Z.to_nat i) CRC32_TABLE 0.

Definition crc32_step (c : Z) (b : byte) : Z :=
  JS.bxor (table_get (JS.band (JS.bxor c (b2z b)) 0xff)) (JS.shru c 8).

Definition crc32 (data : Uint8Array) (seed : Z) : Z :=
  JS.shru (JS.bxor (fold_left crc32_step data (JS.shru seed 0)) 0xffffffff) 0.

(** The default value of the [seed] parameter. *)
Definition DEFAULT_SEED : Z := 0xffffffff.

Definition bytes_of (l : list Z) : Uint8Array := map z2b l.

Definition ascii_bytes (s : string) : Uint8Array :=
  map (fun a => z2b (Z.of_nat (nat_of_ascii a))) (list_ascii_of_string s).


(** ** Strings, [TextEncoder] and [TextDecoder]

    The codec calls the host's [TextEncoder] and [TextDecoder]; they are
    modelled after the Encoding Standard that defines them. *)

(** A lone surrogate is a code point between 0xD800 and 0xDFFF. *)
Definition text : Type := list Z.

(** The code points of an ASCII literal. *)
Definition str (s : string) : text :=
  map (fun a => Z.of_nat (nat_of_ascii a)) (list_ascii_of_string s).

Definition is_surrogate (cp : Z) : bool := (0xD800 <=? cp) && (cp <=? 0xDFFF).

(** A Unicode scalar value: what a well-formed string is made of. *)
Definition is_scalar (cp : Z) : bool :=
  (0 <=? cp) && (cp <=? 0x10FFFF) && negb (is_surrogate cp).

Definition utf8_encode_cp (cp : Z) : list byte :=
  if cp <? 0x80 then [z2b cp]
  else if cp <? 0x800 then
    [z2b (0xC0 + cp / 64); z2b (0x80 + cp mod 64)]
  else if cp <? 0x10000 then
    [z2b (0xE0 + cp / 4096); z2b (0x80 + (cp / 64) mod 64);
     z2b (0x80 + cp mod 64)]
  else
    [z2b (0xF0 + cp / 262144); z2b (0x80 + (cp / 4096) mod 64);
     z2b (0x80 + (cp / 64) mod 64); z2b (0x80 + cp mod 64)].

(** [new TextEncoder().encode(s)]: UTF-8, a lone surrogate becomes U+FFFD. *)
Definition TextEncoder_encode (s : text) : Uint8Array :=
  flat_map (fun cp => utf8_encode_cp (if is_surrogate cp then 0xFFFD else cp)) s.

(** The UTF-8 decoder of the Encoding Standard, in replacement mode. *)
Record utf8_state : Type := mk_utf8_state {
  u_cp : Z;       (* code point being assembled *)
  u_seen : Z;     (* continuation bytes seen *)
  u_needed : Z;   (* continuation bytes needed *)
  u_lower : Z;    (* bounds of the next continuation byte *)
  u_upper : Z
}.

Definition utf8_init : utf8_state := mk_utf8_state 0 0 0 0x80 0xBF.

(** A byte read while no sequence is open. *)
Definition utf8_lead (b : Z) : list Z * utf8_state :=
  if b <=? 0x7F then ([b], utf8_init)
  else if (0xC2 <=? b) && (b <=? 0xDF) then
    ([], mk_utf8_state (b - 0xC0) 0 1 0x80 0xBF)
  else if (0xE0 <=? b) && (b <=? 0xEF) then
    ([], mk_utf8_state (b - 0xE0) 0 2
           (if b =? 0xE0 then 0xA0 else 0x80)
           (if b =? 0xED then 0x9F else 0xBF))
  else if (0xF0 <=? b) && (b <=? 0xF4) then
    ([], mk_utf8_state (b - 0xF0) 0 3
           (if b =? 0xF0 then 0x90 else 0x80)
           (if b =? 0xF4 then 0x8F else 0xBF))
  else ([0xFFFD], utf8_init).

Definition utf8_step (st : utf8_state) (b : Z) : list Z * utf8_state :=
  if u_needed st =? 0 then utf8_lead b
  else if (b <? u_lower st) || (u_upper st <? b) then
    (* the open sequence is an error and the byte is read again *)
    let (out, st') := utf8_lead b in (0xFFFD :: out, st')
  else
    let cp := u_cp st * 64 + (b - 0x80) in
    if u_seen st + 1 =? u_needed st then ([cp], utf8_init)
    else ([], mk_utf8_state cp (u_seen st + 1) (u_needed st) 0x80 0xBF).

Fixpoint utf8_run (st : utf8_state) (bytes : Uint8Array) : text :=
  match bytes with
  | [] => if u_needed st =? 0 then [] else [0xFFFD]
  | b :: rest =>
      let (out, st') := utf8_step st (b2z b) in out ++ utf8_run st' rest
  end.

(** [ignoreBOM] is false by default: a leading U+FEFF is not output. *)
Definition strip_bom (s : text) : text :=
  match s with
  | cp :: rest => if cp =? 0xFEFF then rest else s
  | [] => []
  end.

(** [new TextDecoder("utf-8").decode(bytes)] *)
Definition TextDecoder_utf8_decode (bytes : Uint8Array) : text :=
  strip_bom (utf8_run utf8_init bytes).

(** The label "ascii" names the windows-1252 decoder; bytes below 0x80 and
    from 0xA0 decode to themselves. *)
Definition windows1252_high : list Z :=
  [0x20AC; 0x0081; 0x201A; 0x0192; 0x201E; 0x2026; 0x2020; 0x2021;
   0x02C6; 0x2030; 0x0160; 0x2039; 0x0152; 0x008D; 0x017D; 0x008F;
   0x0090; 0x2018; 0x2019; 0x201C; 0x201D; 0x2022; 0x2013; 0x2014;
   0x02DC; 0x2122; 0x0161; 0x203A; 0x0153; 0x009D; 0x017E; 0x0178].

Definition windows1252_cp (b : Z) : Z :=
  if (0x80 <=? b) && (b <? 0xA0)
  then nth (Z.to_nat (b - 0x80)) windows1252_high 0
  else b.

(** [new TextDecoder("ascii").decode(bytes)] *)
Definition TextDecoder_ascii_decode (bytes : Uint8Array) : text :=
  map (fun b => windows1252_cp (b2z b)) bytes.

(** White space and line terminators, as [String.prototype.trim] removes. *)
Definition is_js_space (cp : Z) : bool :=
  ((0x09 <=? cp) && (cp <=? 0x0D)) || (cp =? 0x20) || (cp =? 0xA0)
  || (cp =? 0x1680) || ((0x2000 <=? cp) && (cp <=? 0x200A))
  || (cp =? 0x2028) || (cp =? 0x2029) || (cp =? 0x202F) || (cp =? 0x205F)
  || (cp =? 0x3000) || (cp =? 0xFEFF).

Fixpoint trim_start (s : text) : text :=
  match s with
  | cp :: rest => if is_js_space cp then trim_start rest else s
  | [] => []
  end.

Definition trim (s : text) : text := rev (trim_start (rev (trim_start s))).

(** [bytes.indexOf(v)], -1 when absent. *)
Fixpoint indexOf (bytes : Uint8Array) (v : Z) : Z :=
  match bytes with
  | [] => -1
  | b :: rest =>
      if b2z b =? v then 0
      else let i := indexOf rest v in if i <? 0 then -1 else i + 1
  end.

Definition decodeName (bytes : Uint8Array) : text :=
  let nul := indexOf bytes 0 in
  let end_ := if 0 <=? nul then nul else Z.of_nat (length bytes) in
  trim (TextDecoder_ascii_decode (slice bytes 0 end_)).

Notation "x <- a ;; b" :=
  (match a with Some x => b | None => None end)
  (at level 61, a at next level, right associativity).

Definition encodeName (name : text) : option Uint8Array :=
  let out := new_Uint8Array 32 in
  let raw := TextEncoder_encode name in
  out <- set out (slice raw 0 32) 0 ;;
  Some out.

(** ** The header record *)

Module UImageHeader.
Record t : Type := mk {
  magic : Z;
  hcrc : Z;
  timestamp : Z;
  size : Z;
  loadAddr : Z;
  entryPoint : Z;
  dcrc : Z;
  os : Z;
  arch : Z;
  type : Z;
  comp : Z;
  name : text
}.
End UImageHeader.

(** [Partial<UImageHeader>]: every field may be absent. *)
Module PartialHeader.
Record t : Type := mk {
  magic : option Z;
  hcrc : option Z;
  timestamp : option Z;
  size : option Z;
  loadAddr : option Z;
  entryPoint : option Z;
  dcrc : option Z;
  os : option Z;
  arch : option Z;
  type : option Z;
  comp : option Z;
  name : option text
}.

(** A complete header passed where a partial one is expected. *)
Definition of_header (h : UImageHeader.t) : t :=
  mk (Some (UImageHeader.magic h)) (Some (UImageHeader.hcrc h))
     (Some (UImageHeader.timestamp h)) (Some (UImageHeader.size h))
     (Some (UImageHeader.loadAddr h)) (Some (UImageHeader.entryPoint h))
     (Some (UImageHeader.dcrc h)) (Some (UImageHeader.os h))
     (Some (UImageHeader.arch h)) (Some (UImageHeader.type h))
     (Some (UImageHeader.comp h)) (Some (UImageHeader.name h)).
End PartialHeader.

(** [h?.f] and [x ?? d] *)
Definition opt_chain {A : Type} (h : option PartialHeader.t)
    (f : PartialHeader.t -> option A) : option A :=
  match h with Some p => f p | None => None end.

Definition nullish {A : Type} (x : option A) (d : A) : A :=
  match x with Some v => v | None => d end.

(** ** The parser

    The parser throws on a structural error and may call
    [window.showWarningMessage] before it returns or throws: a computation
    yields the warnings shown so far and either the error thrown or a value. *)

Inductive warning : Type :=
  | CrcMismatch.                (* "boot.scr CRC mismatch" *)

Inductive parse_error : Type :=
  | TooSmall                    (* "File too small to be a legacy uImage." *)
  | BadMagic                    (* "Not a legacy uImage (bad magic)." *)
  | PayloadOverrun              (* "Declared payload size (..) exceeds file length." *)
  | MissingWrapper.             (* "Payload size less than 8" *)

Definition M (A : Type) : Type := (list warning * (parse_error + A))%type.

Definition ret {A : Type} (a : A) : M A := ([], inr a).
Definition throw {A : Type} (e : parse_error) : M A := ([], inl e).
Definition showWarningMessage (w : warning) : M unit := ([w], inr tt).

Definition bind {A B : Type} (m : M A) (f : A -> M B) : M B :=
  match m with
  | (w, inl e) => (w, inl e)
  | (w, inr a) => let (w', r) := f a in (w ++ w', r)
  end.

Notation "m >> k" := (bind m (fun _ => k))
  (at level 62, right associativity).

Definition parseLegacyUImage (buf : Uint8Array) : M (UImageHeader.t * text) :=
  (if (length buf <? HEADER_SIZE)%nat then throw TooSmall else ret tt) >>
  let magic := readU32BE buf 0 in
  (if negb (magic =? UIMAGE_MAGIC) then throw BadMagic else ret tt) >>
  let header :=
    UImageHeader.mk
      magic
      (readU32BE buf 4)
      (readU32BE buf 8)
      (readU32BE buf 12)
      (readU32BE buf 16)
      (readU32BE buf 20)
      (readU32BE buf 24)
      (get buf 28)
      (get buf 29)
      (get buf 30)
      (get buf 31)
      (decodeName (slice buf 32 64)) in
  let payloadStart := Z.of_nat HEADER_SIZE in
  let payloadEnd := payloadStart + UImageHeader.size header in
  (if payloadEnd >? Z.of_nat (length buf)
   then throw PayloadOverrun else ret tt) >>
  let payload := slice buf payloadStart payloadEnd in
  let calcDcrc := crc32 payload DEFAULT_SEED in
  let hdrCopy := slice buf 0 (Z.of_nat HEADER_SIZE) in
  let hdrCopy := writeU32BE hdrCopy 4 0 in
  let calcHcrc := crc32 hdrCopy DEFAULT_SEED in
  (if negb (calcDcrc =? UImageHeader.dcrc header)
      || negb (calcHcrc =? UImageHeader.hcrc header)
   then showWarningMessage CrcMismatch else ret tt) >>
  (if (length payload <? 8)%nat then throw MissingWrapper else ret tt) >>
  let scriptBytes := slice payload 8 (Z.of_nat (length payload)) in
  let script := TextDecoder_utf8_decode scriptBytes in
  ret (header, script).

(** ** The builder *)

Record BuildArgs : Type := mk_args {
  script : text;
  baseHeader : option PartialHeader.t;
  defaultName : text;
  defaultLoadAddr : Z;
  defaultEntryPoint : Z
}.

(** [now] is the value of [Date.now()], in milliseconds. *)
Definition buildLegacyScriptImage (args : BuildArgs) (now : Z)
    : option Uint8Array :=
  let scriptBytes := TextEncoder_encode (script args) in
  let payload := new_Uint8Array (8 + length scriptBytes) in
  let payload := writeU32BE payload 0 (Z.of_nat (length scriptBytes)) in
  let payload := writeU32BE payload 4 0 in
  payload <- set payload scriptBytes 8 ;;

  let headerBuf := new_Uint8Array HEADER_SIZE in
  let headerBuf := writeU32BE headerBuf 0 UIMAGE_MAGIC in
  let headerBuf := writeU32BE headerBuf 4 0 in
  let headerBuf := writeU32BE headerBuf 8 (now / 1000) in
  let headerBuf := writeU32BE headerBuf 12 (Z.of_nat (length payload)) in

  let loadAddr :=
    nullish (opt_chain (baseHeader args) PartialHeader.loadAddr)
            (defaultLoadAddr args) in
  let entryPoint :=
    nullish (opt_chain (baseHeader args) PartialHeader.entryPoint)
            (defaultEntryPoint args) in
  let headerBuf := writeU32BE headerBuf 16 loadAddr in
  let headerBuf := writeU32BE headerBuf 20 entryPoint in

  let dcrc := crc32 payload DEFAULT_SEED in
  let headerBuf := writeU32BE headerBuf 24 dcrc in

  let headerBuf :=
    store headerBuf 28
      (JS.band (nullish (opt_chain (baseHeader args) PartialHeader.os) 5) 0xff) in
  let headerBuf :=
    store headerBuf 29
      (JS.band (nullish (opt_chain (baseHeader args) PartialHeader.arch) 2) 0xff) in
  let headerBuf :=
    store headerBuf 30
      (JS.band (nullish (opt_chain (baseHeader args) PartialHeader.type)
                        TYPE_SCRIPT) 0xff) in
  let headerBuf :=
    store headerBuf 31
      (JS.band (nullish (opt_chain (baseHeader args) PartialHeader.comp)
                        COMP_NONE) 0xff) in

  let name :=
    nullish (opt_chain (baseHeader args) PartialHeader.name)
            (defaultName args) in
  nameBytes <- encodeName name ;;
  headerBuf <- set headerBuf nameBytes 32 ;;

  let hcrc := crc32 headerBuf DEFAULT_SEED in
  let headerBuf := writeU32BE headerBuf 4 hcrc in

  let out := new_Uint8Array (HEADER_SIZE + length payload) in
  out <- set out headerBuf 0 ;;
  out <- set out payload HEADER_SIZE ;;
  Some out.

(** ** The wire layout, for stating what the builder emits

    The four bytes [writeU32BE] stores, the 32-byte name field and the
    concatenation of the fields in the order of the on-disk format. *)

Definition u32be (v : Z) : Uint8Array :=
  [z2b (JS.band (JS.shru v 24) 0xff); z2b (JS.band (JS.shru v 16) 0xff);
   z2b (JS.band (JS.shru v 8) 0xff); z2b (JS.band v 0xff)].

Definition name_field (name : text) : Uint8Array :=
  let raw := slice (TextEncoder_encode name) 0 32 in
  raw ++ repeat x00 (32 - length raw).

Definition payload_layout (scriptBytes : Uint8Array) : Uint8Array :=
  u32be (Z.of_nat (length scriptBytes)) ++ u32be 0 ++ scriptBytes.

Definition header_layout (hcrc ts size load entry dcrc os arch type comp : Z)
    (name : text) : Uint8Array :=
  u32be UIMAGE_MAGIC ++ u32be hcrc ++ u32be ts ++ u32be size
  ++ u32be load ++ u32be entry ++ u32be dcrc
  ++ [z2b (JS.band os 0xff); z2b (JS.band arch 0xff);
      z2b (JS.band type 0xff); z2b (JS.band comp 0xff)]
  ++ name_field name.

(** The fields the builder chooses, and the image they make up. *)
Definition built_os (args : BuildArgs) : Z :=
  nullish (opt_chain (baseHeader args) PartialHeader.os) 5.
Definition built_arch (args : BuildArgs) : Z :=
  nullish (opt_chain (baseHeader args) PartialHeader.arch) 2.
Definition built_type (args : BuildArgs) : Z :=
  nullish (opt_chain (baseHeader args) PartialHeader.type) TYPE_SCRIPT.
Definition built_comp (args : BuildArgs) : Z :=
  nullish (opt_chain (baseHeader args) PartialHeader.comp) COMP_NONE.
Definition built_loadAddr (args : BuildArgs) : Z :=
  nullish (opt_chain (baseHeader args) PartialHeader.loadAddr)
          (defaultLoadAddr args).
Definition built_entryPoint (args : BuildArgs) : Z :=
  nullish (opt_chain (baseHeader args) PartialHeader.entryPoint)
          (defaultEntryPoint args).
Definition built_name (args : BuildArgs) : text :=
  nullish (opt_chain (baseHeader args) PartialHeader.name) (defaultName args).

Definition image_payload (args : BuildArgs) : Uint8Array :=
  payload_layout (TextEncoder_encode (script args)).

Definition image_header_with (hcrc : Z) (args : BuildArgs) (now : Z)
    : Uint8Array :=
  header_layout hcrc (now / 1000)
    (Z.of_nat (length (image_payload args)))
    (built_loadAddr args) (built_entryPoint args)
    (crc32 (image_payload args) DEFAULT_SEED)
    (built_os args) (built_arch args) (built_type args) (built_comp args)
    (built_name args).

Definition image_header (args : BuildArgs) (now : Z) : Uint8Array :=
  image_header_with (crc32 (image_header_with 0 args now) DEFAULT_SEED)
                    args now.

Definition image (args : BuildArgs) (now : Z) : Uint8Array :=
  image_header args now ++ image_payload args.

(** ** Names for the intermediate values of [parseLegacyUImage] *)

(** The [header] object literal. *)
Definition decodeHeader (buf : Uint8Array) : UImageHeader.t :=
  UImageHeader.mk
    (readU32BE buf 0) (readU32BE buf 4) (readU32BE buf 8) (readU32BE buf 12)
    (readU32BE buf 16) (readU32BE buf 20) (readU32BE buf 24)
    (get buf 28) (get buf 29) (get buf 30) (get buf 31)
    (decodeName (slice buf 32 64)).

(** [payload], [calcDcrc], [calcHcrc] and the condition of the warning. *)
Definition payloadOf (buf : Uint8Array) : Uint8Array :=
  slice buf (Z.of_nat HEADER_SIZE) (Z.of_nat HEADER_SIZE + readU32BE buf 12).

Definition calcDcrc (buf : Uint8Array) : Z := crc32 (payloadOf buf) DEFAULT_SEED.

Definition calcHcrc (buf : Uint8Array) : Z :=
  crc32 (writeU32BE (slice buf 0 (Z.of_nat HEADER_SIZE)) 4 0) DEFAULT_SEED.

Definition crcMismatch (buf : Uint8Array) : bool :=
  negb (calcDcrc buf =? readU32BE buf 24)
  || negb (calcHcrc buf =? readU32BE buf 4).

Definition scriptOf (buf : Uint8Array) : text :=
  TextDecoder_utf8_decode
    (slice (payloadOf buf) 8 (Z.of_nat (length (payloadOf buf)))).

(** The two components of a parser run. *)
Definition warnings {A : Type} (m : M A) : list warning := fst m.
Definition outcome {A : Type} (m : M A) : parse_error + A := snd m.

(** ** Definitions for the statements

    Well-formed script texts, valid header metadata and the flipped bit. *)

(** Every code point of the text is a Unicode scalar value. *)
Definition well_formed (s : text) : bool := forallb is_scalar s.

Definition starts_with_bom (s : text) : bool :=
  match s with
  | cp :: _ => cp =? 0xFEFF
  | [] => false
  end.

(** The length of a string in UTF-16 code units, which is what the host
    bounds. *)
Definition utf16_length (s : text) : Z :=
  fold_right (fun cp acc => (if 0x10000 <=? cp then 2 else 1) + acc) 0 s.

(** The bytes before the first NUL. *)
Fixpoint until_nul (bytes : Uint8Array) : Uint8Array :=
  match bytes with
  | [] => []
  | b :: rest => if b2z b =? 0 then [] else b :: until_nul rest
  end.

Definition is_u32 (v : Z) : bool := (0 <=? v) && (v <? 2 ^ 32).

Definition is_u8 (v : Z) : bool := (0 <=? v) && (v <? 256).

(** A character of a name: ASCII and not NUL. *)
Definition is_name_char (c : Z) : bool := (1 <=? c) && (c <=? 0x7F).

Definition ascii_name (n : text) : bool := forallb is_name_char n.

Definition text_eqb (a b : text) : bool :=
  if list_eq_dec Z.eq_dec a b then true else false.

(** A name as the header stores it: at most 32 ASCII characters, none of
    them NUL, without white space at either end. *)
Definition valid_name (n : text) : bool :=
  (length n <=? 32)%nat && ascii_name n && text_eqb (trim n) n.

Definition valid_header (h : UImageHeader.t) : bool :=
  is_u32 (UImageHeader.loadAddr h) && is_u32 (UImageHeader.entryPoint h)
  && is_u8 (UImageHeader.os h) && is_u8 (UImageHeader.arch h)
  && is_u8 (UImageHeader.type h) && is_u8 (UImageHeader.comp h)
  && valid_name (UImageHeader.name h).

(** Bit [bit] of the byte at offset [off] inverted. *)
Definition flipBit (buf : Uint8Array) (off : nat) (bit : Z) : Uint8Array :=
  store buf off (Z.lxor (get buf off) (2 ^ bit)).

(** ** The register of the CRC loop as an unsigned number

    One step of the loop of [crc32] is the map [crc_F] applied to the
    register xor the byte. *)

Definition crc_F (x : Z) : Z := Z.lxor (table_get (x mod 256)) (x / 256).

Definition crc_u (u : Z) (b : byte) : Z := crc_F (Z.lxor u (b2z b)).

(** Two entries with the same top byte are the same entry: the index of
    an entry is found again from its top byte. *)
Definition index_of_top : list Z :=
  Eval vm_compute in
    map (fun t =>
           match find (fun i => table_get (Z.of_nat i) / 2 ^ 24 =? Z.of_nat t)
                      (seq 0 256) with
           | Some i => Z.of_nat i
           | None => 0
           end)
        (seq 0 256).

(** The bytes of a sequence as a little-endian number. *)
Definition le_word (l : Uint8Array) : Z :=
  fold_right (fun b acc => b2z b + 256 * acc) 0 l.

(** ** Concrete inputs *)

(** A valid header to carry along in the examples. *)
Definition sample_header : UImageHeader.t :=
  UImageHeader.mk UIMAGE_MAGIC 0 0 0 0x42000000 0x42000000 0 5 2 6 0
                  (str "boot script").

(** The previous header that only carries a name. *)
Definition header_named (n : text) : PartialHeader.t :=
  PartialHeader.mk None None None None None None None None None None None
                   (Some n).

(** A name of 32 characters, each of two or three bytes in UTF-8, whose
    first 32 bytes read as windows-1252 spell the name itself. *)
Definition self_decoding_name : text :=
  [0xC3; 0x192; 0xC6; 0x2019; 0xC3; 0x2020; 0xE2; 0x20AC;
   0x2122; 0xC3; 0x192; 0xE2; 0x20AC; 0xA0; 0xC3; 0xA2;
   0xE2; 0x201A; 0xAC; 0xE2; 0x201E; 0xA2; 0xC3; 0x192;
   0xC6; 0x2019; 0xC3; 0xA2; 0xE2; 0x201A; 0xAC; 0xC2].

(** Thirty-one letters, a space and one more letter. *)
Definition spaced_name : text := str "aaaaaaaaaaaaaaaaaaaaaaaaaaaaaaa b".

(** A header alone: the magic number followed by sixty zero bytes, so that
    dataSize is 0 and the stored headerCrc (0) is not the computed one. *)
Definition bare_header : Uint8Array :=
  bytes_of [0x27; 0x05; 0x19; 0x56] ++ new_Uint8Array 60.

Definition demo_args : BuildArgs :=
  mk_args (str "echo hi") None (str "boot script") 0 0.

Definition demo_image : Uint8Array :=
  Eval vm_compute in image demo_args 1700000000123.

(** ** The CRC loop without the table

    The register after one byte, computed with the loop that fills
    [CRC32_TABLE] instead of with the table: the body of that loop, eight
    times, on the register xor the byte. *)

Definition crc32_step_bitwise (c : Z) (b : byte) : Z :=
  Nat.iter 8 crc_table_step (JS.bxor c (b2z b)).

Definition crc32_bitwise (data : Uint8Array) (seed : Z) : Z :=
  JS.shru (JS.bxor (fold_left crc32_step_bitwise data (JS.shru seed 0))
                   0xffffffff) 0.

(** The body of the loop on an unsigned register. *)
Definition crc_bit (x : Z) : Z :=
  Z.lxor (x / 2) (if Z.odd x then 0xedb88320 else 0).

(** ** The states the UTF-8 decoder can be in

    No sequence is open, or one of two, three or four bytes is, with the
    bits read so far within the bounds that make the finished code point
    a scalar value. *)

Definition utf8_ok (st : utf8_state) : Prop :=
  let cp := u_cp st in
  let seen := u_seen st in
  let needed := u_needed st in
  let lo := u_lower st in
  let hi := u_upper st in
  needed = 0
  \/ (needed = 1 /\ seen = 0 /\ 2 <= cp <= 0x1F /\ lo = 0x80 /\ hi = 0xBF)
  \/ (needed = 2 /\ seen = 0 /\ 0 <= cp <= 0xF /\ 0x80 <= lo /\ hi <= 0xBF
      /\ (cp = 0 -> 0xA0 <= lo) /\ (cp = 0xD -> hi <= 0x9F))
  \/ (needed = 2 /\ seen = 1 /\ 0x20 <= cp <= 0x3FF
      /\ (cp < 0x360 \/ 0x37F < cp) /\ lo = 0x80 /\ hi = 0xBF)
  \/ (needed = 3 /\ seen = 0 /\ 0 <= cp <= 4 /\ 0x80 <= lo /\ hi <= 0xBF
      /\ (cp = 0 -> 0x90 <= lo) /\ (cp = 4 -> hi <= 0x8F))
  \/ (needed = 3 /\ seen = 1 /\ 0x10 <= cp <= 0x10F
      /\ lo = 0x80 /\ hi = 0xBF)
  \/ (needed = 3 /\ seen = 2 /\ 0x400 <= cp <= 0x43FF
      /\ lo = 0x80 /\ hi = 0xBF).

(** * The custom editor (extension.ts)

    The document and the handlers of the editor provider.  The host is
    modelled by the state it keeps for the extension: the files of the
    workspace, as [vscode.workspace.fs] reads and writes them, and the
    trace of what the extension showed, fired or posted.  A handler runs
    from its first statement to its last: it is a function from the state
    of the host to its result, an error thrown or a value, and the state
    it leaves.  The document is an object the handlers mutate; here each
    handler takes the document and returns it as it leaves it.
    [Date.now()] is an argument, as for the builder, and so are the
    commands of the host that the message handler runs: the undo and redo
    commands come back to the closures of the edit events and write the
    document. *)

Definition Uri : Type := string.

Module BootScrState.
Record t : Type := mk {
  text : text;
  header : option UImageHeader.t
}.
End BootScrState.

Module BootScrDocument.
Record t : Type := mk {
  uri : Uri;
  state : BootScrState.t;
  _isDirty : bool
}.
Definition isDirty (d : t) : bool := _isDirty d.
End BootScrDocument.

(** The message posted to the webview, [{ type: "init", text, meta }]. *)
Module Meta.
Record t : Type := mk {
  name : text;
  loadAddr : Z;
  entryPoint : Z;
  dirty : bool
}.
End Meta.

Module InitMessage.
Record t : Type := mk {
  type : string;
  text : text;
  meta : Meta.t
}.
End InitMessage.

(** A message received from the webview, [{ type: string; text?: string }];
    [text] is [Some] when [typeof msg.text === "string"]. *)
Module Message.
Record t : Type := mk {
  type : string;
  text : option text
}.
End Message.

(** What the extension tells the host, in order. *)
Inductive CustomDocumentEvent : Type :=
  | EditEvent (label : string) (before after : text)
      (* { document, label, undo, redo }: the two closures hold [before]
         and [after] *)
  | ContentChangeEvent.         (* { document } *)

Inductive host_event : Type :=
  | ShowWarningMessage (w : warning)    (* window.showWarningMessage *)
  | DidChangeDocument                   (* _onDidChangeDocument.fire({}) *)
  | PostMessage (m : InitMessage.t)     (* webviewPanel.webview.postMessage *)
  | ExecuteCommand (command : string)   (* vscode.commands.executeCommand *)
  | DidChangeCustomDocument (e : CustomDocumentEvent).
                                        (* _onDidChangeCustomDocument.fire *)

Inductive host_error : Type :=
  | FileNotFound (uri : Uri)        (* rejected by vscode.workspace.fs *)
  | ParseError (e : parse_error)    (* thrown by parseLegacyUImage *)
  | RangeError                      (* thrown by a typed-array [set] *)
  | CommandFailed (command : string).
                                    (* rejected by commands.executeCommand *)

Module Host.

Record state : Type := mk {
  files : Uri -> option Uint8Array;
  trace : list host_event
}.

Definition t (A : Type) : Type := state -> (host_error + A) * state.

Definition ret {A : Type} (a : A) : t A := fun st => (inr a, st).

Definition throw {A : Type} (e : host_error) : t A := fun st => (inl e, st).

Definition bind {A B : Type} (m : t A) (f : A -> t B) : t B :=
  fun st =>
    match m st with
    | (inl e, st') => (inl e, st')
    | (inr a, st') => f a st'
    end.

(** [try { m } catch {}] *)
Definition try_ (m : t unit) : t unit :=
  fun st => (inr tt, snd (m st)).

Definition emit (e : host_event) : t unit :=
  fun st => (inr tt, mk (files st) (trace st ++ [e])).

(** [vscode.workspace.fs] *)
Definition readFile (uri : Uri) : t Uint8Array :=
  fun st =>
    match files st uri with
    | Some bytes => (inr bytes, st)
    | None => (inl (FileNotFound uri), st)
    end.

Definition writeFile (uri : Uri) (content : Uint8Array) : t unit :=
  fun st =>
    (inr tt,
     mk (fun u => if String.eqb u uri then Some content else files st u)
        (trace st)).

Definition delete (uri : Uri) : t unit :=
  fun st =>
    match files st uri with
    | Some _ =>
        (inr tt,
         mk (fun u => if String.eqb u uri then None else files st u)
            (trace st))
    | None => (inl (FileNotFound uri), st)
    end.

End Host.

Notation "x <~ a ;; b" := (Host.bind a (fun x => b))
  (at level 61, a at next level, right associativity).

(** The two functions of the codec, run in the host: the warnings of the
    parser are shown, its error is thrown. *)
Definition host_parse (bytes : Uint8Array) : Host.t (UImageHeader.t * text) :=
  fun st =>
    let (w, r) := parseLegacyUImage bytes in
    let st' := Host.mk (Host.files st)
                       (Host.trace st ++ map ShowWarningMessage w) in
    match r with
    | inl e => (inl (ParseError e), st')
    | inr parsed => (inr parsed, st')
    end.

Definition host_build (args : BuildArgs) (now : Z) : Host.t Uint8Array :=
  match buildLegacyScriptImage args now with
  | Some out => Host.ret out
  | None => Host.throw RangeError
  end.

(** [BootScrDocument.create] *)
Definition create (uri : Uri) : Host.t BootScrDocument.t :=
  bytes <~ Host.readFile uri ;;
  parsed <~ host_parse bytes ;;
  let state := BootScrState.mk (snd parsed) (Some (fst parsed)) in
  Host.ret (BootScrDocument.mk uri state false).

(** [document.markDirty(dirty)] *)
Definition markDirty (document : BootScrDocument.t) (dirty : bool)
    : Host.t BootScrDocument.t :=
  let document :=
    BootScrDocument.mk (BootScrDocument.uri document)
                       (BootScrDocument.state document) dirty in
  _ <~ Host.emit DidChangeDocument ;;
  Host.ret document.

(** [document.state.text = text] *)
Definition set_text (document : BootScrDocument.t) (text : text)
    : BootScrDocument.t :=
  BootScrDocument.mk
    (BootScrDocument.uri document)
    (BootScrState.mk text
       (BootScrState.header (BootScrDocument.state document)))
    (BootScrDocument._isDirty document).

Definition openCustomDocument (uri : Uri) : Host.t BootScrDocument.t :=
  create uri.

(** [postState(opts)], with [opts?: { dirty?: boolean }] *)
Definition postState (document : BootScrDocument.t)
    (opts : option (option bool)) : Host.t unit :=
  let header := BootScrState.header (BootScrDocument.state document) in
  Host.emit
    (PostMessage
       (InitMessage.mk "init"
          (BootScrState.text (BootScrDocument.state document))
          (Meta.mk
             (nullish (option_map UImageHeader.name header) [])
             (nullish (option_map UImageHeader.loadAddr header) 0)
             (nullish (option_map UImageHeader.entryPoint header) 0)
             (nullish (match opts with Some o => o | None => None end)
                      (BootScrDocument.isDirty document))))).

(** The [undo] and [redo] closures of an edit event. *)
Definition undo (document : BootScrDocument.t) (before : text)
    : Host.t BootScrDocument.t :=
  let document := set_text document before in
  document <~ markDirty document true ;;
  _ <~ postState document (Some (Some true)) ;;
  Host.ret document.

Definition redo (document : BootScrDocument.t) (after : text)
    : Host.t BootScrDocument.t :=
  let document := set_text document after in
  document <~ markDirty document true ;;
  _ <~ postState document (Some (Some true)) ;;
  Host.ret document.

(** [msg?.type === s] *)
Definition type_is (msg : option Message.t) (s : string) : bool :=
  match msg with
  | Some m => String.eqb (Message.type m) s
  | None => false
  end.

(** [vscode.commands.executeCommand(command)], awaited: the command is the
    host's.  For "undo" and "redo" the host goes to the edit stack of the
    provider, that is to the edit events fired so far, and runs the [undo]
    or the [redo] closure of one of them, which writes
    [document.state.text]; the promise may be rejected.  A command is
    therefore any computation of the host on the document. *)
Definition HostCommand : Type :=
  string -> BootScrDocument.t -> Host.t BootScrDocument.t.

(** The handler passed to [webview.onDidReceiveMessage], in a host with the
    commands [executeCommand]. *)
Definition onDidReceiveMessage (executeCommand : HostCommand)
    (document : BootScrDocument.t) (msg : option Message.t)
    : Host.t BootScrDocument.t :=
  if type_is msg "requestInit" then
    _ <~ postState document (Some (Some (BootScrDocument.isDirty document))) ;;
    Host.ret document
  else if type_is msg "undo" then
    _ <~ Host.emit (ExecuteCommand "undo") ;;
    document <~ executeCommand "undo"%string document ;;
    Host.ret document
  else if type_is msg "redo" then
    _ <~ Host.emit (ExecuteCommand "redo") ;;
    document <~ executeCommand "redo"%string document ;;
    Host.ret document
  else
    match (if type_is msg "edit"
           then match msg with Some m => Message.text m | None => None end
           else None) with
    | Some after =>
        let before := BootScrState.text (BootScrDocument.state document) in
        if text_eqb before after then Host.ret document
        else
          let document := set_text document after in
          document <~ markDirty document true ;;
          _ <~ Host.emit
                 (DidChangeCustomDocument
                    (EditEvent "Edit boot.scr script" before after)) ;;
          Host.ret document
    | None => Host.ret document
    end.

(** [resolveCustomEditor]: the first state posted to the webview (the page
    itself is left out). *)
Definition resolveCustomEditor (document : BootScrDocument.t) : Host.t unit :=
  postState document (Some (Some (BootScrDocument.isDirty document))).

(** The arguments every save passes to the builder. *)
Definition save_args (document : BootScrDocument.t) : BuildArgs :=
  let baseHeader := BootScrState.header (BootScrDocument.state document) in
  mk_args
    (BootScrState.text (BootScrDocument.state document))
    (option_map PartialHeader.of_header baseHeader)
    (nullish (option_map UImageHeader.name baseHeader) (str "boot script"))
    (nullish (option_map UImageHeader.loadAddr baseHeader) 0)
    (nullish (option_map UImageHeader.entryPoint baseHeader) 0).

Definition saveCustomDocument (document : BootScrDocument.t)
    (cancellation : bool) (now : Z) : Host.t BootScrDocument.t :=
  if cancellation then Host.ret document
  else
    out <~ host_build (save_args document) now ;;
    _ <~ Host.writeFile (BootScrDocument.uri document) out ;;
    markDirty document false.

Definition saveCustomDocumentAs (document : BootScrDocument.t)
    (destination : Uri) (cancellation : bool) (now : Z)
    : Host.t BootScrDocument.t :=
  if cancellation then Host.ret document
  else
    out <~ host_build (save_args document) now ;;
    _ <~ Host.writeFile destination out ;;
    markDirty document false.

Definition revertCustomDocument (document : BootScrDocument.t)
    (cancellation : bool) : Host.t BootScrDocument.t :=
  if cancellation then Host.ret document
  else
    bytes <~ Host.readFile (BootScrDocument.uri document) ;;
    parsed <~ host_parse bytes ;;
    let document :=
      BootScrDocument.mk (BootScrDocument.uri document)
        (BootScrState.mk (snd parsed) (Some (fst parsed)))
        (BootScrDocument._isDirty document) in
    document <~ markDirty document false ;;
    _ <~ Host.emit (DidChangeCustomDocument ContentChangeEvent) ;;
    Host.ret document.

(** [backupCustomDocument] returns the backup, [{ id, delete }]; the
    document is not touched. *)
Definition backupCustomDocument (document : BootScrDocument.t)
    (destination : Uri) (cancellation : bool) (now : Z) : Host.t Uri :=
  let backupUri := destination in
  _ <~ (if negb cancellation then
          out <~ host_build (save_args document) now ;;
          Host.writeFile backupUri out
        else Host.ret tt) ;;
  Host.ret backupUri.

(** The [delete] closure of a backup. *)
Definition backup_delete (backupUri : Uri) : Host.t unit :=
  Host.try_ (Host.delete backupUri).

(** ** Definitions for the statements about the editor *)

(** The messages [{ type: "edit", text }] for the texts of a list, handled
    one after the other. *)
Fixpoint handle_edits (executeCommand : HostCommand)
    (document : BootScrDocument.t) (texts : list text)
    : Host.t BootScrDocument.t :=
  match texts with
  | [] => Host.ret document
  | t :: rest =>
      document <~ onDidReceiveMessage executeCommand document
                    (Some (Message.mk "edit" (Some t))) ;;
      handle_edits executeCommand document rest
  end.

(** The edit events of a trace, the latest first, each with the texts its
    closures hold: the undo stack of the host. *)
Fixpoint undo_stack (trace : list host_event) : list (text * text) :=
  match trace with
  | [] => []
  | DidChangeCustomDocument (EditEvent _ before after) :: rest =>
      undo_stack rest ++ [(before, after)]
  | _ :: rest => undo_stack rest
  end.

(** The host undoes the edits of a stack, from its top. *)
Fixpoint undo_all (document : BootScrDocument.t) (stack : list (text * text))
    : Host.t BootScrDocument.t :=
  match stack with
  | [] => Host.ret document
  | (before, _) :: rest =>
      document <~ undo document before ;;
      undo_all document rest
  end.

(** ** Concrete inputs of the editor *)

(** A workspace that holds the demo image as boot.scr, and nothing shown,
    fired or posted yet; the document that [create] makes of that file. *)
Definition demo_uri : Uri := "boot.scr"%string.

Definition backup_uri : Uri := "boot.scr.bak"%string.

Definition demo_host : Host.state :=
  Host.mk (fun u => if String.eqb u demo_uri then Some demo_image else None)
          [].

Definition demo_document : BootScrDocument.t :=
  BootScrDocument.mk demo_uri
    (BootScrState.mk (str "echo hi") (Some (decodeHeader demo_image))) false.

(** A host whose undo command runs the [undo] closure of the latest edit
    event fired so far and whose redo command runs its [redo] closure; with
    no edit event they do nothing, and any other command is rejected. *)
Definition demo_executeCommand : HostCommand :=
  fun command document =>
    if (String.eqb command "undo" || String.eqb command "redo")%bool then
      fun st =>
        match undo_stack (Host.trace st) with
        | (before, after) :: _ =>
            if String.eqb command "undo" then undo document before st
            else redo document after st
        | [] => (inr document, st)
        end
    else Host.throw (CommandFailed command).

(** The demo document after the edit message with the text "echo bye", and
    the host after that message. *)
Definition demo_edited : BootScrDocument.t :=
  BootScrDocument.mk demo_uri
    (BootScrState.mk (str "echo bye") (Some (decodeHeader demo_image))) true.

Definition demo_host_edited : Host.state :=
  Host.mk (Host.files demo_host)
          [DidChangeDocument;
           DidChangeCustomDocument
             (EditEvent "Edit boot.scr script" (str "echo hi")
                        (str "echo bye"))].

(** * Properties *)

(** ** Bytes *)

Lemma b2z_range (b : byte) : 0 <= b2z b < 256.
Proof.
  unfold b2z. pose proof (Byte.to_N_bounded b). lia.
Qed.

Lemma b2z_z2b (z : Z) : b2z (z2b z) = z mod 256.
Proof.
  unfold b2z, z2b.
  assert (Hr : 0 <= z mod 256 < 256) by (apply Z.mod_pos_bound; lia).
  destruct (Byte.of_N (Z.to_N (z mod 256))) as [b|] eqn:E.
  - apply Byte.to_of_N in E. rewrite E. lia.
  - apply Byte.of_N_None_iff in E. lia.
Qed.

Lemma z2b_b2z (b : byte) : z2b (b2z b) = b.
Proof.
  unfold z2b. pose proof (b2z_range b) as Hr.
  rewrite Z.mod_small by lia. unfold b2z.
  rewrite N2Z.id, Byte.of_to_N. reflexivity.
Qed.

Lemma b2z_inj (a b : byte) : b2z a = b2z b -> a = b.
Proof.
  intros H. rewrite <- (z2b_b2z a), <- (z2b_b2z b), H. reflexivity.
Qed.

Lemma z2b_mod (z : Z) : z2b (z mod 256) = z2b z.
Proof. unfold z2b. rewrite Z.mod_mod by lia. reflexivity. Qed.

(** ** The 32-bit operators *)

Module JSFacts.
Import JS.

Lemma ToUint32_range x : 0 <= ToUint32 x < 2 ^ 32.
Proof. unfold ToUint32. apply Z.mod_pos_bound. lia. Qed.

Lemma ToUint32_small x : 0 <= x < 2 ^ 32 -> ToUint32 x = x.
Proof. intros. unfold ToUint32. apply Z.mod_small. lia. Qed.

Lemma ToUint32_land x : ToUint32 x = Z.land x (Z.ones 32).
Proof. unfold ToUint32. rewrite Z.land_ones by lia. reflexivity. Qed.

Lemma ToUint32_ToInt32 x : ToUint32 (ToInt32 x) = ToUint32 x.
Proof.
  unfold ToUint32, ToInt32.
  change (2 ^ 32) with 4294967296. change (2 ^ 31) with 2147483648.
  pose proof (Z.div_mod (x + 2147483648) 4294967296 ltac:(lia)) as E.
  replace ((x + 2147483648) mod 4294967296 - 2147483648)
    with (x + (- ((x + 2147483648) / 4294967296)) * 4294967296) by lia.
  apply Z.mod_add. lia.
Qed.

Lemma ToInt32_small x : - 2 ^ 31 <= x < 2 ^ 31 -> ToInt32 x = x.
Proof.
  intros. unfold ToInt32. rewrite Z.mod_small; lia.
Qed.

Lemma ToUint32_lxor a b :
  ToUint32 (Z.lxor a b) = Z.lxor (ToUint32 a) (ToUint32 b).
Proof.
  rewrite !ToUint32_land. apply Z.bits_inj'. intros n _.
  rewrite !Z.lxor_spec, !Z.land_spec, !Z.lxor_spec.
  destruct (Z.testbit a n), (Z.testbit b n), (Z.testbit (Z.ones 32) n);
    reflexivity.
Qed.

Lemma ToUint32_lor a b :
  ToUint32 (Z.lor a b) = Z.lor (ToUint32 a) (ToUint32 b).
Proof. rewrite !ToUint32_land. apply Z.land_lor_distr_l. Qed.

Lemma ToUint32_land2 a b :
  ToUint32 (Z.land a b) = Z.land (ToUint32 a) (ToUint32 b).
Proof.
  rewrite !ToUint32_land. apply Z.bits_inj'. intros n _.
  rewrite !Z.land_spec.
  destruct (Z.testbit a n), (Z.testbit b n), (Z.testbit (Z.ones 32) n);
    reflexivity.
Qed.

Lemma ToUint32_bxor a b :
  ToUint32 (bxor a b) = Z.lxor (ToUint32 a) (ToUint32 b).
Proof.
  unfold bxor. rewrite ToUint32_ToInt32, ToUint32_lxor, !ToUint32_ToInt32.
  reflexivity.
Qed.

Lemma ToUint32_bor a b :
  ToUint32 (bor a b) = Z.lor (ToUint32 a) (ToUint32 b).
Proof.
  unfold bor. rewrite ToUint32_ToInt32, ToUint32_lor, !ToUint32_ToInt32.
  reflexivity.
Qed.

Lemma ToUint32_band a b :
  ToUint32 (band a b) = Z.land (ToUint32 a) (ToUint32 b).
Proof.
  unfold band. rewrite ToUint32_ToInt32, ToUint32_land2, !ToUint32_ToInt32.
  reflexivity.
Qed.

Lemma shru_0 a : shru a 0 = ToUint32 a.
Proof. unfold shru. apply Z.shiftr_0_r. Qed.

End JSFacts.

Module U32Facts.
Import JS JSFacts.

Lemma band_255 x : band x 0xff = x mod 256.
Proof.
  unfold band. rewrite (ToInt32_small 255) by lia.
  change 255 with (Z.ones 8). rewrite Z.land_ones by lia.
  change (2 ^ 8) with 256.
  rewrite ToInt32_small
    by (pose proof (Z.mod_pos_bound (ToInt32 x) 256 ltac:(lia)); lia).
  unfold ToInt32. change (2 ^ 32) with 4294967296.
  change (2 ^ 31) with 2147483648.
  Z.to_euclidean_division_equations. lia.
Qed.

Lemma shru_div a k : 0 <= k -> shru a k = ToUint32 a / 2 ^ k.
Proof. intros. unfold shru. apply Z.shiftr_div_pow2. assumption. Qed.

Lemma lor_disjoint hi lo k :
  0 <= k -> 0 <= lo < 2 ^ k -> Z.lor (hi * 2 ^ k) lo = hi * 2 ^ k + lo.
Proof.
  intros Hk Hlo.
  assert (E : Z.land (hi * 2 ^ k) lo = 0).
  { apply Z.bits_inj'. intros n Hn. rewrite Z.land_spec, Z.bits_0.
    destruct (Z.lt_ge_cases n k).
    - rewrite Z.mul_pow2_bits_low by lia. reflexivity.
    - rewrite <- (Z.mod_small lo (2 ^ k)) by lia.
      rewrite Z.mod_pow2_bits_high by lia. apply andb_false_r. }
  pose proof (Z.add_lor_land (hi * 2 ^ k) lo) as A. rewrite E in A. lia.
Qed.

Lemma ToUint32_shl_byte g k :
  0 <= g < 256 -> 0 <= k <= 24 -> ToUint32 (shl g k) = g * 2 ^ k.
Proof.
  intros Hg Hk. unfold shl.
  rewrite ToUint32_ToInt32, ToInt32_small by lia.
  rewrite Z.shiftl_mul_pow2 by lia.
  apply ToUint32_small.
  assert (2 ^ k <= 2 ^ 24) by (apply Z.pow_le_mono_r; lia).
  assert (0 < 2 ^ k) by (apply Z.pow_pos_nonneg; lia).
  change (2 ^ 24) with 16777216 in *. nia.
Qed.

End U32Facts.

Lemma get_range (buf : Uint8Array) (off : nat) : 0 <= get buf off < 256.
Proof.
  unfold get. destruct (nth_error buf off); [apply b2z_range | lia].
Qed.

(** [readU32BE] reads the four bytes as a big-endian number. *)
Lemma readU32BE_spec (buf : Uint8Array) (off : nat) :
  readU32BE buf off =
    get buf off * 2 ^ 24 + get buf (off + 1) * 2 ^ 16
    + get buf (off + 2) * 2 ^ 8 + get buf (off + 3).
Proof.
  unfold readU32BE.
  pose proof (get_range buf off) as R0.
  pose proof (get_range buf (off + 1)) as R1.
  pose proof (get_range buf (off + 2)) as R2.
  pose proof (get_range buf (off + 3)) as R3.
  rewrite JSFacts.shru_0, !JSFacts.ToUint32_bor.
  rewrite !U32Facts.ToUint32_shl_byte by lia.
  rewrite (JSFacts.ToUint32_small (get buf (off + 3))) by lia.
  revert R0 R1 R2 R3.
  generalize (get buf off) (get buf (off + 1)) (get buf (off + 2))
             (get buf (off + 3)).
  intros g0 g1 g2 g3 R0 R1 R2 R3.
  change (2 ^ 16) with 65536 in *. change (2 ^ 8) with 256 in *.
  rewrite (U32Facts.lor_disjoint g0 (g1 * 65536) 24)
    by (change (2 ^ 24) with 16777216; lia).
  change (2 ^ 24) with (256 * 2 ^ 16).
  replace (g0 * (256 * 2 ^ 16) + g1 * 65536)
    with ((g0 * 256 + g1) * 2 ^ 16) by (change (2 ^ 16) with 65536; ring).
  rewrite (U32Facts.lor_disjoint _ (g2 * 256) 16)
    by (change (2 ^ 16) with 65536; lia).
  replace ((g0 * 256 + g1) * 2 ^ 16 + g2 * 256)
    with ((g0 * 65536 + g1 * 256 + g2) * 2 ^ 8)
    by (change (2 ^ 16) with 65536; change (2 ^ 8) with 256; ring).
  rewrite (U32Facts.lor_disjoint _ g3 8) by (change (2 ^ 8) with 256; lia).
  change (2 ^ 8) with 256. change (2 ^ 16) with 65536. ring.
Qed.

(** ** Typed-array operations *)

Lemma store_length (buf : Uint8Array) (off : nat) (v : Z) :
  length (store buf off v) = length buf.
Proof.
  revert off. induction buf as [|b rest IH]; intros [|off]; simpl; auto.
Qed.

Lemma writeU32BE_length (buf : Uint8Array) (off : nat) (v : Z) :
  length (writeU32BE buf off v) = length buf.
Proof. unfold writeU32BE. rewrite !store_length. reflexivity. Qed.

Lemma overwrite_spec (src dst : Uint8Array) :
  (length src <= length dst)%nat ->
  overwrite src dst = src ++ skipn (length src) dst.
Proof.
  revert dst. induction src as [|s src IH]; intros dst H; simpl.
  - reflexivity.
  - destruct dst as [|d dst]; simpl in *; [lia|].
    rewrite IH by lia. reflexivity.
Qed.

Lemma set_spec (dst src : Uint8Array) (off : nat) :
  (off + length src <= length dst)%nat ->
  set dst src off =
    Some (firstn off dst ++ src ++ skipn (off + length src) dst).
Proof.
  intros H. unfold set.
  destruct (Nat.leb_spec (off + length src) (length dst)); [|lia].
  rewrite overwrite_spec by (rewrite length_skipn; lia).
  rewrite skipn_skipn, (Nat.add_comm (length src)). reflexivity.
Qed.

Lemma skipn_repeat {A : Type} (x : A) (k n : nat) :
  skipn k (repeat x n) = repeat x (n - k).
Proof.
  revert n. induction k as [|k IH]; intros [|n]; simpl; auto.
Qed.

Lemma slice_0 (buf : Uint8Array) (e : Z) :
  slice buf 0 e = firstn (Z.to_nat e) buf.
Proof. unfold slice. simpl. rewrite Nat.sub_0_r. reflexivity. Qed.

Lemma name_field_length (name : text) : length (name_field name) = 32%nat.
Proof.
  unfold name_field. rewrite slice_0. simpl Z.to_nat.
  rewrite length_app, repeat_length.
  pose proof (firstn_le_length (Pos.to_nat 32) (TextEncoder_encode name)).
  change (Pos.to_nat 32) with 32%nat in *. lia.
Qed.

Lemma encodeName_eq (name : text) : encodeName name = Some (name_field name).
Proof.
  unfold encodeName, name_field, new_Uint8Array.
  set (raw := slice (TextEncoder_encode name) 0 32).
  assert (Hlen : (length raw <= 32)%nat).
  { subst raw. rewrite slice_0. apply firstn_le_length. }
  rewrite set_spec by (rewrite repeat_length; lia).
  simpl firstn. rewrite skipn_repeat. simpl. reflexivity.
Qed.

Lemma payload_build (scriptBytes : Uint8Array) :
  set (writeU32BE
         (writeU32BE (new_Uint8Array (8 + length scriptBytes)) 0
                     (Z.of_nat (length scriptBytes))) 4 0)
      scriptBytes 8
  = Some (payload_layout scriptBytes).
Proof.
  rewrite set_spec
    by (rewrite !writeU32BE_length; unfold new_Uint8Array;
        rewrite repeat_length; lia).
  unfold new_Uint8Array, writeU32BE, payload_layout, u32be.
  cbn [repeat Nat.add store firstn skipn app].
  rewrite skipn_repeat, Nat.sub_diag. simpl repeat.
  rewrite app_nil_r. reflexivity.
Qed.

Lemma payload_layout_length (scriptBytes : Uint8Array) :
  length (payload_layout scriptBytes) = (8 + length scriptBytes)%nat.
Proof. reflexivity. Qed.

Lemma header_layout_length hcrc ts size load entry dcrc os arch type comp name :
  length (header_layout hcrc ts size load entry dcrc os arch type comp name)
  = 64%nat.
Proof.
  unfold header_layout, u32be. cbn [app length].
  rewrite name_field_length. reflexivity.
Qed.

Lemma header_stage (m h ts sz ld en dc o a t c : Z) (nf : Uint8Array) :
  length nf = 32%nat ->
  set (store (store (store (store
        (writeU32BE (writeU32BE (writeU32BE (writeU32BE (writeU32BE
          (writeU32BE (writeU32BE (new_Uint8Array 64) 0 m) 4 h) 8 ts) 12 sz)
            16 ld) 20 en) 24 dc) 28 o) 29 a) 30 t) 31 c) nf 32
  = Some (u32be m ++ u32be h ++ u32be ts ++ u32be sz ++ u32be ld ++ u32be en
          ++ u32be dc ++ [z2b o; z2b a; z2b t; z2b c] ++ nf).
Proof.
  intros Hnf.
  rewrite set_spec
    by (rewrite !store_length, !writeU32BE_length; unfold new_Uint8Array;
        rewrite repeat_length; lia).
  rewrite Hnf.
  unfold new_Uint8Array, writeU32BE, u32be.
  cbn [repeat Nat.add store firstn skipn app].
  rewrite app_nil_r. reflexivity.
Qed.

Lemma hcrc_patch (m h0 h : Z) (rest : Uint8Array) :
  writeU32BE (u32be m ++ u32be h0 ++ rest) 4 h = u32be m ++ u32be h ++ rest.
Proof. reflexivity. Qed.

Lemma out_stage (hdr payload : Uint8Array) :
  length hdr = 64%nat ->
  (out <- set (new_Uint8Array (64 + length payload)) hdr 0 ;;
   out <- set out payload 64 ;;
   Some out) = Some (hdr ++ payload).
Proof.
  intros Hh. unfold new_Uint8Array.
  rewrite set_spec by (rewrite repeat_length; lia).
  rewrite Hh, skipn_repeat, firstn_O. rewrite app_nil_l.
  rewrite set_spec by (rewrite length_app, repeat_length; lia).
  rewrite firstn_app, skipn_app, Hh.
  rewrite (firstn_all2 hdr) by lia.
  rewrite (skipn_all2 hdr) by lia.
  rewrite Nat.sub_diag, skipn_repeat, firstn_O, app_nil_l.
  match goal with
  | |- context [repeat x00 ?n] => replace n with 0%nat by lia
  end.
  cbn [repeat]. rewrite !app_nil_r. reflexivity.
Qed.

(** The builder never raises and emits the fields in the wire order. *)
Lemma build_eq (args : BuildArgs) (now : Z) :
  buildLegacyScriptImage args now = Some (image args now).
Proof.
  unfold buildLegacyScriptImage.
  rewrite payload_build, encodeName_eq.
  unfold HEADER_SIZE.
  rewrite header_stage by apply name_field_length.
  rewrite hcrc_patch.
  rewrite out_stage.
  - reflexivity.
  - apply (header_layout_length _ (now / 1000)
             (Z.of_nat (length (image_payload args)))
             (built_loadAddr args) (built_entryPoint args)
             (crc32 (image_payload args) DEFAULT_SEED)
             (built_os args) (built_arch args) (built_type args)
             (built_comp args) (built_name args)).
Qed.

(** ** The control flow of the parser *)

Lemma parse_cases (buf : Uint8Array) :
  parseLegacyUImage buf =
    if (length buf <? HEADER_SIZE)%nat then ([], inl TooSmall)
    else if negb (readU32BE buf 0 =? UIMAGE_MAGIC) then ([], inl BadMagic)
    else if Z.of_nat HEADER_SIZE + readU32BE buf 12 >? Z.of_nat (length buf)
      then ([], inl PayloadOverrun)
    else ((if crcMismatch buf then [CrcMismatch] else []),
          if (length (payloadOf buf) <? 8)%nat then inl MissingWrapper
          else inr (decodeHeader buf, scriptOf buf)).
Proof.
  unfold parseLegacyUImage, crcMismatch, calcDcrc, calcHcrc, scriptOf,
    decodeHeader, payloadOf.
  cbn [UImageHeader.size UImageHeader.dcrc UImageHeader.hcrc].
  set (payload := slice buf (Z.of_nat HEADER_SIZE)
                        (Z.of_nat HEADER_SIZE + readU32BE buf 12)).
  generalize (crc32 payload DEFAULT_SEED).
  generalize (crc32 (writeU32BE (slice buf 0 (Z.of_nat HEADER_SIZE)) 4 0)
                    DEFAULT_SEED).
  intros ch cd.
  destruct (length buf <? HEADER_SIZE)%nat; [reflexivity|].
  destruct (negb (readU32BE buf 0 =? UIMAGE_MAGIC)); [reflexivity|].
  destruct (Z.of_nat HEADER_SIZE + readU32BE buf 12 >? Z.of_nat (length buf));
    [reflexivity|].
  destruct (negb (cd =? readU32BE buf 24) || negb (ch =? readU32BE buf 4));
    (destruct (length payload <? 8)%nat; reflexivity).
Qed.

Lemma payloadOf_length (buf : Uint8Array) :
  Z.of_nat HEADER_SIZE + readU32BE buf 12 <= Z.of_nat (length buf) ->
  Z.of_nat (length (payloadOf buf)) = readU32BE buf 12.
Proof.
  intros H. unfold payloadOf, slice.
  pose proof (readU32BE_spec buf 12) as S.
  pose proof (get_range buf 12). pose proof (get_range buf (12 + 1)).
  pose proof (get_range buf (12 + 2)). pose proof (get_range buf (12 + 3)).
  assert (0 <= readU32BE buf 12) by (rewrite S; lia).
  rewrite length_firstn, length_skipn. unfold HEADER_SIZE in *. lia.
Qed.

(** ** Structural rejection *)

(** C3: the parser fails exactly when the buffer is shorter than 64 bytes
    (TooSmall), or else its magic number is wrong (BadMagic), or else the
    declared payload runs past the end of the buffer (PayloadOverrun), or
    else the payload area is shorter than 8 bytes (MissingWrapper); on every
    other buffer it returns the decoded header and script, whatever the
    checksum comparison says. *)
Theorem parse_structural_errors (buf : Uint8Array) :
  let len := Z.of_nat (length buf) in
  let magic := readU32BE buf 0 in
  let dataSize := readU32BE buf 12 in
  let r := outcome (parseLegacyUImage buf) in
  (r = inl TooSmall <-> len < 64) /\
  (r = inl BadMagic <-> 64 <= len /\ magic <> UIMAGE_MAGIC) /\
  (r = inl PayloadOverrun <->
     64 <= len /\ magic = UIMAGE_MAGIC /\ 64 + dataSize > len) /\
  (r = inl MissingWrapper <->
     64 <= len /\ magic = UIMAGE_MAGIC /\ 64 + dataSize <= len
     /\ dataSize < 8) /\
  ((exists e, r = inl e) <->
     len < 64 \/ magic <> UIMAGE_MAGIC \/ 64 + dataSize > len
     \/ dataSize < 8) /\
  (r = inr (decodeHeader buf, scriptOf buf) <->
     64 <= len /\ magic = UIMAGE_MAGIC /\ 64 + dataSize <= len
     /\ 8 <= dataSize).
Proof.
  cbv zeta. rewrite parse_cases. unfold outcome, HEADER_SIZE.
  destruct (Nat.ltb_spec (length buf) 64) as [Hl|Hl]; cbn [snd].
  { repeat split; intros; try discriminate; try lia;
      try (exists TooSmall; reflexivity). }
  destruct (Z.eqb_spec (readU32BE buf 0) UIMAGE_MAGIC) as [Hm|Hm];
    cbn [negb snd].
  2:{ repeat split; intros; try discriminate; try lia; try tauto;
        try (exists BadMagic; reflexivity). }
  destruct (Z.gtb_spec (Z.of_nat 64 + readU32BE buf 12)
                       (Z.of_nat (length buf))) as [Ho|Ho]; cbn [snd].
  { repeat split; intros; try discriminate; try lia; try tauto;
      try (exists PayloadOverrun; reflexivity). }
  pose proof (payloadOf_length buf ltac:(unfold HEADER_SIZE; lia)) as Hp.
  destruct (Nat.ltb_spec (length (payloadOf buf)) 8) as [H8|H8].
  - repeat split; intros; try discriminate; try lia; try tauto;
      try (exists MissingWrapper; reflexivity).
  - repeat split; intros; try discriminate; try lia; try tauto.
    destruct H as [e He]. discriminate.
Qed.

(** ** Reading back what [writeU32BE] stored *)

Lemma u32_bytes_value (v : Z) :
  ((JS.band (JS.shru v 24) 0xff) mod 256) * 2 ^ 24
  + ((JS.band (JS.shru v 16) 0xff) mod 256) * 2 ^ 16
  + ((JS.band (JS.shru v 8) 0xff) mod 256) * 2 ^ 8
  + (JS.band v 0xff) mod 256
  = JS.ToUint32 v.
Proof.
  rewrite !U32Facts.band_255, !U32Facts.shru_div by lia.
  rewrite !Z.mod_mod by lia.
  unfold JS.ToUint32.
  change (2 ^ 32) with 4294967296. change (2 ^ 24) with 16777216.
  change (2 ^ 16) with 65536. change (2 ^ 8) with 256.
  Z.to_euclidean_division_equations. lia.
Qed.

Lemma readU32BE_u32be (v : Z) (rest : Uint8Array) :
  readU32BE (u32be v ++ rest) 0 = JS.ToUint32 v.
Proof.
  rewrite readU32BE_spec. unfold u32be, get.
  cbn [app Nat.add nth_error]. rewrite !b2z_z2b.
  apply u32_bytes_value.
Qed.

Lemma get_skip (pre rest : Uint8Array) (k : nat) :
  get (pre ++ rest) (length pre + k) = get rest k.
Proof.
  unfold get. induction pre as [|p pre IH]; [reflexivity|]. exact IH.
Qed.

Lemma readU32BE_skip (pre rest : Uint8Array) (k : nat) :
  readU32BE (pre ++ rest) (length pre + k) = readU32BE rest k.
Proof.
  unfold readU32BE. rewrite <- !Nat.add_assoc, !get_skip. reflexivity.
Qed.

Lemma readU32BE_skip4 (a b c d : byte) (rest : Uint8Array) (k : nat) :
  readU32BE (a :: b :: c :: d :: rest) (4 + k) = readU32BE rest k.
Proof. apply (readU32BE_skip [a; b; c; d] rest k). Qed.

(** ** Reading the fields of a laid-out header *)

Section HeaderLayout.

Variables hcrc ts size load entry dcrc os arch type comp : Z.
Variable name : text.
Variable rest : Uint8Array.

Let HL : Uint8Array :=
  header_layout hcrc ts size load entry dcrc os arch type comp name.

Lemma header_explicit :
  HL ++ rest =
    u32be UIMAGE_MAGIC ++ u32be hcrc ++ u32be ts ++ u32be size
    ++ u32be load ++ u32be entry ++ u32be dcrc
    ++ [z2b (JS.band os 0xff); z2b (JS.band arch 0xff);
        z2b (JS.band type 0xff); z2b (JS.band comp 0xff)]
    ++ name_field name ++ rest.
Proof.
  unfold HL, header_layout. rewrite <- !app_assoc. reflexivity.
Qed.

Lemma read_magic : readU32BE (HL ++ rest) 0 = UIMAGE_MAGIC.
Proof.
  rewrite header_explicit, readU32BE_u32be. reflexivity.
Qed.

Lemma read_hcrc : readU32BE (HL ++ rest) 4 = JS.ToUint32 hcrc.
Proof.
  rewrite header_explicit.
  change 4%nat with (length (u32be UIMAGE_MAGIC) + 0)%nat.
  rewrite readU32BE_skip. apply readU32BE_u32be.
Qed.

Lemma read_timestamp : readU32BE (HL ++ rest) 8 = JS.ToUint32 ts.
Proof.
  rewrite header_explicit.
  change 8%nat with (length (u32be UIMAGE_MAGIC)
                     + (length (u32be hcrc) + 0))%nat.
  rewrite !readU32BE_skip. apply readU32BE_u32be.
Qed.

Lemma read_size : readU32BE (HL ++ rest) 12 = JS.ToUint32 size.
Proof.
  rewrite header_explicit.
  change 12%nat with (length (u32be UIMAGE_MAGIC)
                      + (length (u32be hcrc) + (length (u32be ts) + 0)))%nat.
  rewrite !readU32BE_skip. apply readU32BE_u32be.
Qed.

Lemma read_loadAddr : readU32BE (HL ++ rest) 16 = JS.ToUint32 load.
Proof.
  rewrite header_explicit.
  change 16%nat with (length (u32be UIMAGE_MAGIC)
                      + (length (u32be hcrc) + (length (u32be ts)
                         + (length (u32be size) + 0))))%nat.
  rewrite !readU32BE_skip. apply readU32BE_u32be.
Qed.

Lemma read_entryPoint : readU32BE (HL ++ rest) 20 = JS.ToUint32 entry.
Proof.
  rewrite header_explicit.
  change 20%nat with (length (u32be UIMAGE_MAGIC)
                      + (length (u32be hcrc) + (length (u32be ts)
                         + (length (u32be size)
                            + (length (u32be load) + 0)))))%nat.
  rewrite !readU32BE_skip. apply readU32BE_u32be.
Qed.

Lemma read_dcrc : readU32BE (HL ++ rest) 24 = JS.ToUint32 dcrc.
Proof.
  rewrite header_explicit.
  change 24%nat with (length (u32be UIMAGE_MAGIC)
                      + (length (u32be hcrc) + (length (u32be ts)
                         + (length (u32be size)
                            + (length (u32be load)
                               + (length (u32be entry) + 0))))))%nat.
  rewrite !readU32BE_skip. apply readU32BE_u32be.
Qed.

Lemma read_os : get (HL ++ rest) 28 = os mod 256.
Proof.
  rewrite header_explicit. unfold get, u32be. cbn [app nth_error].
  rewrite b2z_z2b, U32Facts.band_255. apply Z.mod_mod. lia.
Qed.

Lemma read_arch : get (HL ++ rest) 29 = arch mod 256.
Proof.
  rewrite header_explicit. unfold get, u32be. cbn [app nth_error].
  rewrite b2z_z2b, U32Facts.band_255. apply Z.mod_mod. lia.
Qed.

Lemma read_type : get (HL ++ rest) 30 = type mod 256.
Proof.
  rewrite header_explicit. unfold get, u32be. cbn [app nth_error].
  rewrite b2z_z2b, U32Facts.band_255. apply Z.mod_mod. lia.
Qed.

Lemma read_comp : get (HL ++ rest) 31 = comp mod 256.
Proof.
  rewrite header_explicit. unfold get, u32be. cbn [app nth_error].
  rewrite b2z_z2b, U32Facts.band_255. apply Z.mod_mod. lia.
Qed.

Lemma read_name_field : slice (HL ++ rest) 32 64 = name_field name.
Proof.
  rewrite header_explicit. unfold slice, u32be.
  change (Z.to_nat 64 - Z.to_nat 32)%nat with 32%nat.
  change (Z.to_nat 32) with 32%nat.
  cbn [app skipn].
  rewrite firstn_app, name_field_length, Nat.sub_diag, firstn_O, app_nil_r.
  apply firstn_all2. rewrite name_field_length. lia.
Qed.

Lemma HL_length : length HL = 64%nat.
Proof. apply header_layout_length. Qed.

Lemma slice_header : slice (HL ++ rest) 0 (Z.of_nat HEADER_SIZE) = HL.
Proof.
  rewrite slice_0. change (Z.to_nat (Z.of_nat HEADER_SIZE)) with 64%nat.
  rewrite firstn_app, HL_length, Nat.sub_diag, firstn_O, app_nil_r.
  apply firstn_all2. rewrite HL_length. lia.
Qed.

Lemma slice_payload :
  slice (HL ++ rest) (Z.of_nat HEADER_SIZE)
        (Z.of_nat HEADER_SIZE + Z.of_nat (length rest)) = rest.
Proof.
  unfold slice. change (Z.to_nat (Z.of_nat HEADER_SIZE)) with 64%nat.
  rewrite skipn_app, HL_length, Nat.sub_diag, skipn_all2
    by (rewrite HL_length; lia).
  cbn [skipn app]. apply firstn_all2. unfold HEADER_SIZE. lia.
Qed.

Lemma zero_hcrc :
  writeU32BE HL 4 0 =
    header_layout 0 ts size load entry dcrc os arch type comp name.
Proof. reflexivity. Qed.

End HeaderLayout.

Lemma crc32_range (data : Uint8Array) (seed : Z) :
  0 <= crc32 data seed < 2 ^ 32.
Proof.
  unfold crc32. rewrite JSFacts.shru_0. apply JSFacts.ToUint32_range.
Qed.

Lemma ToUint32_crc32 (data : Uint8Array) (seed : Z) :
  JS.ToUint32 (crc32 data seed) = crc32 data seed.
Proof. apply JSFacts.ToUint32_small, crc32_range. Qed.

(** ** What the builder emits *)

Section BuiltImage.

Variable args : BuildArgs.
Variable now : Z.

Let scriptBytes : Uint8Array := TextEncoder_encode (script args).
Let n : Z := Z.of_nat (length scriptBytes).

Lemma image_payload_length :
  Z.of_nat (length (image_payload args)) = 8 + n.
Proof.
  unfold image_payload. rewrite payload_layout_length.
  unfold n, scriptBytes. lia.
Qed.

Lemma image_header_length : length (image_header args now) = 64%nat.
Proof.
  unfold image_header, image_header_with. apply header_layout_length.
Qed.

Lemma image_length : Z.of_nat (length (image args now)) = 72 + n.
Proof.
  unfold image. rewrite length_app, image_header_length.
  pose proof image_payload_length. lia.
Qed.

Lemma image_read_payload (k : nat) :
  readU32BE (image args now) (64 + k) = readU32BE (image_payload args) k.
Proof.
  unfold image. rewrite <- image_header_length. apply readU32BE_skip.
Qed.

Lemma image_script_length :
  readU32BE (image args now) 64 = JS.ToUint32 n.
Proof.
  change 64%nat with (64 + 0)%nat.
  rewrite (image_read_payload 0). unfold image_payload, payload_layout.
  apply readU32BE_u32be.
Qed.

Lemma image_reserved : readU32BE (image args now) 68 = 0.
Proof.
  change 68%nat with (64 + 4)%nat.
  rewrite (image_read_payload 4). unfold image_payload, payload_layout.
  change 4%nat
    with (length (u32be (Z.of_nat (length scriptBytes))) + 0)%nat.
  rewrite readU32BE_skip, readU32BE_u32be. reflexivity.
Qed.

Lemma image_dataSize :
  readU32BE (image args now) 12 = JS.ToUint32 (8 + n).
Proof.
  unfold image, image_header, image_header_with.
  rewrite read_size, image_payload_length. reflexivity.
Qed.

Lemma image_script_bytes :
  slice (image args now) 72 (72 + n) = scriptBytes.
Proof.
  unfold image, slice.
  replace (Z.to_nat (72 + n) - Z.to_nat 72)%nat with (length scriptBytes)
    by (unfold n; lia).
  change (Z.to_nat 72) with (8 + 64)%nat.
  rewrite <- skipn_skipn, skipn_app, image_header_length, Nat.sub_diag.
  rewrite (skipn_all2 (image_header args now) (n := 64))
    by (rewrite image_header_length; lia).
  cbn [skipn app]. unfold image_payload, payload_layout, u32be.
  cbn [app skipn]. apply firstn_all.
Qed.

Lemma image_payloadOf :
  8 + n < 2 ^ 32 -> payloadOf (image args now) = image_payload args.
Proof.
  intros Hfit. unfold payloadOf.
  rewrite image_dataSize, JSFacts.ToUint32_small by (unfold n; lia).
  rewrite <- image_payload_length.
  unfold image, image_header, image_header_with. apply slice_payload.
Qed.

Lemma image_calcDcrc :
  8 + n < 2 ^ 32 ->
  calcDcrc (image args now) = readU32BE (image args now) 24.
Proof.
  intros Hfit. unfold calcDcrc. rewrite image_payloadOf by assumption.
  unfold image, image_header, image_header_with.
  rewrite read_dcrc, ToUint32_crc32. reflexivity.
Qed.

Lemma image_hcrc_valid :
  crc32 (writeU32BE (slice (image args now) 0 64) 4 0) DEFAULT_SEED
  = readU32BE (image args now) 4.
Proof.
  unfold image, image_header. unfold image_header_with at 1 3.
  change 64 with (Z.of_nat HEADER_SIZE).
  rewrite slice_header, zero_hcrc, read_hcrc, ToUint32_crc32.
  reflexivity.
Qed.

Lemma image_calcHcrc :
  calcHcrc (image args now) = readU32BE (image args now) 4.
Proof. unfold calcHcrc. exact image_hcrc_valid. Qed.

End BuiltImage.

(** ** Parsing what the builder emitted *)

Lemma image_scriptOf (args : BuildArgs) (now : Z) :
  8 + Z.of_nat (length (TextEncoder_encode (script args))) < 2 ^ 32 ->
  scriptOf (image args now)
  = TextDecoder_utf8_decode (TextEncoder_encode (script args)).
Proof.
  intros Hfit. unfold scriptOf. rewrite image_payloadOf by assumption.
  unfold image_payload, payload_layout, u32be, slice.
  cbn [app length]. rewrite Nat2Z.id. change (Z.to_nat 8) with 8%nat.
  cbn [skipn Nat.sub]. rewrite Nat.sub_0_r, firstn_all. reflexivity.
Qed.

Lemma parse_image (args : BuildArgs) (now : Z) :
  8 + Z.of_nat (length (TextEncoder_encode (script args))) < 2 ^ 32 ->
  parseLegacyUImage (image args now)
  = ([], inr (decodeHeader (image args now),
              TextDecoder_utf8_decode (TextEncoder_encode (script args)))).
Proof.
  intros Hfit. rewrite parse_cases.
  pose proof (image_length args now) as Hlen.
  destruct (Nat.ltb_spec (length (image args now)) HEADER_SIZE) as [H|_];
    [unfold HEADER_SIZE in H; lia|].
  replace (readU32BE (image args now) 0) with UIMAGE_MAGIC
    by (symmetry; unfold image, image_header, image_header_with;
        apply read_magic).
  rewrite Z.eqb_refl. cbn [negb].
  rewrite image_dataSize, JSFacts.ToUint32_small by lia.
  destruct (Z.gtb_spec
              (Z.of_nat HEADER_SIZE
               + (8 + Z.of_nat (length (TextEncoder_encode (script args)))))
              (Z.of_nat (length (image args now)))) as [H|_];
    [unfold HEADER_SIZE in H; lia|].
  unfold crcMismatch.
  rewrite image_calcDcrc, image_calcHcrc by assumption.
  rewrite !Z.eqb_refl. cbn [negb orb].
  rewrite image_payloadOf by assumption.
  pose proof (image_payload_length args) as Hp.
  destruct (Nat.ltb_spec (length (image_payload args)) 8) as [H|_]; [lia|].
  rewrite image_scriptOf by assumption. reflexivity.
Qed.

(** ** Claims about the builder *)

(** C9: the emitted container is 72 + n bytes long, where n is the length of
    the UTF-8 encoding of the script; its dataSize field (offset 12) is
    8 + n, its script_length field (offset 64) is n, its reserved field
    (offset 68) is 0 and the script bytes lie at offsets 72 to 72 + n.  The
    size fields are 32 bits wide: the payload is taken to fit them, as the
    encoding of every string the host can hold does. *)
Theorem build_layout (args : BuildArgs) (now : Z) :
  let scriptBytes := TextEncoder_encode (script args) in
  let n := Z.of_nat (length scriptBytes) in
  8 + n < 2 ^ 32 ->
  exists out,
    buildLegacyScriptImage args now = Some out
    /\ Z.of_nat (length out) = 72 + n
    /\ readU32BE out 12 = 8 + n
    /\ readU32BE out 64 = n
    /\ 8 + readU32BE out 64 = readU32BE out 12
    /\ readU32BE out 68 = 0
    /\ slice out 72 (72 + n) = scriptBytes.
Proof.
  intros scriptBytes n Hfit. exists (image args now).
  assert (Hd : readU32BE (image args now) 12 = 8 + n)
    by (rewrite image_dataSize; apply JSFacts.ToUint32_small; subst n; lia).
  assert (Hs : readU32BE (image args now) 64 = n)
    by (rewrite image_script_length; apply JSFacts.ToUint32_small;
        subst n; lia).
  repeat split.
  - apply build_eq.
  - apply image_length.
  - exact Hd.
  - exact Hs.
  - rewrite Hd, Hs. reflexivity.
  - apply image_reserved.
  - apply image_script_bytes.
Qed.

Lemma image_payload_area (args : BuildArgs) (now : Z) :
  slice (image args now) 64 (Z.of_nat (length (image args now)))
  = image_payload args.
Proof.
  unfold slice, image. rewrite Nat2Z.id. change (Z.to_nat 64) with 64%nat.
  rewrite skipn_app, image_header_length, Nat.sub_diag.
  rewrite (skipn_all2 (image_header args now) (n := 64))
    by (rewrite image_header_length; lia).
  cbn [skipn app]. apply firstn_all2.
  rewrite length_app, image_header_length. lia.
Qed.

Lemma image_dcrc_valid (args : BuildArgs) (now : Z) :
  crc32 (image_payload args) DEFAULT_SEED = readU32BE (image args now) 24.
Proof.
  unfold image, image_header, image_header_with.
  rewrite read_dcrc, ToUint32_crc32. reflexivity.
Qed.

(** C10: the emitted container is checksum-valid: it holds a 64-byte
    header that begins with the magic number, followed by the payload; the
    CRC-32 of its payload area (bytes 64 to the end) is the stored dataCrc
    (offset 24) and the CRC-32 of its 64-byte header with the headerCrc
    field zeroed is the stored headerCrc (offset 4); the parser accepts it
    and raises no warning (the parser reads the payload area through the
    32-bit dataSize field, which the payload is taken to fit, as in C9). *)
Theorem build_checksum_valid (args : BuildArgs) (now : Z) :
  let scriptBytes := TextEncoder_encode (script args) in
  let n := Z.of_nat (length scriptBytes) in
  exists out,
    buildLegacyScriptImage args now = Some out
    /\ Z.of_nat (length out) = 72 + n
    /\ readU32BE out 0 = UIMAGE_MAGIC
    /\ crc32 (slice out 64 (Z.of_nat (length out))) DEFAULT_SEED
       = readU32BE out 24
    /\ crc32 (writeU32BE (slice out 0 64) 4 0) DEFAULT_SEED = readU32BE out 4
    /\ (8 + n < 2 ^ 32 ->
        parseLegacyUImage out
        = ([], inr (decodeHeader out, TextDecoder_utf8_decode scriptBytes))).
Proof.
  cbv zeta. exists (image args now).
  split; [apply build_eq|].
  split; [apply image_length|].
  split; [unfold image, image_header, image_header_with; apply read_magic|].
  split; [rewrite image_payload_area; apply image_dcrc_valid|].
  split; [apply image_hcrc_valid|].
  intros Hfit. apply parse_image. exact Hfit.
Qed.

(** C7: without a previous header and with the defaults "boot script", 0, 0
    the emitted header has osType 5, archType 2, imageType 6,
    compressionType 0 and a name field that decodes to "boot script". *)
Theorem build_default_fields (scriptText : text) (now : Z) :
  exists out,
    buildLegacyScriptImage
      (mk_args scriptText None (str "boot script") 0 0) now = Some out
    /\ UImageHeader.os (decodeHeader out) = 5
    /\ UImageHeader.arch (decodeHeader out) = 2
    /\ UImageHeader.type (decodeHeader out) = 6
    /\ UImageHeader.comp (decodeHeader out) = 0
    /\ UImageHeader.name (decodeHeader out) = str "boot script".
Proof.
  set (args := mk_args scriptText None (str "boot script") 0 0).
  exists (image args now). split; [apply build_eq|].
  unfold decodeHeader.
  cbn [UImageHeader.os UImageHeader.arch UImageHeader.type UImageHeader.comp
       UImageHeader.name].
  unfold image, image_header, image_header_with.
  rewrite read_os, read_arch, read_type, read_comp, read_name_field.
  repeat split; vm_compute; reflexivity.
Qed.

(** ** Claims about the parser and the CRC engine *)

(** C5, on the code: a buffer with a valid magic number, a payload area
    shorter than 8 bytes and a wrong stored checksum is rejected with
    MissingWrapper after the checksum warning has been shown; the claim
    expects no warning. *)
Theorem missing_wrapper_after_warning :
  parseLegacyUImage bare_header = ([CrcMismatch], inl MissingWrapper).
Proof. vm_compute. reflexivity. Qed.

(** The same on every such buffer. *)
Lemma missing_wrapper_warns (buf : Uint8Array) :
  (64 <= length buf)%nat ->
  readU32BE buf 0 = UIMAGE_MAGIC ->
  64 + readU32BE buf 12 <= Z.of_nat (length buf) ->
  readU32BE buf 12 < 8 ->
  crcMismatch buf = true ->
  parseLegacyUImage buf = ([CrcMismatch], inl MissingWrapper).
Proof.
  intros Hl Hm Ho H8 Hc. rewrite parse_cases, Hm, Z.eqb_refl, Hc.
  cbn [negb].
  destruct (Nat.ltb_spec (length buf) HEADER_SIZE) as [H|_];
    [unfold HEADER_SIZE in H; lia|].
  destruct (Z.gtb_spec (Z.of_nat HEADER_SIZE + readU32BE buf 12)
                       (Z.of_nat (length buf))) as [H|_];
    [unfold HEADER_SIZE in H; lia|].
  pose proof (payloadOf_length buf ltac:(unfold HEADER_SIZE; lia)) as Hp.
  destruct (Nat.ltb_spec (length (payloadOf buf)) 8) as [_|H]; [|lia].
  reflexivity.
Qed.

(** The three other structural errors are raised before the checksums are
    compared, hence without a warning. *)
Lemma early_errors_silent (buf : Uint8Array) (e : parse_error) :
  outcome (parseLegacyUImage buf) = inl e ->
  e <> MissingWrapper ->
  warnings (parseLegacyUImage buf) = [].
Proof.
  rewrite parse_cases. unfold outcome, warnings.
  destruct (length buf <? HEADER_SIZE)%nat; [reflexivity|].
  destruct (negb (readU32BE buf 0 =? UIMAGE_MAGIC)); [reflexivity|].
  destruct (Z.of_nat HEADER_SIZE + readU32BE buf 12 >? Z.of_nat (length buf));
    [reflexivity|].
  cbn [fst snd].
  destruct (length (payloadOf buf) <? 8)%nat; intros H; inversion H.
  congruence.
Qed.

(** C6: with the default seed the engine gives the IEEE 802.3 check values:
    0 on the empty sequence and 0xCBF43926 on the ASCII bytes of
    "123456789". *)
Theorem crc32_test_vectors :
  crc32 [] DEFAULT_SEED = 0x00000000
  /\ crc32 (ascii_bytes "123456789") DEFAULT_SEED = 0xCBF43926.
Proof. split; vm_compute; reflexivity. Qed.

(** The examples of structural rejection. *)
Example ten_zero_bytes :
  parseLegacyUImage (new_Uint8Array 10) = ([], inl TooSmall).
Proof. vm_compute. reflexivity. Qed.

Example zero_magic :
  parseLegacyUImage (new_Uint8Array 80) = ([], inl BadMagic).
Proof. vm_compute. reflexivity. Qed.

Example declared_size_too_large :
  parseLegacyUImage
    (bytes_of [0x27; 0x05; 0x19; 0x56] ++ new_Uint8Array 8
     ++ bytes_of [0; 0; 0; 17] ++ new_Uint8Array 48 ++ new_Uint8Array 16)
  = ([], inl PayloadOverrun).
Proof. vm_compute. reflexivity. Qed.

Example declared_size_four :
  outcome
    (parseLegacyUImage
       (bytes_of [0x27; 0x05; 0x19; 0x56] ++ new_Uint8Array 8
        ++ bytes_of [0; 0; 0; 4] ++ new_Uint8Array 48 ++ new_Uint8Array 4))
  = inl MissingWrapper.
Proof. vm_compute. reflexivity. Qed.

(** ** The CRC engine detects a changed byte

    The register is followed through its unsigned value: one step of the
    loop is the map [F] applied to the register xor the byte, and [F] is
    one-to-one because the top byte of a table entry names its index. *)

Lemma fold_left_cons {A B : Type} (f : A -> B -> A) (b : B) (l : list B)
    (a : A) :
  fold_left f (b :: l) a = fold_left f l (f a b).
Proof. reflexivity. Qed.

Module CrcFacts.
Import JS JSFacts.

Lemma lxor_mod_pow2 a b n :
  0 <= n -> (Z.lxor a b) mod 2 ^ n = Z.lxor (a mod 2 ^ n) (b mod 2 ^ n).
Proof.
  intros Hn. rewrite <- !Z.land_ones by assumption.
  apply Z.bits_inj'. intros k _.
  rewrite !Z.lxor_spec, !Z.land_spec, !Z.lxor_spec.
  destruct (Z.testbit a k), (Z.testbit b k), (Z.testbit (Z.ones n) k);
    reflexivity.
Qed.

Lemma lxor_range a b n :
  0 <= n -> 0 <= a < 2 ^ n -> 0 <= b < 2 ^ n -> 0 <= Z.lxor a b < 2 ^ n.
Proof.
  intros Hn Ha Hb.
  rewrite <- (Z.mod_small a (2 ^ n)), <- (Z.mod_small b (2 ^ n)) by lia.
  rewrite <- lxor_mod_pow2 by assumption.
  apply Z.mod_pos_bound. apply Z.pow_pos_nonneg; lia.
Qed.

Lemma lxor_cancel_l t h h' : Z.lxor t h = Z.lxor t h' -> h = h'.
Proof.
  intros E.
  rewrite <- (Z.lxor_0_l h), <- (Z.lxor_0_l h'), <- (Z.lxor_nilpotent t).
  rewrite !Z.lxor_assoc, E. reflexivity.
Qed.

Lemma lxor_cancel_r u u' b : Z.lxor u b = Z.lxor u' b -> u = u'.
Proof.
  rewrite (Z.lxor_comm u), (Z.lxor_comm u'). apply lxor_cancel_l.
Qed.

Lemma mod256_ToUint32 x : ToUint32 x mod 256 = x mod 256.
Proof.
  unfold ToUint32. change (2 ^ 32) with 4294967296.
  Z.to_euclidean_division_equations. lia.
Qed.

(** Facts about the table, checked entry by entry. *)
Lemma below_256 (P : Z -> bool) :
  forallb (fun i => P (Z.of_nat i)) (seq 0 256) = true ->
  forall i, 0 <= i < 256 -> P i = true.
Proof.
  intros H i Hi. rewrite forallb_forall in H.
  rewrite <- (Z2Nat.id i) by lia. apply H.
  apply in_seq. lia.
Qed.

Lemma table_range i : 0 <= table_get i < 2 ^ 32.
Proof.
  unfold table_get.
  destruct (Z_lt_le_dec i 256) as [Hlt|Hge].
  - destruct (Z_lt_le_dec i 0) as [Hneg|Hpos].
    + replace (Z.to_nat i) with 0%nat by lia. vm_compute. split; congruence.
    + pose proof (below_256
        (fun i => (0 <=? nth (Z.to_nat i) CRC32_TABLE 0)
                  && (nth (Z.to_nat i) CRC32_TABLE 0 <? 2 ^ 32))
        ltac:(vm_compute; reflexivity) i ltac:(lia)) as H.
      cbv beta in H. apply andb_true_iff in H. destruct H as [H1 H2].
      apply Z.leb_le in H1. apply Z.ltb_lt in H2. lia.
  - rewrite nth_overflow by (change (length CRC32_TABLE) with 256%nat; lia).
    lia.
Qed.

Lemma index_of_top_spec i :
  0 <= i < 256 ->
  nth (Z.to_nat (table_get i / 2 ^ 24)) index_of_top 0 = i.
Proof.
  intros Hi. apply Z.eqb_eq.
  apply (below_256
           (fun i => nth (Z.to_nat (table_get i / 2 ^ 24)) index_of_top 0
                     =? i)); [vm_compute; reflexivity|exact Hi].
Qed.

Lemma table_top_inj i j :
  0 <= i < 256 -> 0 <= j < 256 ->
  table_get i / 2 ^ 24 = table_get j / 2 ^ 24 -> i = j.
Proof.
  intros Hi Hj E.
  rewrite <- (index_of_top_spec i Hi), <- (index_of_top_spec j Hj), E.
  reflexivity.
Qed.

Lemma crc_F_range x : 0 <= x < 2 ^ 32 -> 0 <= crc_F x < 2 ^ 32.
Proof.
  intros Hx. unfold crc_F. apply lxor_range; [lia|apply table_range|].
  change (2 ^ 32) with 4294967296 in *.
  Z.to_euclidean_division_equations. lia.
Qed.

Lemma crc_F_top x :
  0 <= x < 2 ^ 32 -> crc_F x / 2 ^ 24 = table_get (x mod 256) / 2 ^ 24.
Proof.
  intros Hx. unfold crc_F.
  rewrite <- !Z.shiftr_div_pow2 by lia.
  rewrite Z.shiftr_lxor.
  rewrite (Z.shiftr_div_pow2 (x / 256)) by lia.
  rewrite (Z.div_small (x / 256)).
  - apply Z.lxor_0_r.
  - change (2 ^ 32) with 4294967296 in *. change (2 ^ 24) with 16777216.
    Z.to_euclidean_division_equations. lia.
Qed.

Lemma crc_F_inj x y :
  0 <= x < 2 ^ 32 -> 0 <= y < 2 ^ 32 -> crc_F x = crc_F y -> x = y.
Proof.
  intros Hx Hy E.
  assert (Hlow : x mod 256 = y mod 256).
  { apply table_top_inj; try (apply Z.mod_pos_bound; lia).
    rewrite <- !crc_F_top by assumption. rewrite E. reflexivity. }
  unfold crc_F in E. rewrite Hlow in E. apply lxor_cancel_l in E.
  rewrite (Z.div_mod x 256), (Z.div_mod y 256) by lia.
  rewrite E, Hlow. reflexivity.
Qed.

Lemma crc_u_range u b : 0 <= u < 2 ^ 32 -> 0 <= crc_u u b < 2 ^ 32.
Proof.
  intros Hu. unfold crc_u. apply crc_F_range.
  apply lxor_range; [lia|assumption|].
  pose proof (b2z_range b). lia.
Qed.

Lemma crc_u_inj_state u u' b :
  0 <= u < 2 ^ 32 -> 0 <= u' < 2 ^ 32 -> crc_u u b = crc_u u' b -> u = u'.
Proof.
  intros Hu Hu' E. unfold crc_u in E.
  pose proof (b2z_range b).
  apply crc_F_inj in E; try (apply lxor_range; lia).
  apply lxor_cancel_r in E. exact E.
Qed.

Lemma crc_u_inj_byte u b b' :
  0 <= u < 2 ^ 32 -> crc_u u b = crc_u u b' -> b = b'.
Proof.
  intros Hu E. unfold crc_u in E.
  pose proof (b2z_range b). pose proof (b2z_range b').
  apply crc_F_inj in E; try (apply lxor_range; lia).
  apply lxor_cancel_l in E. apply b2z_inj. exact E.
Qed.

Lemma fold_crc_u_range data u :
  0 <= u < 2 ^ 32 -> 0 <= fold_left crc_u data u < 2 ^ 32.
Proof.
  revert u. induction data as [|b data IH]; intros u Hu.
  - exact Hu.
  - rewrite fold_left_cons. apply IH, crc_u_range, Hu.
Qed.

Lemma fold_crc_u_inj data u u' :
  0 <= u < 2 ^ 32 -> 0 <= u' < 2 ^ 32 ->
  fold_left crc_u data u = fold_left crc_u data u' -> u = u'.
Proof.
  revert u u'. induction data as [|b data IH]; intros u u' Hu Hu' E.
  - exact E.
  - rewrite !fold_left_cons in E.
    apply IH in E; try (apply crc_u_range; assumption).
    apply crc_u_inj_state in E; assumption.
Qed.

(** The loop of [crc32], seen through the unsigned value of the register. *)
Lemma crc32_step_u c b : ToUint32 (crc32_step c b) = crc_u (ToUint32 c) b.
Proof.
  unfold crc32_step, crc_u, crc_F.
  pose proof (b2z_range b) as Hb. pose proof (ToUint32_range c) as Hc.
  rewrite ToUint32_bxor.
  rewrite (ToUint32_small (table_get _)) by apply table_range.
  rewrite U32Facts.band_255.
  rewrite <- (mod256_ToUint32 (bxor c (b2z b))), ToUint32_bxor.
  rewrite (ToUint32_small (b2z b)) by lia.
  f_equal.
  rewrite U32Facts.shru_div by lia.
  assert (Hs : 0 <= ToUint32 c / 2 ^ 8 < 2 ^ 32).
  { change (2 ^ 32) with 4294967296 in *. change (2 ^ 8) with 256.
    Z.to_euclidean_division_equations. lia. }
  rewrite ToUint32_small by exact Hs.
  change (2 ^ 8) with 256.
  rewrite <- !(Z.shiftr_div_pow2 _ 8) by lia.
  rewrite Z.shiftr_lxor.
  rewrite (Z.shiftr_div_pow2 (b2z b)) by lia.
  rewrite (Z.div_small (b2z b)) by (change (2 ^ 8) with 256; lia).
  rewrite Z.lxor_0_r. reflexivity.
Qed.

Lemma fold_crc32_step_u data c :
  ToUint32 (fold_left crc32_step data c)
  = fold_left crc_u data (ToUint32 c).
Proof.
  revert c. induction data as [|b data IH]; intros c.
  - reflexivity.
  - rewrite !fold_left_cons, IH. f_equal. apply crc32_step_u.
Qed.

Lemma crc32_u data seed :
  crc32 data seed
  = Z.lxor (fold_left crc_u data (ToUint32 seed)) 0xffffffff.
Proof.
  unfold crc32. rewrite shru_0, ToUint32_bxor, fold_crc32_step_u.
  rewrite shru_0.
  rewrite (ToUint32_small (ToUint32 seed)) by apply ToUint32_range.
  reflexivity.
Qed.

End CrcFacts.

(** Two byte sequences that differ in one byte have different checksums. *)
Lemma crc32_detects_byte (pre post : Uint8Array) (b b' : byte) (seed : Z) :
  b <> b' ->
  crc32 (pre ++ b :: post) seed <> crc32 (pre ++ b' :: post) seed.
Proof.
  intros Hb E. rewrite !CrcFacts.crc32_u in E.
  apply CrcFacts.lxor_cancel_r in E.
  rewrite !fold_left_app, !fold_left_cons in E.
  pose proof (CrcFacts.fold_crc_u_range pre (JS.ToUint32 seed)
                (JSFacts.ToUint32_range seed)) as Hs.
  apply CrcFacts.fold_crc_u_inj in E;
    try (apply CrcFacts.crc_u_range; exact Hs).
  apply CrcFacts.crc_u_inj_byte in E; [|exact Hs].
  exact (Hb E).
Qed.

(** ** Stores and reads at different offsets *)

Lemma get_store_same (buf : Uint8Array) (off : nat) (v : Z) :
  (off < length buf)%nat -> get (store buf off v) off = v mod 256.
Proof.
  unfold get. revert off.
  induction buf as [|b buf IH]; intros [|off] H; cbn [length] in H;
    try lia; cbn [store nth_error].
  - apply b2z_z2b.
  - apply IH. lia.
Qed.

Lemma get_store_other (buf : Uint8Array) (off i : nat) (v : Z) :
  i <> off -> get (store buf off v) i = get buf i.
Proof.
  unfold get. revert off i.
  induction buf as [|b buf IH]; intros [|off] [|i] H;
    cbn [store nth_error]; try reflexivity; try congruence.
  apply IH. congruence.
Qed.

Lemma skipn_store (buf : Uint8Array) (off k : nat) (v : Z) :
  (off < k)%nat -> skipn k (store buf off v) = skipn k buf.
Proof.
  revert off k.
  induction buf as [|b buf IH]; intros [|off] [|k] H;
    cbn [store skipn]; try reflexivity; try lia.
  apply IH. lia.
Qed.

Lemma firstn_store (buf : Uint8Array) (off k : nat) (v : Z) :
  firstn k (store buf off v) = store (firstn k buf) off v.
Proof.
  revert off k.
  induction buf as [|b buf IH]; intros [|off] [|k];
    cbn [store firstn]; try reflexivity.
  f_equal. apply IH.
Qed.

Lemma store_store_comm (buf : Uint8Array) (p q : nat) (v w : Z) :
  p <> q -> store (store buf p v) q w = store (store buf q w) p v.
Proof.
  revert p q.
  induction buf as [|b buf IH]; intros [|p] [|q] H;
    cbn [store]; try reflexivity; try congruence.
  f_equal. apply IH. congruence.
Qed.

Lemma store_split (buf : Uint8Array) (off : nat) (v : Z) :
  (off < length buf)%nat ->
  exists pre b post,
    buf = pre ++ b :: post /\ length pre = off
    /\ store buf off v = pre ++ z2b v :: post.
Proof.
  revert off.
  induction buf as [|b buf IH]; intros [|off] H; cbn [length] in H; try lia.
  - exists [], b, buf. repeat split.
  - destruct (IH off ltac:(lia)) as (pre & c & post & E & L & S).
    exists (b :: pre), c, post. cbn [store app length].
    rewrite <- E, S, L. repeat split.
Qed.

Lemma get_middle (pre post : Uint8Array) (b : byte) :
  get (pre ++ b :: post) (length pre) = b2z b.
Proof.
  unfold get. rewrite nth_error_app2 by lia.
  rewrite Nat.sub_diag. reflexivity.
Qed.

Lemma get_firstn (buf : Uint8Array) (k i : nat) :
  (i < k)%nat -> get (firstn k buf) i = get buf i.
Proof.
  intros H. unfold get. rewrite nth_error_firstn.
  destruct (Nat.ltb_spec i k); [reflexivity|lia].
Qed.

Lemma get_writeU32BE_other (buf : Uint8Array) (off i : nat) (v : Z) :
  (i < off \/ off + 4 <= i)%nat -> get (writeU32BE buf off v) i = get buf i.
Proof.
  intros H. unfold writeU32BE. rewrite !get_store_other by lia. reflexivity.
Qed.

Lemma readU32BE_store_other (buf : Uint8Array) (off p : nat) (v : Z) :
  (p < off \/ off + 4 <= p)%nat ->
  readU32BE (store buf p v) off = readU32BE buf off.
Proof.
  intros H. unfold readU32BE. rewrite !get_store_other by lia. reflexivity.
Qed.

Lemma writeU32BE_store_comm (buf : Uint8Array) (off p : nat) (v w : Z) :
  (p < off \/ off + 4 <= p)%nat ->
  writeU32BE (store buf p v) off w = store (writeU32BE buf off w) p v.
Proof.
  intros H. unfold writeU32BE.
  rewrite (store_store_comm buf p off) by lia.
  rewrite (store_store_comm _ p (off + 1)) by lia.
  rewrite (store_store_comm _ p (off + 2)) by lia.
  rewrite (store_store_comm _ p (off + 3)) by lia.
  reflexivity.
Qed.

(** ** Success of the parser, both ways *)

Lemma parse_success (buf : Uint8Array) :
  (64 <= length buf)%nat ->
  readU32BE buf 0 = UIMAGE_MAGIC ->
  64 + readU32BE buf 12 <= Z.of_nat (length buf) ->
  8 <= readU32BE buf 12 ->
  parseLegacyUImage buf
  = ((if crcMismatch buf then [CrcMismatch] else []),
     inr (decodeHeader buf, scriptOf buf)).
Proof.
  intros Hl Hm Ho H8. rewrite parse_cases, Hm, Z.eqb_refl. cbn [negb].
  destruct (Nat.ltb_spec (length buf) HEADER_SIZE) as [H|_];
    [unfold HEADER_SIZE in H; lia|].
  destruct (Z.gtb_spec (Z.of_nat HEADER_SIZE + readU32BE buf 12)
                       (Z.of_nat (length buf))) as [H|_];
    [unfold HEADER_SIZE in H; lia|].
  pose proof (payloadOf_length buf ltac:(unfold HEADER_SIZE; lia)) as Hp.
  destruct (Nat.ltb_spec (length (payloadOf buf)) 8) as [H|_]; [lia|].
  reflexivity.
Qed.

Lemma parse_success_inv (buf : Uint8Array) (w : list warning)
    (h : UImageHeader.t) (s : text) :
  parseLegacyUImage buf = (w, inr (h, s)) ->
  (64 <= length buf)%nat
  /\ readU32BE buf 0 = UIMAGE_MAGIC
  /\ 64 + readU32BE buf 12 <= Z.of_nat (length buf)
  /\ 8 <= readU32BE buf 12
  /\ w = (if crcMismatch buf then [CrcMismatch] else [])
  /\ h = decodeHeader buf
  /\ s = scriptOf buf.
Proof.
  rewrite parse_cases. unfold HEADER_SIZE.
  destruct (Nat.ltb_spec (length buf) 64) as [Hl|Hl]; [discriminate|].
  destruct (Z.eqb_spec (readU32BE buf 0) UIMAGE_MAGIC) as [Hm|Hm];
    cbn [negb]; [|discriminate].
  destruct (Z.gtb_spec (Z.of_nat 64 + readU32BE buf 12)
                       (Z.of_nat (length buf))) as [Ho|Ho]; [discriminate|].
  pose proof (payloadOf_length buf ltac:(unfold HEADER_SIZE; lia)) as Hp.
  destruct (Nat.ltb_spec (length (payloadOf buf)) 8) as [H8|H8];
    [discriminate|].
  intros E.
  repeat split; try lia; congruence.
Qed.

(** ** A flipped bit in the stored data checksum *)

Lemma flipped_byte (g bit : Z) :
  0 <= g < 256 -> 0 <= bit < 8 -> (Z.lxor g (2 ^ bit)) mod 256 <> g.
Proof.
  intros Hg Hbit.
  assert (Hp : 0 < 2 ^ bit < 2 ^ 8).
  { split; [apply Z.pow_pos_nonneg; lia|apply Z.pow_lt_mono_r; lia]. }
  pose proof (CrcFacts.lxor_range g (2 ^ bit) 8 ltac:(lia)
                ltac:(change (2 ^ 8) with 256; lia) ltac:(lia)) as Hr.
  change (2 ^ 8) with 256 in Hr.
  rewrite Z.mod_small by lia.
  intros E. rewrite <- (Z.lxor_0_r g) in E at 2.
  apply CrcFacts.lxor_cancel_l in E. lia.
Qed.

Section FlippedBit.

Variable buf : Uint8Array.
Variable off : nat.
Variable bit : Z.
Hypothesis Hoff : (24 <= off <= 27)%nat.
Hypothesis Hbit : 0 <= bit < 8.
Hypothesis Hlen : (64 <= length buf)%nat.

Let buf' : Uint8Array := flipBit buf off bit.

Lemma flip_length : length buf' = length buf.
Proof using. apply store_length. Qed.

Lemma flip_get_other (i : nat) : i <> off -> get buf' i = get buf i.
Proof using. apply get_store_other. Qed.

Lemma flip_get_same : get buf' off <> get buf off.
Proof using Hoff Hbit Hlen.
  unfold buf', flipBit. rewrite get_store_same by lia.
  apply flipped_byte; [apply get_range|exact Hbit].
Qed.

Lemma flip_read_other (k : nat) :
  (k + 4 <= 24 \/ 28 <= k)%nat -> readU32BE buf' k = readU32BE buf k.
Proof using Hoff.
  clear Hlen Hbit. intros H. apply readU32BE_store_other. lia.
Qed.

Lemma flip_read_dcrc : readU32BE buf' 24 <> readU32BE buf 24.
Proof using Hoff Hbit Hlen.
  rewrite !readU32BE_spec.
  pose proof flip_get_same as Hs.
  pose proof (get_range buf' off) as R'. pose proof (get_range buf off) as R.
  change (2 ^ 24) with 16777216. change (2 ^ 16) with 65536.
  change (2 ^ 8) with 256.
  try rewrite (flip_get_other 24) by lia.
  try rewrite (flip_get_other (24 + 1)) by lia.
  try rewrite (flip_get_other (24 + 2)) by lia.
  try rewrite (flip_get_other (24 + 3)) by lia.
  assert (C : (off = 24 \/ off = 24 + 1 \/ off = 24 + 2 \/ off = 24 + 3)%nat)
    by lia.
  pose proof (get_range buf 24). pose proof (get_range buf (24 + 1)).
  pose proof (get_range buf (24 + 2)). pose proof (get_range buf (24 + 3)).
  destruct C as [C|[C|[C|C]]]; rewrite C in *;
    try rewrite (flip_get_other 24) by lia;
    try rewrite (flip_get_other (24 + 1)) by lia;
    try rewrite (flip_get_other (24 + 2)) by lia;
    try rewrite (flip_get_other (24 + 3)) by lia; lia.
Qed.

Lemma flip_payloadOf : payloadOf buf' = payloadOf buf.
Proof using Hoff.
  clear Hlen Hbit. unfold payloadOf, slice. rewrite (flip_read_other 12) by lia.
  unfold buf', flipBit. rewrite skipn_store; [reflexivity|].
  change (Z.to_nat (Z.of_nat HEADER_SIZE)) with 64%nat. lia.
Qed.

Lemma flip_calcDcrc : calcDcrc buf' = calcDcrc buf.
Proof using Hoff.
  unfold calcDcrc. rewrite flip_payloadOf. reflexivity.
Qed.

Lemma flip_scriptOf : scriptOf buf' = scriptOf buf.
Proof using Hoff.
  unfold scriptOf. rewrite flip_payloadOf. reflexivity.
Qed.

Lemma flip_calcHcrc : calcHcrc buf' <> calcHcrc buf.
Proof using Hoff Hbit Hlen.
  unfold calcHcrc, buf', flipBit. rewrite !slice_0.
  change (Z.to_nat (Z.of_nat HEADER_SIZE)) with 64%nat.
  rewrite firstn_store, writeU32BE_store_comm by lia.
  set (hdr := writeU32BE (firstn 64 buf) 4 0).
  assert (Hh : (off < length hdr)%nat).
  { unfold hdr. rewrite writeU32BE_length, length_firstn. lia. }
  destruct (store_split hdr off (Z.lxor (get buf off) (2 ^ bit)) Hh)
    as (pre & b & post & E & L & S).
  rewrite S, E. apply not_eq_sym, crc32_detects_byte.
  intros Eb.
  assert (G : get hdr off = get buf off).
  { unfold hdr. rewrite get_writeU32BE_other by lia.
    apply get_firstn. lia. }
  pose proof (get_middle pre post b) as M. rewrite L in M.
  rewrite E, M, Eb, b2z_z2b in G.
  revert G. apply flipped_byte; [apply get_range|exact Hbit].
Qed.

End FlippedBit.

Lemma decodeHeader_dcrc (buf : Uint8Array) :
  UImageHeader.dcrc (decodeHeader buf) = readU32BE buf 24.
Proof. reflexivity. Qed.

Lemma decodeHeader_hcrc (buf : Uint8Array) :
  UImageHeader.hcrc (decodeHeader buf) = readU32BE buf 4.
Proof. reflexivity. Qed.

Lemma crcMismatch_false (buf : Uint8Array) :
  crcMismatch buf = false ->
  calcDcrc buf = readU32BE buf 24 /\ calcHcrc buf = readU32BE buf 4.
Proof.
  unfold crcMismatch.
  generalize (calcDcrc buf) (readU32BE buf 24) (calcHcrc buf)
             (readU32BE buf 4).
  intros cd sd ch sh H.
  destruct (Z.eqb_spec cd sd); [|discriminate H].
  destruct (Z.eqb_spec ch sh); [|discriminate H].
  split; assumption.
Qed.

Lemma crcMismatch_true (buf : Uint8Array) :
  calcDcrc buf <> readU32BE buf 24 -> crcMismatch buf = true.
Proof.
  unfold crcMismatch.
  generalize (calcDcrc buf) (readU32BE buf 24) (calcHcrc buf)
             (readU32BE buf 4).
  intros cd sd ch sh H.
  destruct (Z.eqb_spec cd sd); [contradiction|reflexivity].
Qed.

Lemma no_warning_inv (b : bool) :
  [] = (if b then [CrcMismatch] else []) -> b = false.
Proof. destruct b; [discriminate|reflexivity]. Qed.

(** C4: a buffer that parses without warning, with one bit of its stored
    dataCrc (the four bytes at offsets 24 to 27) flipped, still parses, to
    the same script text, and raises exactly one warning, although both the
    data checksum and the header checksum then disagree with the stored
    ones. *)
Theorem flipped_dcrc_one_warning (buf : Uint8Array) (off : nat) (bit : Z)
    (h : UImageHeader.t) (scriptText : text) :
  (24 <= off <= 27)%nat ->
  0 <= bit < 8 ->
  parseLegacyUImage buf = ([], inr (h, scriptText)) ->
  exists h',
    parseLegacyUImage (flipBit buf off bit)
    = ([CrcMismatch], inr (h', scriptText))
    /\ UImageHeader.dcrc h' <> UImageHeader.dcrc h
    /\ calcDcrc (flipBit buf off bit) <> UImageHeader.dcrc h'
    /\ calcHcrc (flipBit buf off bit) <> UImageHeader.hcrc h'.
Proof.
  intros Hoff Hbit Hp.
  apply parse_success_inv in Hp.
  destruct Hp as (Hl & Hm & Ho & H8 & Hw & Hh & Hs).
  apply no_warning_inv, crcMismatch_false in Hw.
  destruct Hw as [Hd Hhc].
  pose proof (flip_read_dcrc buf off bit Hoff Hbit Hl) as Fd.
  pose proof (flip_calcHcrc buf off bit Hoff Hbit Hl) as Fh.
  assert (Dd : calcDcrc (flipBit buf off bit)
               <> readU32BE (flipBit buf off bit) 24).
  { rewrite (flip_calcDcrc buf off bit Hoff), Hd.
    apply not_eq_sym. exact Fd. }
  assert (Dh : calcHcrc (flipBit buf off bit)
               <> readU32BE (flipBit buf off bit) 4).
  { rewrite (flip_read_other buf off bit Hoff 4) by lia.
    rewrite <- Hhc. exact Fh. }
  exists (decodeHeader (flipBit buf off bit)).
  split; [|split; [|split]].
  - rewrite parse_success.
    + rewrite (crcMismatch_true _ Dd).
      rewrite Hs, (flip_scriptOf buf off bit Hoff). reflexivity.
    + rewrite flip_length. exact Hl.
    + rewrite (flip_read_other buf off bit Hoff 0) by lia. exact Hm.
    + rewrite (flip_read_other buf off bit Hoff 12), flip_length by lia.
      exact Ho.
    + rewrite (flip_read_other buf off bit Hoff 12) by lia. exact H8.
  - rewrite Hh, !decodeHeader_dcrc. exact Fd.
  - rewrite decodeHeader_dcrc. exact Dd.
  - rewrite decodeHeader_hcrc. exact Dh.
Qed.

(** ** UTF-8: decoding what was encoded *)

Lemma utf8_step_init (b : Z) : utf8_step utf8_init b = utf8_lead b.
Proof. reflexivity. Qed.

Lemma utf8_step_cont (cp seen needed lo hi b : Z) :
  needed <> 0 -> lo <= b <= hi ->
  utf8_step (mk_utf8_state cp seen needed lo hi) b =
    if seen + 1 =? needed then ([cp * 64 + (b - 0x80)], utf8_init)
    else ([], mk_utf8_state (cp * 64 + (b - 0x80)) (seen + 1) needed
                0x80 0xBF).
Proof.
  intros Hn Hb. unfold utf8_step. cbn [u_needed u_lower u_upper u_cp u_seen].
  destruct (Z.eqb_spec needed 0); [contradiction|].
  destruct (Z.ltb_spec b lo); [lia|].
  destruct (Z.ltb_spec hi b); [lia|].
  reflexivity.
Qed.

Lemma utf8_step_last (cp seen needed lo hi b : Z) :
  needed <> 0 -> lo <= b <= hi -> seen + 1 = needed ->
  utf8_step (mk_utf8_state cp seen needed lo hi) b
  = ([cp * 64 + (b - 0x80)], utf8_init).
Proof.
  intros Hn Hb Hl. rewrite utf8_step_cont by assumption.
  destruct (Z.eqb_spec (seen + 1) needed); [reflexivity|contradiction].
Qed.

Lemma utf8_step_more (cp seen needed lo hi b : Z) :
  needed <> 0 -> lo <= b <= hi -> seen + 1 <> needed ->
  utf8_step (mk_utf8_state cp seen needed lo hi) b
  = ([], mk_utf8_state (cp * 64 + (b - 0x80)) (seen + 1) needed 0x80 0xBF).
Proof.
  intros Hn Hb Hl. rewrite utf8_step_cont by assumption.
  destruct (Z.eqb_spec (seen + 1) needed); [contradiction|reflexivity].
Qed.

Lemma utf8_run_cons (st : utf8_state) (b : byte) (rest : Uint8Array) :
  utf8_run st (b :: rest) =
    fst (utf8_step st (b2z b)) ++ utf8_run (snd (utf8_step st (b2z b))) rest.
Proof. cbn [utf8_run]. destruct (utf8_step st (b2z b)). reflexivity. Qed.

Lemma b2z_z2b_small (x : Z) : 0 <= x < 256 -> b2z (z2b x) = x.
Proof. intros H. rewrite b2z_z2b. apply Z.mod_small. exact H. Qed.

Ltac ztest :=
  repeat match goal with
    | |- context [?a <=? ?b] => destruct (Z.leb_spec a b); try lia
    | |- context [?a <? ?b] => destruct (Z.ltb_spec a b); try lia
    | |- context [?a =? ?b] => destruct (Z.eqb_spec a b); try lia
    end.

Lemma scalar_bounds (cp : Z) :
  is_scalar cp = true ->
  0 <= cp <= 0x10FFFF /\ (cp < 0xD800 \/ 0xDFFF < cp).
Proof.
  unfold is_scalar, is_surrogate. intros H.
  apply andb_true_iff in H. destruct H as [H Hs].
  apply andb_true_iff in H. destruct H as [H0 H1].
  apply Z.leb_le in H0. apply Z.leb_le in H1.
  apply negb_true_iff, andb_false_iff in Hs.
  destruct Hs as [Hs|Hs]; apply Z.leb_gt in Hs; lia.
Qed.

Lemma utf8_decode_encode_cp (cp : Z) (rest : Uint8Array) :
  is_scalar cp = true ->
  utf8_run utf8_init (utf8_encode_cp cp ++ rest)
  = cp :: utf8_run utf8_init rest.
Proof.
  intros Hs. apply scalar_bounds in Hs. destruct Hs as [Hr Hsur].
  unfold utf8_encode_cp.
  destruct (Z.ltb_spec cp 0x80) as [H1|H1].
  { (* one byte *)
    cbn [app]. rewrite utf8_run_cons, b2z_z2b_small, utf8_step_init by lia.
    unfold utf8_lead. ztest. reflexivity. }
  destruct (Z.ltb_spec cp 0x800) as [H2|H2].
  { (* two bytes *)
    pose proof (Z.div_mod cp 64 ltac:(lia)) as E.
    pose proof (Z.mod_pos_bound cp 64 ltac:(lia)) as B.
    revert E B. generalize (cp / 64) (cp mod 64). intros q r E B.
    cbn [app]. rewrite utf8_run_cons, b2z_z2b_small, utf8_step_init by lia.
    unfold utf8_lead. ztest. cbn [fst snd app andb orb negb].
    rewrite utf8_run_cons, b2z_z2b_small, utf8_step_last by lia.
    cbn [fst snd app]. f_equal. lia. }
  destruct (Z.ltb_spec cp 0x10000) as [H3|H3].
  { (* three bytes *)
    change 4096 with (64 * 64). rewrite <- Z.div_div by lia.
    pose proof (Z.div_mod cp 64 ltac:(lia)) as E1.
    pose proof (Z.mod_pos_bound cp 64 ltac:(lia)) as B1.
    revert E1 B1. generalize (cp mod 64). intros r1.
    pose proof (Z.div_mod (cp / 64) 64 ltac:(lia)) as E2.
    pose proof (Z.mod_pos_bound (cp / 64) 64 ltac:(lia)) as B2.
    revert E2 B2. generalize (cp / 64 / 64) ((cp / 64) mod 64).
    generalize (cp / 64). intros q1 q2 r2 E2 B2 E1 B1.
    cbn [app]. rewrite utf8_run_cons, b2z_z2b_small, utf8_step_init by lia.
    unfold utf8_lead. ztest; cbn [fst snd app andb orb negb];
      rewrite utf8_run_cons, b2z_z2b_small, utf8_step_more by lia;
      cbn [fst snd app];
      rewrite utf8_run_cons, b2z_z2b_small, utf8_step_last by lia;
      cbn [fst snd app]; f_equal; lia. }
  { (* four bytes *)
    change 262144 with (64 * 64 * 64). change 4096 with (64 * 64).
    rewrite <- !Z.div_div by lia.
    pose proof (Z.div_mod cp 64 ltac:(lia)) as E1.
    pose proof (Z.mod_pos_bound cp 64 ltac:(lia)) as B1.
    revert E1 B1. generalize (cp mod 64). intros r1.
    pose proof (Z.div_mod (cp / 64) 64 ltac:(lia)) as E2.
    pose proof (Z.mod_pos_bound (cp / 64) 64 ltac:(lia)) as B2.
    revert E2 B2. generalize ((cp / 64) mod 64). intros r2.
    pose proof (Z.div_mod (cp / 64 / 64) 64 ltac:(lia)) as E3.
    pose proof (Z.mod_pos_bound (cp / 64 / 64) 64 ltac:(lia)) as B3.
    revert E3 B3.
    generalize (cp / 64 / 64 / 64) ((cp / 64 / 64) mod 64).
    generalize (cp / 64 / 64). generalize (cp / 64).
    intros q1 q2 q3 r3 E3 B3 E2 B2 E1 B1.
    cbn [app]. rewrite utf8_run_cons, b2z_z2b_small, utf8_step_init by lia.
    unfold utf8_lead. ztest; cbn [fst snd app andb orb negb];
      rewrite utf8_run_cons, b2z_z2b_small, utf8_step_more by lia;
      cbn [fst snd app];
      rewrite utf8_run_cons, b2z_z2b_small, utf8_step_more by lia;
      cbn [fst snd app];
      rewrite utf8_run_cons, b2z_z2b_small, utf8_step_last by lia;
      cbn [fst snd app]; f_equal; lia. }
Qed.

Lemma TextEncoder_encode_cons (cp : Z) (s : text) :
  TextEncoder_encode (cp :: s)
  = utf8_encode_cp (if is_surrogate cp then 0xFFFD else cp)
    ++ TextEncoder_encode s.
Proof. reflexivity. Qed.

Lemma scalar_not_surrogate (cp : Z) :
  is_scalar cp = true -> is_surrogate cp = false.
Proof.
  unfold is_scalar. intros H. apply andb_true_iff in H.
  destruct H as [_ H]. apply negb_true_iff in H. exact H.
Qed.

Lemma utf8_run_encode (s : text) :
  well_formed s = true -> utf8_run utf8_init (TextEncoder_encode s) = s.
Proof.
  unfold well_formed. induction s as [|cp s IH]; intros H.
  - reflexivity.
  - cbn [forallb] in H. apply andb_true_iff in H. destruct H as [Hc Hs].
    rewrite TextEncoder_encode_cons, (scalar_not_surrogate cp Hc).
    rewrite utf8_decode_encode_cp by exact Hc.
    rewrite IH by exact Hs. reflexivity.
Qed.

(** Decoding the encoding of a well-formed text gives the text back, less
    a leading byte order mark. *)
Lemma decode_encode (s : text) :
  well_formed s = true ->
  TextDecoder_utf8_decode (TextEncoder_encode s) = strip_bom s.
Proof.
  intros H. unfold TextDecoder_utf8_decode. rewrite utf8_run_encode by exact H.
  reflexivity.
Qed.

Lemma strip_bom_none (s : text) : starts_with_bom s = false -> strip_bom s = s.
Proof.
  destruct s as [|cp s]; [reflexivity|]. cbn [starts_with_bom strip_bom].
  intros H. rewrite H. reflexivity.
Qed.

(** ** The name field *)

Lemma indexOf_range (bytes : Uint8Array) (v : Z) :
  indexOf bytes v = -1 \/ 0 <= indexOf bytes v < Z.of_nat (length bytes).
Proof.
  induction bytes as [|b rest IH]; [left; reflexivity|].
  cbn [indexOf length].
  destruct (Z.eqb_spec (b2z b) v); [right; lia|].
  destruct (Z.ltb_spec (indexOf rest v) 0); [left; reflexivity|].
  right. lia.
Qed.

Lemma slice_to_nul (bytes : Uint8Array) :
  slice bytes 0
    (if 0 <=? indexOf bytes 0 then indexOf bytes 0
     else Z.of_nat (length bytes))
  = until_nul bytes.
Proof.
  rewrite slice_0. induction bytes as [|b rest IH]; [reflexivity|].
  cbn [indexOf until_nul length].
  destruct (Z.eqb_spec (b2z b) 0) as [E|E]; [reflexivity|].
  destruct (indexOf_range rest 0) as [R|R].
  - rewrite R in *. cbn [Z.ltb Z.leb Z.compare] in *.
    rewrite Nat2Z.id in *. cbn [firstn]. rewrite IH. reflexivity.
  - destruct (Z.ltb_spec (indexOf rest 0) 0); [lia|].
    destruct (Z.leb_spec 0 (indexOf rest 0 + 1)); [|lia].
    destruct (Z.leb_spec 0 (indexOf rest 0)); [|lia].
    replace (Z.to_nat (indexOf rest 0 + 1))
      with (S (Z.to_nat (indexOf rest 0))) by lia.
    cbn [firstn]. rewrite IH. reflexivity.
Qed.

Lemma decodeName_until_nul (bytes : Uint8Array) :
  decodeName bytes = trim (TextDecoder_ascii_decode (until_nul bytes)).
Proof. unfold decodeName. rewrite slice_to_nul. reflexivity. Qed.

Lemma trim_start_length (s : text) :
  (length (trim_start s) <= length s)%nat.
Proof.
  induction s as [|c s IH]; [apply Nat.le_refl|].
  cbn [trim_start]. destruct (is_js_space c); cbn [length]; lia.
Qed.

Lemma trim_length (s : text) : (length (trim s) <= length s)%nat.
Proof.
  unfold trim. rewrite length_rev.
  pose proof (trim_start_length (rev (trim_start s))) as H1.
  pose proof (trim_start_length s) as H2.
  rewrite length_rev in H1. lia.
Qed.

Lemma until_nul_length (bytes : Uint8Array) :
  (length (until_nul bytes) <= length bytes)%nat.
Proof.
  induction bytes as [|b rest IH]; [apply Nat.le_refl|].
  cbn [until_nul]. destruct (b2z b =? 0); cbn [length]; lia.
Qed.

(** A decoded name has at most as many characters as the field has bytes. *)
Lemma decodeName_length (bytes : Uint8Array) :
  (length (decodeName bytes) <= length bytes)%nat.
Proof.
  rewrite decodeName_until_nul.
  pose proof (trim_length (TextDecoder_ascii_decode (until_nul bytes))) as H.
  unfold TextDecoder_ascii_decode in *. rewrite length_map in H.
  pose proof (until_nul_length bytes). lia.
Qed.

(** ** Header metadata that the format can hold *)

Lemma is_u32_bounds (v : Z) : is_u32 v = true -> 0 <= v < 2 ^ 32.
Proof.
  unfold is_u32. intros H. apply andb_true_iff in H. destruct H as [A B].
  apply Z.leb_le in A. apply Z.ltb_lt in B. lia.
Qed.

Lemma is_u8_bounds (v : Z) : is_u8 v = true -> 0 <= v < 256.
Proof.
  unfold is_u8. intros H. apply andb_true_iff in H. destruct H as [A B].
  apply Z.leb_le in A. apply Z.ltb_lt in B. lia.
Qed.

Lemma is_name_char_bounds (c : Z) : is_name_char c = true -> 1 <= c <= 0x7F.
Proof.
  unfold is_name_char. intros H. apply andb_true_iff in H.
  destruct H as [A B]. apply Z.leb_le in A. apply Z.leb_le in B. lia.
Qed.

Lemma encode_ascii (n : text) :
  ascii_name n = true -> TextEncoder_encode n = map z2b n.
Proof.
  unfold ascii_name. induction n as [|c n IH]; intros H; [reflexivity|].
  cbn [forallb] in H. apply andb_true_iff in H. destruct H as [Hc Hn].
  apply is_name_char_bounds in Hc.
  rewrite TextEncoder_encode_cons, IH by exact Hn.
  unfold is_surrogate, utf8_encode_cp.
  destruct (Z.leb_spec 0xD800 c); [lia|]. cbn [andb].
  destruct (Z.ltb_spec c 0x80); [|lia]. reflexivity.
Qed.

Lemma until_nul_ascii (n : text) (k : nat) :
  ascii_name n = true -> until_nul (map z2b n ++ repeat x00 k) = map z2b n.
Proof.
  unfold ascii_name. induction n as [|c n IH]; intros H.
  - destruct k; reflexivity.
  - cbn [forallb] in H. apply andb_true_iff in H. destruct H as [Hc Hn].
    apply is_name_char_bounds in Hc.
    cbn [map app until_nul]. rewrite b2z_z2b_small by lia.
    destruct (Z.eqb_spec c 0); [lia|]. rewrite IH by exact Hn. reflexivity.
Qed.

Lemma ascii_decode_ascii (n : text) :
  ascii_name n = true -> TextDecoder_ascii_decode (map z2b n) = n.
Proof.
  unfold ascii_name, TextDecoder_ascii_decode.
  induction n as [|c n IH]; intros H; [reflexivity|].
  cbn [forallb] in H. apply andb_true_iff in H. destruct H as [Hc Hn].
  apply is_name_char_bounds in Hc.
  cbn [map]. rewrite b2z_z2b_small, IH by (assumption || lia).
  unfold windows1252_cp. destruct (Z.leb_spec 0x80 c); [lia|]. reflexivity.
Qed.

Lemma name_field_short (n : text) :
  ascii_name n = true -> (length n <= 32)%nat ->
  name_field n = map z2b n ++ repeat x00 (32 - length n).
Proof.
  intros Ha Hl. unfold name_field. rewrite encode_ascii by exact Ha.
  rewrite slice_0. change (Z.to_nat 32) with 32%nat.
  rewrite firstn_all2 by (rewrite length_map; lia).
  rewrite length_map. reflexivity.
Qed.

Lemma name_field_long (n : text) :
  (32 < length (TextEncoder_encode n))%nat ->
  name_field n = firstn 32 (TextEncoder_encode n).
Proof.
  intros Hl. unfold name_field. rewrite slice_0.
  change (Z.to_nat 32) with 32%nat.
  rewrite length_firstn, Nat.min_l by lia.
  cbn [Nat.sub repeat]. apply app_nil_r.
Qed.

Lemma text_eqb_eq (a b : text) : text_eqb a b = true -> a = b.
Proof.
  unfold text_eqb. destruct (list_eq_dec Z.eq_dec a b); [auto|discriminate].
Qed.

(** A valid name survives the name field. *)
Lemma decodeName_name_field (n : text) :
  valid_name n = true -> decodeName (name_field n) = n.
Proof.
  unfold valid_name. intros H.
  apply andb_true_iff in H. destruct H as [H Ht].
  apply andb_true_iff in H. destruct H as [Hl Ha].
  apply Nat.leb_le in Hl. apply text_eqb_eq in Ht.
  rewrite decodeName_until_nul, name_field_short by assumption.
  rewrite until_nul_ascii, ascii_decode_ascii by assumption.
  exact Ht.
Qed.

(** The header decoded from a built image. *)
Section DecodedImage.

Variable args : BuildArgs.
Variable now : Z.

Let h : UImageHeader.t := decodeHeader (image args now).

Lemma decoded_loadAddr :
  UImageHeader.loadAddr h = JS.ToUint32 (built_loadAddr args).
Proof.
  unfold h, decodeHeader, image, image_header, image_header_with.
  cbn [UImageHeader.loadAddr]. apply read_loadAddr.
Qed.

Lemma decoded_entryPoint :
  UImageHeader.entryPoint h = JS.ToUint32 (built_entryPoint args).
Proof.
  unfold h, decodeHeader, image, image_header, image_header_with.
  cbn [UImageHeader.entryPoint]. apply read_entryPoint.
Qed.

Lemma decoded_timestamp :
  UImageHeader.timestamp h = JS.ToUint32 (now / 1000).
Proof.
  unfold h, decodeHeader, image, image_header, image_header_with.
  cbn [UImageHeader.timestamp]. apply read_timestamp.
Qed.

Lemma decoded_os : UImageHeader.os h = built_os args mod 256.
Proof.
  unfold h, decodeHeader, image, image_header, image_header_with.
  cbn [UImageHeader.os]. apply read_os.
Qed.

Lemma decoded_arch : UImageHeader.arch h = built_arch args mod 256.
Proof.
  unfold h, decodeHeader, image, image_header, image_header_with.
  cbn [UImageHeader.arch]. apply read_arch.
Qed.

Lemma decoded_type : UImageHeader.type h = built_type args mod 256.
Proof.
  unfold h, decodeHeader, image, image_header, image_header_with.
  cbn [UImageHeader.type]. apply read_type.
Qed.

Lemma decoded_comp : UImageHeader.comp h = built_comp args mod 256.
Proof.
  unfold h, decodeHeader, image, image_header, image_header_with.
  cbn [UImageHeader.comp]. apply read_comp.
Qed.

Lemma decoded_name :
  UImageHeader.name h = decodeName (name_field (built_name args)).
Proof.
  unfold h, decodeHeader, image, image_header, image_header_with.
  cbn [UImageHeader.name]. rewrite read_name_field. reflexivity.
Qed.

End DecodedImage.

(** ** Round trip *)

(** C2, as the code has it: for a well-formed script text that does not
    begin with U+FEFF, whose payload fits the 32-bit size field, and for
    valid header metadata, parsing the built container succeeds without
    warning, returns the script text and returns the load address, entry
    point, name, OS, architecture, image type and compression of the
    metadata. *)
Theorem build_parse_roundtrip (scriptText : text) (H : UImageHeader.t)
    (dName : text) (dLoadAddr dEntryPoint now : Z) :
  well_formed scriptText = true ->
  starts_with_bom scriptText = false ->
  8 + Z.of_nat (length (TextEncoder_encode scriptText)) < 2 ^ 32 ->
  valid_header H = true ->
  exists out h',
    buildLegacyScriptImage
      (mk_args scriptText (Some (PartialHeader.of_header H))
               dName dLoadAddr dEntryPoint) now = Some out
    /\ parseLegacyUImage out = ([], inr (h', scriptText))
    /\ UImageHeader.loadAddr h' = UImageHeader.loadAddr H
    /\ UImageHeader.entryPoint h' = UImageHeader.entryPoint H
    /\ UImageHeader.name h' = UImageHeader.name H
    /\ UImageHeader.os h' = UImageHeader.os H
    /\ UImageHeader.arch h' = UImageHeader.arch H
    /\ UImageHeader.type h' = UImageHeader.type H
    /\ UImageHeader.comp h' = UImageHeader.comp H.
Proof.
  intros Hwf Hbom Hfit Hv.
  set (args := mk_args scriptText (Some (PartialHeader.of_header H))
                       dName dLoadAddr dEntryPoint).
  unfold valid_header in Hv.
  do 6 (apply andb_true_iff in Hv; destruct Hv as [Hv ?]).
  exists (image args now), (decodeHeader (image args now)).
  split; [apply build_eq|]. split.
  { rewrite parse_image by exact Hfit.
    change (script args) with scriptText.
    rewrite decode_encode, strip_bom_none by assumption. reflexivity. }
  rewrite decoded_loadAddr, decoded_entryPoint, decoded_name, decoded_os,
    decoded_arch, decoded_type, decoded_comp.
  change (built_loadAddr args) with (UImageHeader.loadAddr H).
  change (built_entryPoint args) with (UImageHeader.entryPoint H).
  change (built_name args) with (UImageHeader.name H).
  change (built_os args) with (UImageHeader.os H).
  change (built_arch args) with (UImageHeader.arch H).
  change (built_type args) with (UImageHeader.type H).
  change (built_comp args) with (UImageHeader.comp H).
  repeat split;
    try (apply JSFacts.ToUint32_small, is_u32_bounds; assumption);
    try (apply Z.mod_small, is_u8_bounds; assumption).
  apply decodeName_name_field. assumption.
Qed.

(** C2 fails as stated: a script text that begins with U+FEFF comes back
    without it, because the decoder drops a leading byte order mark. *)
Lemma bom_script_not_restored :
  well_formed [0xFEFF; 0x61] = true
  /\ valid_header sample_header = true
  /\ exists out h',
       buildLegacyScriptImage
         (mk_args [0xFEFF; 0x61] (Some (PartialHeader.of_header sample_header))
                  (str "boot script") 0 0) 0 = Some out
       /\ parseLegacyUImage out = ([], inr (h', [0x61]))
       /\ [0x61] <> [0xFEFF; 0x61].
Proof.
  split; [vm_compute; reflexivity|]. split; [vm_compute; reflexivity|].
  eexists. eexists. split; [vm_compute; reflexivity|].
  split; [vm_compute; reflexivity|discriminate].
Qed.

(** ** Names longer than the name field *)

Lemma ascii_name_firstn (k : nat) (n : text) :
  ascii_name n = true -> ascii_name (firstn k n) = true.
Proof.
  unfold ascii_name. revert k.
  induction n as [|c n IH]; intros [|k] H; try reflexivity.
  cbn [firstn forallb] in *. apply andb_true_iff in H.
  destruct H as [Hc Hn]. rewrite Hc, IH by exact Hn. reflexivity.
Qed.

(** C8, as the code has it: when the encoding of the name of the previous
    header is longer than 32 bytes, the name field holds exactly its first
    32 bytes; the parser decodes them up to the first NUL, one windows-1252
    character per byte, and trims white space at both ends.  The result has
    at most 32 characters: it is not the original name when that has more
    than 32 characters, and for an ASCII name without NUL it is the first
    32 characters, trimmed. *)
Theorem long_name_truncated (args : BuildArgs) (p : PartialHeader.t)
    (name : text) (now : Z) :
  baseHeader args = Some p ->
  PartialHeader.name p = Some name ->
  (32 < length (TextEncoder_encode name))%nat ->
  exists out,
    buildLegacyScriptImage args now = Some out
    /\ slice out 32 64 = firstn 32 (TextEncoder_encode name)
    /\ UImageHeader.name (decodeHeader out)
       = trim (TextDecoder_ascii_decode
                 (until_nul (firstn 32 (TextEncoder_encode name))))
    /\ ((32 < length name)%nat ->
        UImageHeader.name (decodeHeader out) <> name)
    /\ (ascii_name name = true ->
        UImageHeader.name (decodeHeader out) = trim (firstn 32 name)).
Proof.
  intros Hb Hn Hlong.
  assert (Hname : built_name args = name)
    by (unfold built_name; rewrite Hb; cbn [opt_chain]; rewrite Hn;
        reflexivity).
  assert (Hfield : slice (image args now) 32 64
                   = firstn 32 (TextEncoder_encode name)).
  { unfold image, image_header, image_header_with.
    rewrite read_name_field, Hname. apply name_field_long. exact Hlong. }
  assert (Hdec : UImageHeader.name (decodeHeader (image args now))
                 = decodeName (firstn 32 (TextEncoder_encode name))).
  { rewrite decoded_name, Hname, name_field_long by exact Hlong.
    reflexivity. }
  exists (image args now). split; [apply build_eq|].
  split; [exact Hfield|]. split; [|split].
  - rewrite Hdec. apply decodeName_until_nul.
  - intros Hchars E.
    pose proof (decodeName_length (firstn 32 (TextEncoder_encode name)))
      as Hlen.
    rewrite <- Hdec, E, length_firstn in Hlen. lia.
  - intros Ha. rewrite Hdec, decodeName_until_nul.
    rewrite encode_ascii by exact Ha.
    rewrite firstn_map.
    rewrite <- (app_nil_r (map z2b (firstn 32 name))).
    change (@nil byte) with (repeat x00 0).
    rewrite until_nul_ascii, ascii_decode_ascii
      by (apply ascii_name_firstn; exact Ha).
    reflexivity.
Qed.

(** C8 fails as stated.  The encoding of [self_decoding_name] has 73 bytes,
    and the truncated field decodes to the original name.  For
    [spaced_name] the truncated value keeps its trailing space after the
    cut at the first NUL, and the parser returns it without: it also trims
    white space. *)
Lemma long_name_counterexample :
  (length (TextEncoder_encode self_decoding_name) = 73%nat
   /\ exists out,
        buildLegacyScriptImage
          (mk_args (str "x") (Some (header_named self_decoding_name))
                   (str "boot script") 0 0) 0 = Some out
        /\ UImageHeader.name (decodeHeader out) = self_decoding_name)
  /\ (length (TextEncoder_encode spaced_name) = 33%nat
      /\ exists out,
           buildLegacyScriptImage
             (mk_args (str "x") (Some (header_named spaced_name))
                      (str "boot script") 0 0) 0 = Some out
           /\ TextDecoder_ascii_decode
                (until_nul (firstn 32 (TextEncoder_encode spaced_name)))
              = str "aaaaaaaaaaaaaaaaaaaaaaaaaaaaaaa "
           /\ UImageHeader.name (decodeHeader out)
              = str "aaaaaaaaaaaaaaaaaaaaaaaaaaaaaaa").
Proof.
  split; (split; [vm_compute; reflexivity|]); eexists;
    (split; [vm_compute; reflexivity|]).
  - vm_compute. reflexivity.
  - split; vm_compute; reflexivity.
Qed.

(** ** The header checksum follows the timestamp *)

Module CrcWord.
Import CrcFacts.

Lemma le_word_range (l : Uint8Array) :
  0 <= le_word l < 2 ^ (8 * Z.of_nat (length l)).
Proof.
  induction l as [|b l IH]; [cbn; lia|].
  cbn [le_word fold_right length]. fold (le_word l).
  pose proof (b2z_range b).
  replace (8 * Z.of_nat (S (length l))) with (8 + 8 * Z.of_nat (length l))
    by lia.
  rewrite Z.pow_add_r by lia. change (2 ^ 8) with 256. nia.
Qed.

Lemma le_word_inj (l1 l2 : Uint8Array) :
  length l1 = length l2 -> le_word l1 = le_word l2 -> l1 = l2.
Proof.
  revert l2. induction l1 as [|a l1 IH]; intros [|b l2] Hl E;
    try discriminate; [reflexivity|].
  cbn [le_word fold_right] in E. fold (le_word l1) (le_word l2) in E.
  pose proof (b2z_range a). pose proof (b2z_range b).
  assert (b2z a = b2z b /\ le_word l1 = le_word l2) as [Eb Ew] by lia.
  apply b2z_inj in Eb. subst b. f_equal. apply IH; [|exact Ew].
  cbn [length] in Hl. lia.
Qed.

Lemma lxor_disjoint hi lo :
  0 <= lo < 256 -> Z.lxor lo (hi * 256) = lo + 256 * hi.
Proof.
  intros Hlo.
  assert (E : Z.land lo (hi * 2 ^ 8) = 0).
  { apply Z.bits_inj'. intros n Hn. rewrite Z.land_spec, Z.bits_0.
    destruct (Z.lt_ge_cases n 8).
    - rewrite Z.mul_pow2_bits_low by lia. apply andb_false_r.
    - rewrite <- (Z.mod_small lo (2 ^ 8)) by (change (2 ^ 8) with 256; lia).
      rewrite Z.mod_pow2_bits_high by lia. reflexivity. }
  change (2 ^ 8) with 256 in E.
  rewrite Z.lxor_lor by exact E.
  pose proof (Z.add_lor_land lo (hi * 256)) as A. rewrite E in A. lia.
Qed.

(** Xor-ing into the bits above the low byte commutes with [crc_F]. *)
Lemma crc_F_shift x w : crc_F (Z.lxor x (w * 256)) = Z.lxor (crc_F x) w.
Proof.
  unfold crc_F.
  change 256 with (2 ^ 8) at 2. rewrite lxor_mod_pow2 by lia.
  change (2 ^ 8) with 256. rewrite Z.mod_mul, Z.lxor_0_r by lia.
  rewrite <- !(Z.shiftr_div_pow2 _ 8) by lia.
  rewrite Z.shiftr_lxor.
  rewrite (Z.shiftr_div_pow2 (w * 256)) by lia.
  change (2 ^ 8) with 256. rewrite Z.div_mul by lia.
  symmetry. apply Z.lxor_assoc.
Qed.

Lemma fold_crc_u_word (l : Uint8Array) (u : Z) :
  fold_left crc_u l u = Nat.iter (length l) crc_F (Z.lxor u (le_word l)).
Proof.
  revert u. induction l as [|b l IH]; intros u.
  - cbn. rewrite Z.lxor_0_r. reflexivity.
  - rewrite fold_left_cons, IH. cbn [length].
    rewrite Nat.iter_succ_r. f_equal.
    cbn [le_word fold_right]. fold (le_word l).
    unfold crc_u. rewrite <- crc_F_shift. f_equal.
    rewrite Z.lxor_assoc. f_equal.
    apply lxor_disjoint, b2z_range.
Qed.

Lemma iter_crc_F_range (k : nat) x :
  0 <= x < 2 ^ 32 -> 0 <= Nat.iter k crc_F x < 2 ^ 32.
Proof.
  intros Hx. induction k as [|k IH]; [exact Hx|].
  cbn [Nat.iter]. apply crc_F_range. exact IH.
Qed.

Lemma iter_crc_F_inj (k : nat) x y :
  0 <= x < 2 ^ 32 -> 0 <= y < 2 ^ 32 ->
  Nat.iter k crc_F x = Nat.iter k crc_F y -> x = y.
Proof.
  intros Hx Hy. induction k as [|k IH]; intros E; [exact E|].
  cbn [Nat.iter] in E.
  apply crc_F_inj in E; try (apply iter_crc_F_range; assumption).
  apply IH. exact E.
Qed.

(** From one register, two different sequences of the same length, at most
    four bytes, lead to different registers. *)
Lemma fold_crc_u_inj_word (l1 l2 : Uint8Array) (u : Z) :
  0 <= u < 2 ^ 32 ->
  length l1 = length l2 -> (length l1 <= 4)%nat ->
  fold_left crc_u l1 u = fold_left crc_u l2 u -> l1 = l2.
Proof.
  intros Hu Hl H4 E. rewrite !fold_crc_u_word, <- Hl in E.
  pose proof (le_word_range l1) as R1. pose proof (le_word_range l2) as R2.
  rewrite <- Hl in R2.
  assert (P : 2 ^ (8 * Z.of_nat (length l1)) <= 2 ^ 32)
    by (apply Z.pow_le_mono_r; lia).
  apply iter_crc_F_inj in E; try (apply lxor_range; lia).
  apply lxor_cancel_l in E. apply le_word_inj; assumption.
Qed.

End CrcWord.

(** Two byte sequences that differ within four consecutive bytes have
    different checksums. *)
Lemma crc32_detects_word (pre post w1 w2 : Uint8Array) (seed : Z) :
  length w1 = length w2 -> (length w1 <= 4)%nat -> w1 <> w2 ->
  crc32 (pre ++ w1 ++ post) seed <> crc32 (pre ++ w2 ++ post) seed.
Proof.
  intros Hl H4 Hw E. rewrite !CrcFacts.crc32_u in E.
  apply CrcFacts.lxor_cancel_r in E.
  rewrite !fold_left_app in E.
  pose proof (CrcFacts.fold_crc_u_range pre (JS.ToUint32 seed)
                (JSFacts.ToUint32_range seed)) as Hs.
  apply CrcFacts.fold_crc_u_inj in E;
    try (apply CrcFacts.fold_crc_u_range; exact Hs).
  apply CrcWord.fold_crc_u_inj_word in E; try assumption.
  exact (Hw E).
Qed.

Lemma u32be_inj (v w : Z) : u32be v = u32be w -> JS.ToUint32 v = JS.ToUint32 w.
Proof.
  intros E. rewrite <- (readU32BE_u32be v []), <- (readU32BE_u32be w []), E.
  reflexivity.
Qed.

(** Built at two clock values whose seconds differ (as 32-bit numbers), the
    same input gets two different headerCrc fields. *)
Lemma rebuild_headerCrc_differs (args : BuildArgs) (now1 now2 : Z) :
  JS.ToUint32 (now1 / 1000) <> JS.ToUint32 (now2 / 1000) ->
  readU32BE (image args now1) 4 <> readU32BE (image args now2) 4.
Proof.
  intros Hts. unfold image, image_header.
  unfold image_header_with at 1 3.
  rewrite !read_hcrc, !ToUint32_crc32.
  unfold image_header_with.
  rewrite <- (app_nil_r (header_layout _ (now1 / 1000) _ _ _ _ _ _ _ _ _)).
  rewrite <- (app_nil_r (header_layout _ (now2 / 1000) _ _ _ _ _ _ _ _ _)).
  rewrite !header_explicit.
  rewrite !(app_assoc (u32be UIMAGE_MAGIC) (u32be 0)).
  apply crc32_detects_word; [reflexivity|cbn; lia|].
  intros E. apply u32be_inj in E. exact (Hts E).
Qed.

(** ** Rebuilding with another clock value *)

Lemma image_clock_split (args : BuildArgs) :
  exists tail, forall now,
    image args now =
      u32be UIMAGE_MAGIC
      ++ u32be (crc32 (image_header_with 0 args now) DEFAULT_SEED)
      ++ u32be (now / 1000) ++ tail.
Proof.
  exists (u32be (Z.of_nat (length (image_payload args)))
          ++ u32be (built_loadAddr args) ++ u32be (built_entryPoint args)
          ++ u32be (crc32 (image_payload args) DEFAULT_SEED)
          ++ [z2b (JS.band (built_os args) 0xff);
              z2b (JS.band (built_arch args) 0xff);
              z2b (JS.band (built_type args) 0xff);
              z2b (JS.band (built_comp args) 0xff)]
          ++ name_field (built_name args) ++ image_payload args).
  intros now. unfold image, image_header. unfold image_header_with at 1.
  rewrite header_explicit. reflexivity.
Qed.

Lemma nth_error_outside_4_11 (m h1 h2 t1 t2 : Z) (tail : Uint8Array)
    (i : nat) :
  (i < 4 \/ 12 <= i)%nat ->
  nth_error (u32be m ++ u32be h1 ++ u32be t1 ++ tail) i
  = nth_error (u32be m ++ u32be h2 ++ u32be t2 ++ tail) i.
Proof.
  intros [Hi|Hi].
  - rewrite !nth_error_app1 by (cbn [u32be length]; lia). reflexivity.
  - rewrite !(nth_error_app2 (u32be m)) by (cbn [u32be length]; lia).
    rewrite (nth_error_app2 (u32be h1)), (nth_error_app2 (u32be h2))
      by (cbn [u32be length]; lia).
    rewrite (nth_error_app2 (u32be t1)), (nth_error_app2 (u32be t2))
      by (cbn [u32be length]; lia).
    reflexivity.
Qed.

(** C1, as the code has it: two builds of the same input agree on every byte
    outside offsets 4 to 11, that is outside the timestamp field and the
    headerCrc field, which is computed over the timestamp: when both calls
    read the same clock second the two outputs are identical, and when the
    seconds differ (as 32-bit numbers) so do the two headerCrc fields. *)
Theorem rebuild_outside_crc_and_timestamp (args : BuildArgs) (now1 now2 : Z) :
  exists out1 out2,
    buildLegacyScriptImage args now1 = Some out1
    /\ buildLegacyScriptImage args now2 = Some out2
    /\ length out1 = length out2
    /\ (forall i : nat,
          (i < 4 \/ 12 <= i)%nat -> nth_error out1 i = nth_error out2 i)
    /\ (now1 / 1000 = now2 / 1000 -> out1 = out2)
    /\ (JS.ToUint32 (now1 / 1000) <> JS.ToUint32 (now2 / 1000) ->
        readU32BE out1 4 <> readU32BE out2 4).
Proof.
  exists (image args now1), (image args now2).
  split; [apply build_eq|]. split; [apply build_eq|].
  split; [|split; [|split]].
  - apply Nat2Z.inj. rewrite !image_length. reflexivity.
  - destruct (image_clock_split args) as [tail Ht].
    intros i Hi. rewrite !Ht. apply nth_error_outside_4_11. exact Hi.
  - intros H. unfold image, image_header, image_header_with.
    rewrite H. reflexivity.
  - apply rebuild_headerCrc_differs.
Qed.

(** C1 fails as stated: one second later the headerCrc field (offsets 4 to
    7) of the same input is another one. *)
Lemma rebuild_changes_headerCrc :
  exists out1 out2,
    buildLegacyScriptImage
      (mk_args (str "echo hi") None (str "boot script") 0 0) 0 = Some out1
    /\ buildLegacyScriptImage
         (mk_args (str "echo hi") None (str "boot script") 0 0) 1000
       = Some out2
    /\ readU32BE out1 4 = 3328371727
    /\ readU32BE out2 4 = 3099221070
    /\ nth_error out1 4 <> nth_error out2 4.
Proof.
  eexists. eexists.
  split; [vm_compute; reflexivity|].
  split; [vm_compute; reflexivity|].
  vm_compute. repeat split. discriminate.
Qed.

(** ** The size of an encoded string *)

Lemma utf8_encode_cp_length (cp : Z) :
  Z.of_nat (length (utf8_encode_cp (if is_surrogate cp then 0xFFFD else cp)))
  <= 3 * (if 0x10000 <=? cp then 2 else 1).
Proof.
  unfold is_surrogate, utf8_encode_cp.
  destruct (Z.leb_spec 0xD800 cp), (Z.leb_spec cp 0xDFFF); cbn [andb];
    ztest; cbn [length]; lia.
Qed.

Lemma encode_length_bound (s : text) :
  Z.of_nat (length (TextEncoder_encode s)) <= 3 * utf16_length s.
Proof.
  induction s as [|cp s IH]; [cbn; lia|].
  rewrite TextEncoder_encode_cons, length_app, Nat2Z.inj_add.
  cbn [utf16_length fold_right]. fold (utf16_length s).
  pose proof (utf8_encode_cp_length cp). lia.
Qed.

(** A string of at most 2^30 code units, which is more than the engine of
    the extension host can hold, has a payload that fits the size field. *)
Lemma host_string_fits (s : text) :
  utf16_length s <= 2 ^ 30 ->
  8 + Z.of_nat (length (TextEncoder_encode s)) < 2 ^ 32.
Proof.
  intros H. pose proof (encode_length_bound s).
  change (2 ^ 30) with 1073741824 in H. change (2 ^ 32) with 4294967296.
  lia.
Qed.

(** ** The claims at concrete inputs

    Each theorem above that has a hypothesis, applied to a container built
    from the script "echo hi". *)

Lemma rebuild_outside_crc_and_timestamp_witness :
  exists out1 out2,
    buildLegacyScriptImage demo_args 1000 = Some out1
    /\ buildLegacyScriptImage demo_args 1999 = Some out2
    /\ nth_error out1 3 = nth_error out2 3
    /\ nth_error out1 12 = nth_error out2 12
    /\ out1 = out2.
Proof.
  destruct (rebuild_outside_crc_and_timestamp demo_args 1000 1999)
    as (out1 & out2 & H1 & H2 & _ & Hi & Hs & _).
  exists out1, out2. repeat split.
  - exact H1.
  - exact H2.
  - apply Hi. lia.
  - apply Hi. lia.
  - apply Hs. vm_compute. reflexivity.
Defined.

Lemma build_layout_witness :
  exists out,
    buildLegacyScriptImage demo_args 1700000000123 = Some out
    /\ Z.of_nat (length out) = 72 + 7
    /\ readU32BE out 12 = 8 + 7
    /\ readU32BE out 64 = 7
    /\ 8 + readU32BE out 64 = readU32BE out 12
    /\ readU32BE out 68 = 0
    /\ slice out 72 (72 + 7) = TextEncoder_encode (str "echo hi").
Proof.
  apply (build_layout demo_args 1700000000123). vm_compute. reflexivity.
Defined.

Lemma build_checksum_valid_witness :
  exists out,
    buildLegacyScriptImage demo_args 1700000000123 = Some out
    /\ Z.of_nat (length out) = 72 + 7
    /\ readU32BE out 0 = UIMAGE_MAGIC
    /\ crc32 (slice out 64 (Z.of_nat (length out))) DEFAULT_SEED
       = readU32BE out 24
    /\ crc32 (writeU32BE (slice out 0 64) 4 0) DEFAULT_SEED = readU32BE out 4
    /\ parseLegacyUImage out
       = ([], inr (decodeHeader out,
                   TextDecoder_utf8_decode
                     (TextEncoder_encode (str "echo hi")))).
Proof.
  destruct (build_checksum_valid demo_args 1700000000123)
    as (out & Hb & Hl & Hm & Hd & Hh & Hp).
  exists out. repeat split; try assumption.
  apply Hp. vm_compute. reflexivity.
Defined.

Lemma flipped_dcrc_one_warning_witness :
  exists h',
    parseLegacyUImage (flipBit demo_image 24 0)
    = ([CrcMismatch], inr (h', str "echo hi"))
    /\ UImageHeader.dcrc h' <> UImageHeader.dcrc (decodeHeader demo_image)
    /\ calcDcrc (flipBit demo_image 24 0) <> UImageHeader.dcrc h'
    /\ calcHcrc (flipBit demo_image 24 0) <> UImageHeader.hcrc h'.
Proof.
  apply (flipped_dcrc_one_warning demo_image 24 0 (decodeHeader demo_image)
           (str "echo hi")).
  - lia.
  - lia.
  - vm_compute. reflexivity.
Defined.

Lemma build_parse_roundtrip_witness :
  exists out h',
    buildLegacyScriptImage
      (mk_args (str "echo hi") (Some (PartialHeader.of_header sample_header))
               (str "boot script") 0 0) 1700000000123 = Some out
    /\ parseLegacyUImage out = ([], inr (h', str "echo hi"))
    /\ UImageHeader.loadAddr h' = UImageHeader.loadAddr sample_header
    /\ UImageHeader.entryPoint h' = UImageHeader.entryPoint sample_header
    /\ UImageHeader.name h' = UImageHeader.name sample_header
    /\ UImageHeader.os h' = UImageHeader.os sample_header
    /\ UImageHeader.arch h' = UImageHeader.arch sample_header
    /\ UImageHeader.type h' = UImageHeader.type sample_header
    /\ UImageHeader.comp h' = UImageHeader.comp sample_header.
Proof.
  apply (build_parse_roundtrip (str "echo hi") sample_header
           (str "boot script") 0 0 1700000000123).
  - vm_compute. reflexivity.
  - vm_compute. reflexivity.
  - vm_compute. reflexivity.
  - vm_compute. reflexivity.
Defined.

Lemma long_name_truncated_witness :
  exists out,
    buildLegacyScriptImage
      (mk_args (str "x") (Some (header_named spaced_name))
               (str "boot script") 0 0) 0 = Some out
    /\ slice out 32 64 = firstn 32 (TextEncoder_encode spaced_name)
    /\ UImageHeader.name (decodeHeader out) <> spaced_name
    /\ UImageHeader.name (decodeHeader out) = trim (firstn 32 spaced_name).
Proof.
  destruct (long_name_truncated
              (mk_args (str "x") (Some (header_named spaced_name))
                       (str "boot script") 0 0)
              (header_named spaced_name) spaced_name 0
              eq_refl eq_refl ltac:(vm_compute; lia))
    as (out & Hb & Hf & _ & Hn & Ha).
  exists out. repeat split.
  - exact Hb.
  - exact Hf.
  - apply Hn. vm_compute. lia.
  - apply Ha. vm_compute. reflexivity.
Defined.

(** * Further properties of the codec

    What the functions of the codec do beyond the claims above, read off
    the code. *)

(** ** Reading and writing a 32-bit field *)

Lemma store_past_end (buf : Uint8Array) (off : nat) (v : Z) :
  (length buf <= off)%nat -> store buf off v = buf.
Proof.
  revert off. induction buf as [|b buf IH]; intros [|off] H;
    cbn [length] in H; cbn [store]; try reflexivity; try lia.
  f_equal. apply IH. lia.
Qed.

Lemma nth_error_store_other (buf : Uint8Array) (off i : nat) (v : Z) :
  i <> off -> nth_error (store buf off v) i = nth_error buf i.
Proof.
  revert off i.
  induction buf as [|b buf IH]; intros [|off] [|i] H;
    cbn [store nth_error]; try reflexivity; try congruence.
  apply IH. congruence.
Qed.

Lemma get_past_end (buf : Uint8Array) (i : nat) :
  (length buf <= i)%nat -> get buf i = 0.
Proof.
  intros H. unfold get. rewrite (proj2 (nth_error_None buf i) H).
  reflexivity.
Qed.

(** X1: [readU32BE] returns the big-endian value of the four bytes at the
    offset, b0 * 2^24 + b1 * 2^16 + b2 * 2^8 + b3, a number from 0 to
    2^32 - 1 also when the top bit of the first byte is set; a byte past
    the end of the buffer counts as 0, so that a read at or past the end
    gives 0. *)
Theorem readU32BE_big_endian (buf : Uint8Array) (off : nat) :
  readU32BE buf off
  = get buf off * 2 ^ 24 + get buf (off + 1) * 2 ^ 16
    + get buf (off + 2) * 2 ^ 8 + get buf (off + 3)
  /\ 0 <= readU32BE buf off < 2 ^ 32
  /\ ((length buf <= off)%nat -> readU32BE buf off = 0).
Proof.
  pose proof (readU32BE_spec buf off) as S.
  pose proof (get_range buf off). pose proof (get_range buf (off + 1)).
  pose proof (get_range buf (off + 2)). pose proof (get_range buf (off + 3)).
  split; [exact S|]. split; [rewrite S; lia|].
  intros Hl. rewrite S, !get_past_end by lia. reflexivity.
Qed.

(** X2: a field that [writeU32BE] wrote inside the buffer reads back, with
    [readU32BE], as the value written modulo 2^32. *)
Theorem writeU32BE_readU32BE (buf : Uint8Array) (off : nat) (val : Z) :
  (off + 4 <= length buf)%nat ->
  readU32BE (writeU32BE buf off val) off = val mod 2 ^ 32.
Proof.
  intros H. rewrite readU32BE_spec. unfold writeU32BE.
  rewrite (get_store_same _ (off + 3)) by (rewrite !store_length; lia).
  rewrite (get_store_other _ (off + 3) (off + 2)) by lia.
  rewrite (get_store_same _ (off + 2)) by (rewrite !store_length; lia).
  rewrite !(get_store_other _ _ (off + 1)) by lia.
  rewrite (get_store_same _ (off + 1)) by (rewrite !store_length; lia).
  rewrite !(get_store_other _ _ off) by lia.
  rewrite (get_store_same _ off) by lia.
  apply u32_bytes_value.
Qed.

(** X3: [writeU32BE] keeps the length of the buffer and every byte outside
    the four it addresses, and at or past the end of the buffer it changes
    nothing. *)
Theorem writeU32BE_frame (buf : Uint8Array) (off : nat) (val : Z) :
  length (writeU32BE buf off val) = length buf
  /\ (forall i, (i < off \/ off + 4 <= i)%nat ->
        nth_error (writeU32BE buf off val) i = nth_error buf i)
  /\ ((length buf <= off)%nat -> writeU32BE buf off val = buf).
Proof.
  split; [apply writeU32BE_length|]. split.
  - intros i Hi. unfold writeU32BE.
    rewrite !nth_error_store_other by lia. reflexivity.
  - intros Hl. unfold writeU32BE.
    rewrite !store_past_end by (rewrite ?store_length; lia). reflexivity.
Qed.

(** ** The CRC engine

    The range of the checksum, its continuation through the seed and the
    table against the loop that fills it.  The body of that loop is linear
    for xor, and eight rounds of it on a multiple of 256 shift it right by
    eight bits: one step through the table is eight rounds of the body. *)

(** X4: [crc32] returns a number from 0 to 2^32 - 1 for every input and
    every seed, and the seed counts modulo 2^32 only. *)
Theorem crc32_unsigned (data : Uint8Array) (seed : Z) :
  0 <= crc32 data seed < 2 ^ 32
  /\ crc32 data seed = crc32 data (seed mod 2 ^ 32).
Proof.
  split; [apply crc32_range|].
  rewrite !CrcFacts.crc32_u. fold (JS.ToUint32 seed).
  rewrite (JSFacts.ToUint32_small (JS.ToUint32 seed))
    by apply JSFacts.ToUint32_range.
  reflexivity.
Qed.

(** X5: the checksum of a concatenation is the checksum of the second
    part with the seed [crc32(first, seed) ^ 0xffffffff]: a checksum can be
    continued through the [seed] parameter. *)
Theorem crc32_chaining (a b : Uint8Array) (seed : Z) :
  crc32 (a ++ b) seed = crc32 b (JS.bxor (crc32 a seed) 0xffffffff).
Proof.
  rewrite !CrcFacts.crc32_u, fold_left_app.
  rewrite JSFacts.ToUint32_bxor.
  pose proof (CrcFacts.fold_crc_u_range a (JS.ToUint32 seed)
                (JSFacts.ToUint32_range seed)) as Hr.
  rewrite (JSFacts.ToUint32_small (Z.lxor _ _))
    by (apply (CrcFacts.lxor_range _ _ 32); lia).
  rewrite (JSFacts.ToUint32_small 4294967295) by lia.
  rewrite Z.lxor_assoc, Z.lxor_nilpotent, Z.lxor_0_r. reflexivity.
Qed.

Module CrcBits.
Import JS JSFacts CrcFacts.

Lemma band_1 x : band x 1 = x mod 2.
Proof.
  unfold band. rewrite (ToInt32_small 1) by lia.
  change 1 with (Z.ones 1) at 1. rewrite Z.land_ones by lia.
  change (2 ^ 1) with 2.
  rewrite ToInt32_small
    by (pose proof (Z.mod_pos_bound (ToInt32 x) 2 ltac:(lia)); lia).
  unfold ToInt32. change (2 ^ 32) with 4294967296.
  change (2 ^ 31) with 2147483648.
  Z.to_euclidean_division_equations. lia.
Qed.

Lemma crc_bit_range x : 0 <= x < 2 ^ 32 -> 0 <= crc_bit x < 2 ^ 32.
Proof.
  intros Hx. unfold crc_bit. apply lxor_range; [lia| |].
  - change (2 ^ 32) with 4294967296 in *.
    Z.to_euclidean_division_equations. lia.
  - destruct (Z.odd x); lia.
Qed.

Lemma crc_table_step_u c :
  ToUint32 (crc_table_step c) = crc_bit (ToUint32 c).
Proof.
  unfold crc_table_step, crc_bit. rewrite band_1.
  pose proof (ToUint32_range c) as Hc.
  assert (Hh : 0 <= ToUint32 c / 2 < 2 ^ 32).
  { change (2 ^ 32) with 4294967296 in *.
    Z.to_euclidean_division_equations. lia. }
  assert (Hp : c mod 2 = ToUint32 c mod 2).
  { unfold ToUint32. change (2 ^ 32) with 4294967296.
    Z.to_euclidean_division_equations. lia. }
  rewrite Hp, Zmod_odd.
  rewrite U32Facts.shru_div by lia. change (2 ^ 1) with 2.
  destruct (Z.odd (ToUint32 c)); cbn [Z.eqb].
  - rewrite ToUint32_bxor.
    rewrite (ToUint32_small (ToUint32 c / 2)) by exact Hh.
    rewrite (ToUint32_small 3988292384) by lia.
    apply Z.lxor_comm.
  - rewrite Z.lxor_0_r. apply ToUint32_small. exact Hh.
Qed.

Lemma iter_crc_table_step_u (k : nat) c :
  ToUint32 (Nat.iter k crc_table_step c) = Nat.iter k crc_bit (ToUint32 c).
Proof.
  induction k as [|k IH]; [reflexivity|].
  rewrite !Nat.iter_succ, crc_table_step_u, IH. reflexivity.
Qed.

Lemma crc_bit_lxor a b : crc_bit (Z.lxor a b) = Z.lxor (crc_bit a) (crc_bit b).
Proof.
  unfold crc_bit.
  change 2 with (2 ^ 1). rewrite <- !Z.shiftr_div_pow2 by lia.
  rewrite Z.shiftr_lxor, <- !Z.bit0_odd, Z.lxor_spec.
  generalize (Z.shiftr a 1) (Z.shiftr b 1). intros p q.
  destruct (Z.testbit a 0), (Z.testbit b 0); cbn [xorb];
    rewrite ?Z.lxor_0_r.
  - rewrite Z.lxor_assoc, <- (Z.lxor_assoc 3988292384).
    rewrite (Z.lxor_comm 3988292384 q), !Z.lxor_assoc.
    rewrite Z.lxor_nilpotent, Z.lxor_0_r. reflexivity.
  - rewrite !Z.lxor_assoc. f_equal. apply Z.lxor_comm.
  - rewrite Z.lxor_assoc. reflexivity.
  - reflexivity.
Qed.

Lemma iter_crc_bit_lxor (k : nat) a b :
  Nat.iter k crc_bit (Z.lxor a b)
  = Z.lxor (Nat.iter k crc_bit a) (Nat.iter k crc_bit b).
Proof.
  induction k as [|k IH]; [reflexivity|].
  rewrite !Nat.iter_succ, IH. apply crc_bit_lxor.
Qed.

Lemma crc_bit_double y : crc_bit (y * 2) = y.
Proof.
  unfold crc_bit. rewrite Z.div_mul by lia.
  rewrite Z.odd_mul, andb_false_r. apply Z.lxor_0_r.
Qed.

Lemma iter_crc_bit_shift (k : nat) y :
  Nat.iter k crc_bit (y * 2 ^ Z.of_nat k) = y.
Proof.
  revert y. induction k as [|k IH]; intros y.
  - cbn. lia.
  - rewrite Nat.iter_succ_r.
    replace (y * 2 ^ Z.of_nat (S k)) with (y * 2 ^ Z.of_nat k * 2)
      by (rewrite Nat2Z.inj_succ, Z.pow_succ_r by lia; ring).
    rewrite crc_bit_double. apply IH.
Qed.

(** An entry of the table is the result of the loop that fills it. *)
Lemma table_get_bits i :
  0 <= i < 256 -> table_get i = Nat.iter 8 crc_bit i.
Proof.
  intros Hi. apply Z.eqb_eq.
  apply (below_256 (fun i => table_get i =? Nat.iter 8 crc_bit i));
    [vm_compute; reflexivity|exact Hi].
Qed.

Lemma crc_F_bits x : 0 <= x -> crc_F x = Nat.iter 8 crc_bit x.
Proof.
  intros Hx.
  rewrite (Z.div_mod x 256) at 2 by lia.
  rewrite (Z.add_comm (256 * _)).
  rewrite <- (CrcWord.lxor_disjoint (x / 256) (x mod 256))
    by (apply Z.mod_pos_bound; lia).
  rewrite iter_crc_bit_lxor.
  change 256 with (2 ^ Z.of_nat 8) at 3.
  rewrite iter_crc_bit_shift.
  rewrite <- table_get_bits by (apply Z.mod_pos_bound; lia).
  reflexivity.
Qed.

Lemma crc32_step_bitwise_u c b :
  ToUint32 (crc32_step_bitwise c b) = crc_u (ToUint32 c) b.
Proof.
  unfold crc32_step_bitwise, crc_u.
  rewrite iter_crc_table_step_u, ToUint32_bxor.
  pose proof (b2z_range b) as Hb. pose proof (ToUint32_range c) as Hc.
  rewrite (ToUint32_small (b2z b)) by lia.
  symmetry. apply crc_F_bits.
  apply (lxor_range _ _ 32); lia.
Qed.

Lemma fold_crc32_step_bitwise_u data c :
  ToUint32 (fold_left crc32_step_bitwise data c)
  = fold_left crc_u data (ToUint32 c).
Proof.
  revert c. induction data as [|b data IH]; intros c.
  - reflexivity.
  - rewrite !fold_left_cons, IH. f_equal. apply crc32_step_bitwise_u.
Qed.

End CrcBits.

(** X6: the table-driven loop of [crc32] computes what the bit-by-bit
    loop computes: on every input and seed, each byte step through
    [CRC32_TABLE] gives the register that eight rounds of the body of the
    table-filling loop (shift right, xor 0xedb88320 when the low bit was
    set) give on the register xor the byte. *)
Theorem crc32_table_driven (data : Uint8Array) (seed : Z) :
  crc32 data seed = crc32_bitwise data seed.
Proof.
  rewrite CrcFacts.crc32_u. unfold crc32_bitwise.
  rewrite JSFacts.shru_0, JSFacts.ToUint32_bxor.
  rewrite CrcBits.fold_crc32_step_bitwise_u, JSFacts.shru_0.
  rewrite (JSFacts.ToUint32_small (JS.ToUint32 seed))
    by apply JSFacts.ToUint32_range.
  reflexivity.
Qed.

Lemma firstn_ext (l1 l2 : Uint8Array) (i : nat) :
  (forall j, (j < i)%nat -> nth_error l1 j = nth_error l2 j) ->
  firstn i l1 = firstn i l2.
Proof.
  intros H. apply nth_error_ext. intros j. rewrite !nth_error_firstn.
  destruct (Nat.ltb_spec j i); [apply H; assumption|reflexivity].
Qed.

Lemma skipn_ext (l1 l2 : Uint8Array) (k : nat) :
  (forall j, (k <= j)%nat -> nth_error l1 j = nth_error l2 j) ->
  skipn k l1 = skipn k l2.
Proof.
  intros H. apply nth_error_ext. intros j. rewrite !nth_error_skipn.
  apply H. lia.
Qed.

(** A sequence cut around the four bytes from position [i]. *)
Lemma window_split (l : Uint8Array) (i : nat) :
  l = firstn i l ++ firstn 4 (skipn i l) ++ skipn (i + 4) l.
Proof.
  rewrite (Nat.add_comm i 4), <- skipn_skipn.
  rewrite (firstn_skipn 4 (skipn i l)), firstn_skipn. reflexivity.
Qed.

(** X7: two different byte sequences of the same length that agree
    outside four consecutive positions have different checksums, whatever
    the seed. *)
Theorem crc32_detects_burst (d1 d2 : Uint8Array) (i : nat) (seed : Z) :
  length d1 = length d2 ->
  (forall j, (j < i \/ i + 4 <= j)%nat -> nth_error d1 j = nth_error d2 j) ->
  d1 <> d2 ->
  crc32 d1 seed <> crc32 d2 seed.
Proof.
  intros Hl Hout Hne.
  assert (Hpre : firstn i d1 = firstn i d2)
    by (apply firstn_ext; intros j Hj; apply Hout; lia).
  assert (Hpost : skipn (i + 4) d1 = skipn (i + 4) d2)
    by (apply skipn_ext; intros j Hj; apply Hout; lia).
  rewrite (window_split d1 i), (window_split d2 i), Hpre, Hpost.
  apply crc32_detects_word.
  - rewrite !length_firstn, !length_skipn, Hl. reflexivity.
  - rewrite length_firstn. lia.
  - intros Hw. apply Hne.
    rewrite (window_split d1 i), (window_split d2 i), Hpre, Hpost, Hw.
    reflexivity.
Qed.

(** ** The name field, both ways *)

(** X8: [encodeName] never throws and returns 32 bytes for every name:
    the first 32 bytes of the UTF-8 encoding of the name (all of them when
    there are fewer), followed by zero bytes up to 32. *)
Theorem encodeName_fixed_width (name : text) :
  let raw := TextEncoder_encode name in
  let k := Nat.min 32 (length raw) in
  exists out,
    encodeName name = Some out
    /\ length out = 32%nat
    /\ firstn k out = firstn 32 raw
    /\ skipn k out = repeat x00 (32 - k).
Proof.
  intros raw k. exists (name_field name).
  split; [apply encodeName_eq|]. split; [apply name_field_length|].
  unfold name_field. rewrite slice_0. change (Z.to_nat 32) with 32%nat.
  fold raw.
  assert (Hk : length (firstn 32 raw) = k) by apply length_firstn.
  rewrite Hk. split.
  - rewrite firstn_app, Hk, Nat.sub_diag, firstn_O, app_nil_r.
    apply firstn_all2. lia.
  - rewrite skipn_app, Hk, Nat.sub_diag, skipn_O.
    rewrite skipn_all2 by lia. reflexivity.
Qed.

(** X9: a name of at most 32 ASCII characters, none of them NUL, without
    white space at either end, is returned by [decodeName] from the field
    that [encodeName] made of it. *)
Theorem name_roundtrip (n : text) :
  valid_name n = true ->
  exists field, encodeName n = Some field /\ decodeName field = n.
Proof.
  intros H. exists (name_field n).
  split; [apply encodeName_eq|apply decodeName_name_field; exact H].
Qed.

Lemma until_nul_app_nul (pre post : Uint8Array) :
  until_nul (pre ++ x00 :: post) = until_nul pre.
Proof.
  induction pre as [|b pre IH]; [reflexivity|].
  cbn [app until_nul]. destruct (b2z b =? 0); [reflexivity|].
  rewrite IH. reflexivity.
Qed.

(** X10: [decodeName] ignores everything from a zero byte on: the bytes
    [pre], a zero byte and any bytes after it decode to what [pre] alone
    decodes to. *)
Theorem decodeName_stops_at_nul (pre post : Uint8Array) :
  decodeName (pre ++ x00 :: post) = decodeName pre.
Proof. rewrite !decodeName_until_nul, until_nul_app_nul. reflexivity. Qed.

Lemma trim_start_hd (s : text) (c : Z) :
  hd_error (trim_start s) = Some c -> is_js_space c = false.
Proof.
  induction s as [|d s IH]; [discriminate|].
  cbn [trim_start]. destruct (is_js_space d) eqn:E; [exact IH|].
  cbn [hd_error]. congruence.
Qed.

Lemma trim_start_suffix (s : text) :
  exists p, s = p ++ trim_start s.
Proof.
  induction s as [|d s [p IH]]; [exists []; reflexivity|].
  cbn [trim_start]. destruct (is_js_space d).
  - exists (d :: p). cbn [app]. f_equal. exact IH.
  - exists []. reflexivity.
Qed.

Lemma trim_start_fix (s : text) :
  (forall c, hd_error s = Some c -> is_js_space c = false) ->
  trim_start s = s.
Proof.
  destruct s as [|d s]; [reflexivity|]. intros H.
  cbn [trim_start]. rewrite (H d eq_refl). reflexivity.
Qed.

Lemma hd_error_app {A : Type} (l1 l2 : list A) (a : A) :
  hd_error l1 = Some a -> hd_error (l1 ++ l2) = Some a.
Proof. destruct l1; [discriminate|exact (fun H => H)]. Qed.

Lemma trim_last (s : text) (c : Z) :
  hd_error (rev (trim s)) = Some c -> is_js_space c = false.
Proof. unfold trim. rewrite rev_involutive. apply trim_start_hd. Qed.

Lemma trim_hd (s : text) (c : Z) :
  hd_error (trim s) = Some c -> is_js_space c = false.
Proof.
  unfold trim. intros H.
  destruct (trim_start_suffix (rev (trim_start s))) as [p Hp].
  apply (trim_start_hd s).
  rewrite <- (rev_involutive (trim_start s)), Hp, rev_app_distr.
  apply hd_error_app. exact H.
Qed.

Lemma trim_trim (s : text) : trim (trim s) = trim s.
Proof.
  unfold trim at 1.
  rewrite (trim_start_fix (trim s)) by apply trim_hd.
  rewrite (trim_start_fix (rev (trim s))) by apply trim_last.
  apply rev_involutive.
Qed.

Lemma trim_start_incl (s : text) (c : Z) : In c (trim_start s) -> In c s.
Proof.
  destruct (trim_start_suffix s) as [p Hp]. intros H.
  rewrite Hp. apply in_or_app. right. exact H.
Qed.

Lemma trim_incl (s : text) (c : Z) : In c (trim s) -> In c s.
Proof.
  unfold trim. intros H. apply in_rev in H.
  apply trim_start_incl in H. apply in_rev in H.
  apply trim_start_incl in H. exact H.
Qed.

Lemma until_nul_no_nul (bytes : Uint8Array) (b : byte) :
  In b (until_nul bytes) -> b2z b <> 0.
Proof.
  induction bytes as [|a bytes IH]; [intros []|].
  cbn [until_nul]. destruct (Z.eqb_spec (b2z a) 0) as [E|E]; [intros []|].
  intros [H|H]; [subst a; exact E|exact (IH H)].
Qed.

Lemma windows1252_cp_nul (b : Z) :
  0 <= b < 256 -> windows1252_cp b = 0 -> b = 0.
Proof.
  intros Hb E.
  pose proof (CrcFacts.below_256
                (fun i => negb (windows1252_cp i =? 0) || (i =? 0))
                ltac:(vm_compute; reflexivity) b Hb) as H.
  cbv beta in H. rewrite E in H. cbn in H. apply Z.eqb_eq. exact H.
Qed.

(** X11: a name returned by [decodeName] has at most as many characters
    as the field has bytes, holds no U+0000, neither begins nor ends with
    white space, and is left unchanged by [trim]. *)
Theorem decodeName_trimmed (bytes : Uint8Array) :
  let n := decodeName bytes in
  (length n <= length bytes)%nat
  /\ ~ In 0 n
  /\ (forall c, hd_error n = Some c -> is_js_space c = false)
  /\ (forall c, hd_error (rev n) = Some c -> is_js_space c = false)
  /\ trim n = n.
Proof.
  cbv zeta. split; [apply decodeName_length|].
  rewrite decodeName_until_nul. split.
  { intros H. apply trim_incl in H. unfold TextDecoder_ascii_decode in H.
    apply in_map_iff in H. destruct H as (b & E & Hb).
    apply windows1252_cp_nul in E; [|apply b2z_range].
    exact (until_nul_no_nul _ _ Hb E). }
  split; [apply trim_hd|]. split; [apply trim_last|apply trim_trim].
Qed.

(** ** What the parser reads *)

Lemma get_app_l (buf extra : Uint8Array) (i : nat) :
  (i < length buf)%nat -> get (buf ++ extra) i = get buf i.
Proof.
  intros H. unfold get. rewrite nth_error_app1 by exact H. reflexivity.
Qed.

Lemma readU32BE_app_l (buf extra : Uint8Array) (off : nat) :
  (off + 4 <= length buf)%nat ->
  readU32BE (buf ++ extra) off = readU32BE buf off.
Proof.
  intros H. unfold readU32BE. rewrite !get_app_l by lia. reflexivity.
Qed.

Lemma slice_app_l (buf extra : Uint8Array) (s e : Z) :
  (Z.to_nat e <= length buf)%nat ->
  slice (buf ++ extra) s e = slice buf s e.
Proof.
  intros H. unfold slice. rewrite skipn_app, firstn_app, length_skipn.
  replace (Z.to_nat e - Z.to_nat s - (length buf - Z.to_nat s))%nat
    with 0%nat by lia.
  rewrite firstn_O. apply app_nil_r.
Qed.

Lemma readU32BE_nonneg (buf : Uint8Array) (off : nat) :
  0 <= readU32BE buf off < 2 ^ 32.
Proof.
  rewrite readU32BE_spec.
  pose proof (get_range buf off). pose proof (get_range buf (off + 1)).
  pose proof (get_range buf (off + 2)). pose proof (get_range buf (off + 3)).
  lia.
Qed.

Lemma crcMismatch_iff (buf : Uint8Array) :
  crcMismatch buf = true
  <-> calcDcrc buf <> readU32BE buf 24 \/ calcHcrc buf <> readU32BE buf 4.
Proof.
  unfold crcMismatch.
  generalize (calcDcrc buf) (readU32BE buf 24) (calcHcrc buf)
             (readU32BE buf 4).
  intros cd sd ch sh.
  destruct (Z.eqb_spec cd sd), (Z.eqb_spec ch sh); cbn [negb orb];
    split; intros H; try reflexivity; try discriminate; try tauto.
Qed.

(** X12: the parser shows the checksum warning exactly when the buffer
    has at least 64 bytes, the magic number is right, the declared payload
    lies inside the buffer and the computed data checksum or the computed
    header checksum differs from the stored one; it never shows more than
    one warning. *)
Theorem parse_warning_iff (buf : Uint8Array) :
  let len := Z.of_nat (length buf) in
  let w := warnings (parseLegacyUImage buf) in
  (w = [CrcMismatch] <->
     64 <= len /\ readU32BE buf 0 = UIMAGE_MAGIC
     /\ 64 + readU32BE buf 12 <= len
     /\ (calcDcrc buf <> readU32BE buf 24
         \/ calcHcrc buf <> readU32BE buf 4))
  /\ (w = [] \/ w = [CrcMismatch]).
Proof.
  cbv zeta. rewrite parse_cases. unfold warnings, HEADER_SIZE.
  rewrite <- crcMismatch_iff.
  destruct (Nat.ltb_spec (length buf) 64) as [Hl|Hl]; cbn [fst].
  { split; [|left; reflexivity]. split; [discriminate|lia]. }
  destruct (Z.eqb_spec (readU32BE buf 0) UIMAGE_MAGIC) as [Hm|Hm];
    cbn [negb fst].
  2:{ split; [|left; reflexivity]. split; [discriminate|tauto]. }
  destruct (Z.gtb_spec (Z.of_nat 64 + readU32BE buf 12)
                       (Z.of_nat (length buf))) as [Ho|Ho]; cbn [fst].
  { split; [|left; reflexivity]. split; [discriminate|lia]. }
  destruct (crcMismatch buf).
  - split; [|right; reflexivity]. split; [|reflexivity].
    intros _. repeat split; try lia; assumption.
  - split; [|left; reflexivity]. split; [discriminate|].
    intros (_ & _ & _ & H). discriminate H.
Qed.

Lemma skipn_firstn_sub {A : Type} (a n : nat) (l : list A) :
  skipn a (firstn n l) = firstn (n - a) (skipn a l).
Proof.
  revert n l. induction a as [|a IH]; intros n l.
  - rewrite Nat.sub_0_r. reflexivity.
  - destruct n as [|n]; [rewrite firstn_O; reflexivity|].
    destruct l as [|x l];
      [cbn [firstn skipn]; rewrite firstn_nil; reflexivity|].
    cbn [firstn skipn Nat.sub]. apply IH.
Qed.

(** The script bytes lie between offset 72 and the end of the declared
    payload. *)
Lemma script_bytes (buf : Uint8Array) :
  slice (payloadOf buf) 8 (Z.of_nat (length (payloadOf buf)))
  = firstn (Z.to_nat (readU32BE buf 12) - 8) (skipn 72 buf).
Proof.
  pose proof (readU32BE_nonneg buf 12) as Hs.
  unfold slice at 1. rewrite Nat2Z.id. change (Z.to_nat 8) with 8%nat.
  rewrite firstn_all2 by (rewrite length_skipn; lia).
  unfold payloadOf, slice, HEADER_SIZE. rewrite Nat2Z.id.
  replace (Z.to_nat (Z.of_nat 64 + readU32BE buf 12) - 64)%nat
    with (Z.to_nat (readU32BE buf 12)) by lia.
  rewrite skipn_firstn_sub, skipn_skipn. reflexivity.
Qed.

Lemma scriptOf_bytes (buf : Uint8Array) :
  scriptOf buf
  = TextDecoder_utf8_decode
      (firstn (Z.to_nat (readU32BE buf 12) - 8) (skipn 72 buf)).
Proof. unfold scriptOf. rewrite script_bytes. reflexivity. Qed.

Lemma slice_length_le (buf : Uint8Array) (s e : Z) :
  (length (slice buf s e) <= Z.to_nat e - Z.to_nat s)%nat.
Proof. unfold slice. rewrite length_firstn. lia. Qed.

Lemma is_u32_readU32BE (buf : Uint8Array) (off : nat) :
  is_u32 (readU32BE buf off) = true.
Proof.
  pose proof (readU32BE_nonneg buf off) as H. unfold is_u32.
  apply andb_true_iff. split; [apply Z.leb_le|apply Z.ltb_lt]; lia.
Qed.

Lemma is_u8_get (buf : Uint8Array) (i : nat) : is_u8 (get buf i) = true.
Proof.
  pose proof (get_range buf i) as H. unfold is_u8.
  apply andb_true_iff. split; [apply Z.leb_le|apply Z.ltb_lt]; lia.
Qed.

(** X13: on every header the parser returns, the magic number is
    0x27051956, the size is at least 8 and at most the length of the
    buffer minus 64, the 32-bit fields lie between 0 and 2^32 - 1, the
    8-bit fields between 0 and 255 and the name has at most 32 characters;
    the script returned with it is the decoding of the bytes from offset 72
    to offset 64 + size. *)
Theorem parse_header_invariants (buf : Uint8Array) (w : list warning)
    (h : UImageHeader.t) (s : text) :
  parseLegacyUImage buf = (w, inr (h, s)) ->
  UImageHeader.magic h = UIMAGE_MAGIC
  /\ 8 <= UImageHeader.size h <= Z.of_nat (length buf) - 64
  /\ is_u32 (UImageHeader.hcrc h) = true
  /\ is_u32 (UImageHeader.timestamp h) = true
  /\ is_u32 (UImageHeader.loadAddr h) = true
  /\ is_u32 (UImageHeader.entryPoint h) = true
  /\ is_u32 (UImageHeader.dcrc h) = true
  /\ is_u8 (UImageHeader.os h) = true
  /\ is_u8 (UImageHeader.arch h) = true
  /\ is_u8 (UImageHeader.type h) = true
  /\ is_u8 (UImageHeader.comp h) = true
  /\ (length (UImageHeader.name h) <= 32)%nat
  /\ s = TextDecoder_utf8_decode
           (slice buf 72 (64 + UImageHeader.size h)).
Proof.
  intros E. apply parse_success_inv in E.
  destruct E as (Hl & Hm & Ho & H8 & _ & Hh & Hs). subst h s.
  unfold decodeHeader.
  cbn [UImageHeader.magic UImageHeader.size UImageHeader.hcrc
       UImageHeader.timestamp UImageHeader.loadAddr UImageHeader.entryPoint
       UImageHeader.dcrc UImageHeader.os UImageHeader.arch UImageHeader.type
       UImageHeader.comp UImageHeader.name].
  rewrite !is_u32_readU32BE, !is_u8_get.
  repeat split; try assumption; try lia.
  - pose proof (decodeName_length (slice buf 32 64)) as N.
    pose proof (slice_length_le buf 32 64) as L.
    change (Z.to_nat 64 - Z.to_nat 32)%nat with 32%nat in L. lia.
  - rewrite scriptOf_bytes. unfold slice.
    change (Z.to_nat 72) with 72%nat.
    replace (Z.to_nat (64 + readU32BE buf 12) - 72)%nat
      with (Z.to_nat (readU32BE buf 12) - 8)%nat by lia.
    reflexivity.
Qed.

(** The bytes after the declared payload. *)

Section TrailingBytes.

Variables buf extra : Uint8Array.
Hypothesis Hfit : 64 + readU32BE buf 12 <= Z.of_nat (length buf).

Lemma trailing_length : (64 <= length buf)%nat.
Proof using Hfit. pose proof (readU32BE_nonneg buf 12). lia. Qed.

Lemma trailing_read (off : nat) :
  (off + 4 <= 64)%nat -> readU32BE (buf ++ extra) off = readU32BE buf off.
Proof using Hfit.
  intros H. pose proof trailing_length. apply readU32BE_app_l. lia.
Qed.

Lemma trailing_get (i : nat) :
  (i < 64)%nat -> get (buf ++ extra) i = get buf i.
Proof using Hfit.
  intros H. pose proof trailing_length. apply get_app_l. lia.
Qed.

Lemma trailing_decodeHeader : decodeHeader (buf ++ extra) = decodeHeader buf.
Proof using Hfit.
  unfold decodeHeader. pose proof trailing_length.
  rewrite !trailing_read, !trailing_get by lia.
  rewrite slice_app_l by (change (Z.to_nat 64) with 64%nat; lia).
  reflexivity.
Qed.

Lemma trailing_payloadOf : payloadOf (buf ++ extra) = payloadOf buf.
Proof using Hfit.
  unfold payloadOf. rewrite trailing_read by lia.
  apply slice_app_l. unfold HEADER_SIZE.
  pose proof (readU32BE_nonneg buf 12). lia.
Qed.

Lemma trailing_calcHcrc : calcHcrc (buf ++ extra) = calcHcrc buf.
Proof using Hfit.
  unfold calcHcrc. pose proof trailing_length.
  rewrite slice_app_l by (unfold HEADER_SIZE; lia). reflexivity.
Qed.

Lemma trailing_crcMismatch : crcMismatch (buf ++ extra) = crcMismatch buf.
Proof using Hfit.
  unfold crcMismatch, calcDcrc.
  rewrite trailing_calcHcrc, trailing_payloadOf, !trailing_read by lia.
  reflexivity.
Qed.

Lemma trailing_scriptOf : scriptOf (buf ++ extra) = scriptOf buf.
Proof using Hfit. unfold scriptOf. rewrite trailing_payloadOf. reflexivity. Qed.

End TrailingBytes.

(** X14: bytes after the declared payload are not read: when the declared
    payload lies inside the buffer, the parser returns the same result and
    shows the same warnings on the buffer followed by any further bytes. *)
Theorem parse_ignores_trailing_bytes (buf extra : Uint8Array) :
  64 + readU32BE buf 12 <= Z.of_nat (length buf) ->
  parseLegacyUImage (buf ++ extra) = parseLegacyUImage buf.
Proof.
  intros Hfit. rewrite !parse_cases.
  pose proof (trailing_length buf Hfit) as Hl.
  rewrite trailing_decodeHeader, trailing_payloadOf, trailing_crcMismatch,
    trailing_scriptOf, !trailing_read by (assumption || lia).
  destruct (Nat.ltb_spec (length buf) HEADER_SIZE) as [H|_];
    [unfold HEADER_SIZE in H; lia|].
  destruct (Nat.ltb_spec (length (buf ++ extra)) HEADER_SIZE) as [H|_];
    [rewrite length_app in H; unfold HEADER_SIZE in H; lia|].
  destruct (negb (readU32BE buf 0 =? UIMAGE_MAGIC)); [reflexivity|].
  destruct (Z.gtb_spec (Z.of_nat HEADER_SIZE + readU32BE buf 12)
                       (Z.of_nat (length buf))) as [H|_];
    [unfold HEADER_SIZE in H; lia|].
  destruct (Z.gtb_spec (Z.of_nat HEADER_SIZE + readU32BE buf 12)
                       (Z.of_nat (length (buf ++ extra)))) as [H|_];
    [rewrite length_app in H; unfold HEADER_SIZE in H; lia|].
  reflexivity.
Qed.

(** The length wrapper. *)

Lemma slice_store_after (buf : Uint8Array) (off : nat) (v : Z) (s e : Z) :
  (Z.to_nat e <= off)%nat ->
  slice (store buf off v) s e = slice buf s e.
Proof.
  intros H. destruct (Nat.lt_ge_cases off (length buf)) as [Hl|Hl].
  - destruct (store_split buf off v Hl) as (pre & b & post & E & L & S).
    rewrite S, E. rewrite !slice_app_l by lia. reflexivity.
  - rewrite store_past_end by exact Hl. reflexivity.
Qed.

Section LengthWord.

Variable buf : Uint8Array.
Variable off : nat.
Variable v : Z.
Hypothesis Hoff : (64 <= off < 72)%nat.

Let buf' : Uint8Array := store buf off v.

Lemma word_read (k : nat) :
  (k + 4 <= 64)%nat -> readU32BE buf' k = readU32BE buf k.
Proof using Hoff. intros H. apply readU32BE_store_other. lia. Qed.

Lemma word_decodeHeader : decodeHeader buf' = decodeHeader buf.
Proof using Hoff.
  unfold decodeHeader, buf'.
  rewrite !readU32BE_store_other, !get_store_other by lia.
  rewrite slice_store_after by (change (Z.to_nat 64) with 64%nat; lia).
  reflexivity.
Qed.

Lemma word_scriptOf : scriptOf buf' = scriptOf buf.
Proof using Hoff.
  rewrite !scriptOf_bytes. unfold buf'.
  rewrite readU32BE_store_other, skipn_store by lia. reflexivity.
Qed.

Lemma word_payload_length :
  length (payloadOf buf') = length (payloadOf buf).
Proof using Hoff.
  unfold payloadOf, slice, buf'.
  rewrite readU32BE_store_other by lia.
  rewrite !length_firstn, !length_skipn, store_length. reflexivity.
Qed.

End LengthWord.

(** X15: the parser does not read the eight bytes of the length wrapper
    (offsets 64 to 71) beyond their checksum: with any of them replaced by
    any value, it returns the same error or the same header and script. *)
Theorem parse_ignores_length_word (buf : Uint8Array) (off : nat) (v : Z) :
  (64 <= off < 72)%nat ->
  outcome (parseLegacyUImage (store buf off v))
  = outcome (parseLegacyUImage buf).
Proof.
  intros Hoff. rewrite !parse_cases. unfold outcome.
  rewrite word_decodeHeader, word_scriptOf, word_payload_length,
    !word_read, store_length by (assumption || lia).
  destruct (length buf <? HEADER_SIZE)%nat; [reflexivity|].
  destruct (negb (readU32BE buf 0 =? UIMAGE_MAGIC)); [reflexivity|].
  destruct (Z.of_nat HEADER_SIZE + readU32BE buf 12 >? Z.of_nat (length buf));
    cbn [snd]; reflexivity.
Qed.

(** ** One corrupted byte *)

Lemma store_store_same (buf : Uint8Array) (p : nat) (v w : Z) :
  store (store buf p v) p w = store buf p w.
Proof.
  revert p. induction buf as [|b buf IH]; intros [|p]; cbn [store];
    try reflexivity.
  f_equal. apply IH.
Qed.

Lemma writeU32BE_store_inside (buf : Uint8Array) (k p : nat) (v w : Z) :
  (k <= p < k + 4)%nat ->
  writeU32BE (store buf p v) k w = writeU32BE buf k w.
Proof.
  intros H. unfold writeU32BE.
  assert (C : (p = k \/ p = k + 1 \/ p = k + 2 \/ p = k + 3)%nat) by lia.
  destruct C as [C|[C|[C|C]]]; subst p.
  - rewrite store_store_same. reflexivity.
  - rewrite (store_store_comm buf (k + 1) k) by lia.
    rewrite store_store_same. reflexivity.
  - rewrite (store_store_comm buf (k + 2) k) by lia.
    rewrite (store_store_comm _ (k + 2) (k + 1)) by lia.
    rewrite store_store_same. reflexivity.
  - rewrite (store_store_comm buf (k + 3) k) by lia.
    rewrite (store_store_comm _ (k + 3) (k + 1)) by lia.
    rewrite (store_store_comm _ (k + 3) (k + 2)) by lia.
    rewrite store_store_same. reflexivity.
Qed.

Lemma skipn_store_ge (buf : Uint8Array) (off k : nat) (v : Z) :
  (k <= off)%nat ->
  skipn k (store buf off v) = store (skipn k buf) (off - k) v.
Proof.
  revert off k.
  induction buf as [|b buf IH]; intros off k H.
  - destruct off, k; reflexivity.
  - destruct k as [|k]; [rewrite Nat.sub_0_r; reflexivity|].
    destruct off as [|off]; [lia|].
    cbn [store skipn Nat.sub]. apply IH. lia.
Qed.

(** A four-byte field reads differently when one of its bytes differs. *)
Lemma readU32BE_store_inside (buf : Uint8Array) (k p : nat) (v : Z) :
  (k <= p < k + 4)%nat -> (p < length buf)%nat ->
  v mod 256 <> get buf p ->
  readU32BE (store buf p v) k <> readU32BE buf k.
Proof.
  intros H Hl Hv. rewrite !readU32BE_spec.
  pose proof (get_store_same buf p v Hl) as Gs.
  pose proof (get_range (store buf p v) p) as R'.
  pose proof (get_range buf k). pose proof (get_range buf (k + 1)).
  pose proof (get_range buf (k + 2)). pose proof (get_range buf (k + 3)).
  change (2 ^ 24) with 16777216. change (2 ^ 16) with 65536.
  change (2 ^ 8) with 256.
  assert (C : (p = k \/ p = k + 1 \/ p = k + 2 \/ p = k + 3)%nat) by lia.
  destruct C as [C|[C|[C|C]]]; subst p;
    try rewrite (get_store_other buf _ k) by lia;
    try rewrite (get_store_other buf _ (k + 1)) by lia;
    try rewrite (get_store_other buf _ (k + 2)) by lia;
    try rewrite (get_store_other buf _ (k + 3)) by lia; lia.
Qed.

(** A sequence with one byte replaced by another has another checksum. *)
Lemma crc32_store (data : Uint8Array) (p : nat) (v : Z) :
  (p < length data)%nat -> v mod 256 <> get data p ->
  crc32 (store data p v) DEFAULT_SEED <> crc32 data DEFAULT_SEED.
Proof.
  intros Hl Hv.
  destruct (store_split data p v Hl) as (pre & b & post & E & L & S).
  rewrite S, E. apply crc32_detects_byte.
  intros Eb. apply Hv.
  pose proof (get_middle pre post b) as M. rewrite L in M.
  rewrite E, M, <- Eb, b2z_z2b. reflexivity.
Qed.

Lemma get_skipn (buf : Uint8Array) (k i : nat) :
  get (skipn k buf) i = get buf (k + i).
Proof. unfold get. rewrite nth_error_skipn. reflexivity. Qed.

Section CorruptedByte.

Variable buf : Uint8Array.
Variable off : nat.
Variable v : Z.
Hypothesis Hlen : (off < length buf)%nat.
Hypothesis Hv : v mod 256 <> get buf off.

Let buf' : Uint8Array := store buf off v.

Lemma corrupt_calcHcrc_changed :
  (off < 4 \/ 8 <= off < 64)%nat -> calcHcrc buf' <> calcHcrc buf.
Proof using Hlen Hv.
  intros H. unfold calcHcrc, buf'. rewrite !slice_0.
  change (Z.to_nat (Z.of_nat HEADER_SIZE)) with 64%nat.
  rewrite firstn_store, writeU32BE_store_comm by lia.
  apply crc32_store.
  - rewrite writeU32BE_length, length_firstn. lia.
  - rewrite get_writeU32BE_other, get_firstn by lia. exact Hv.
Qed.

Lemma corrupt_calcHcrc_same :
  (4 <= off < 8)%nat -> calcHcrc buf' = calcHcrc buf.
Proof using.
  clear Hlen Hv. intros H. unfold calcHcrc, buf'. rewrite !slice_0.
  change (Z.to_nat (Z.of_nat HEADER_SIZE)) with 64%nat.
  rewrite firstn_store, writeU32BE_store_inside by lia. reflexivity.
Qed.

Lemma corrupt_calcDcrc_changed :
  (64 <= off)%nat -> Z.of_nat off < 64 + readU32BE buf 12 ->
  calcDcrc buf' <> calcDcrc buf.
Proof using Hlen Hv.
  intros H Hs. unfold calcDcrc, payloadOf, slice, buf'.
  rewrite readU32BE_store_other by lia.
  change (Z.to_nat (Z.of_nat HEADER_SIZE)) with 64%nat.
  rewrite skipn_store_ge, firstn_store by lia.
  apply crc32_store.
  - rewrite length_firstn, length_skipn. unfold HEADER_SIZE. lia.
  - rewrite get_firstn by (unfold HEADER_SIZE; lia).
    rewrite get_skipn. replace (64 + (off - 64))%nat with off by lia.
    exact Hv.
Qed.

End CorruptedByte.

Lemma crcMismatch_hcrc (buf : Uint8Array) :
  calcHcrc buf <> readU32BE buf 4 -> crcMismatch buf = true.
Proof. intros H. apply crcMismatch_iff. right. exact H. Qed.

(** A changed byte outside the magic number and the size field: the
    structure of the image is what it was. *)
Lemma corrupt_success (buf : Uint8Array) (off : nat) (v : Z) :
  (64 <= length buf)%nat ->
  readU32BE buf 0 = UIMAGE_MAGIC ->
  64 + readU32BE buf 12 <= Z.of_nat (length buf) ->
  8 <= readU32BE buf 12 ->
  (4 <= off < 12 \/ 16 <= off)%nat ->
  crcMismatch (store buf off v) = true ->
  parseLegacyUImage (store buf off v)
  = ([CrcMismatch],
     inr (decodeHeader (store buf off v), scriptOf (store buf off v))).
Proof.
  intros Hl Hm Ho H8 Hoff Hc.
  rewrite parse_success, Hc.
  - reflexivity.
  - rewrite store_length. exact Hl.
  - rewrite readU32BE_store_other by lia. exact Hm.
  - rewrite readU32BE_store_other, store_length by lia. exact Ho.
  - rewrite readU32BE_store_other by lia. exact H8.
Qed.

Lemma decodeHeader_size (buf : Uint8Array) :
  UImageHeader.size (decodeHeader buf) = readU32BE buf 12.
Proof. reflexivity. Qed.

(** X16: on a buffer that parses without warning, a change of one byte
    within the header or the declared payload never goes unnoticed: the
    parser then shows the checksum warning, or rejects the buffer with
    BadMagic or PayloadOverrun; when the byte lies outside the magic
    number and the size field, the parser still returns a header and a
    script, with exactly one warning. *)
Theorem corrupted_byte_noticed (buf : Uint8Array) (off : nat) (v : Z)
    (h : UImageHeader.t) (s : text) :
  parseLegacyUImage buf = ([], inr (h, s)) ->
  Z.of_nat off < 64 + UImageHeader.size h ->
  v mod 256 <> get buf off ->
  (warnings (parseLegacyUImage (store buf off v)) = [CrcMismatch]
   \/ parseLegacyUImage (store buf off v) = ([], inl BadMagic)
   \/ parseLegacyUImage (store buf off v) = ([], inl PayloadOverrun))
  /\ ((4 <= off < 12 \/ 16 <= off)%nat ->
      exists h' s',
        parseLegacyUImage (store buf off v)
        = ([CrcMismatch], inr (h', s'))).
Proof.
  intros Hp Hoff Hv.
  apply parse_success_inv in Hp.
  destruct Hp as (Hl & Hm & Ho & H8 & Hw & Hh & _).
  apply no_warning_inv, crcMismatch_false in Hw.
  destruct Hw as [Hd Hhc].
  subst h. rewrite decodeHeader_size in Hoff.
  assert (Hlen : (off < length buf)%nat) by lia.
  assert (Mid : (4 <= off < 12 \/ 16 <= off)%nat ->
                crcMismatch (store buf off v) = true).
  { intros H.
    assert (C : (4 <= off < 8 \/ (8 <= off < 12 \/ 16 <= off < 64)
                 \/ 64 <= off)%nat) by lia.
    destruct C as [C|[C|C]].
    - apply crcMismatch_hcrc.
      rewrite corrupt_calcHcrc_same, Hhc by lia.
      apply not_eq_sym, readU32BE_store_inside; (assumption || lia).
    - apply crcMismatch_hcrc.
      rewrite readU32BE_store_other, <- Hhc by lia.
      apply corrupt_calcHcrc_changed; (assumption || lia).
    - apply crcMismatch_true.
      rewrite readU32BE_store_other, <- Hd by lia.
      apply corrupt_calcDcrc_changed; (assumption || lia). }
  split.
  2:{ intros H. do 2 eexists.
      apply corrupt_success; try assumption. apply Mid. exact H. }
  destruct (Nat.lt_ge_cases off 4) as [C0|C0].
  { right. left. rewrite parse_cases, store_length.
    destruct (Nat.ltb_spec (length buf) HEADER_SIZE) as [H|_];
      [unfold HEADER_SIZE in H; lia|].
    pose proof (readU32BE_store_inside buf 0 off v ltac:(lia) Hlen Hv) as N.
    rewrite Hm in N.
    destruct (Z.eqb_spec (readU32BE (store buf off v) 0) UIMAGE_MAGIC);
      [contradiction|reflexivity]. }
  destruct (Nat.lt_ge_cases off 12) as [C1|C1].
  { left. rewrite corrupt_success; try assumption; [reflexivity|lia|].
    apply Mid. lia. }
  destruct (Nat.lt_ge_cases off 16) as [C2|C2].
  2:{ left. rewrite corrupt_success; try assumption; [reflexivity|lia|].
      apply Mid. lia. }
  (* the size field *)
  assert (Hc : crcMismatch (store buf off v) = true).
  { apply crcMismatch_hcrc.
    rewrite readU32BE_store_other, <- Hhc by lia.
    apply corrupt_calcHcrc_changed; (assumption || lia). }
  rewrite parse_cases, store_length, Hc.
  rewrite (readU32BE_store_other buf 0) by lia. rewrite Hm, Z.eqb_refl.
  destruct (Nat.ltb_spec (length buf) HEADER_SIZE) as [H|_];
    [unfold HEADER_SIZE in H; lia|]. cbn [negb].
  destruct (Z.of_nat HEADER_SIZE + readU32BE (store buf off v) 12
            >? Z.of_nat (length buf)).
  - right. right. reflexivity.
  - left. reflexivity.
Qed.

(** ** The text the parser returns

    The decoder keeps to the states of [utf8_ok], from which it only
    outputs scalar values. *)

Lemma is_scalar_bounds (cp : Z) :
  0 <= cp <= 0x10FFFF -> cp < 0xD800 \/ 0xDFFF < cp -> is_scalar cp = true.
Proof.
  intros Hr Hs. unfold is_scalar, is_surrogate.
  destruct (Z.leb_spec 0 cp); [|lia].
  destruct (Z.leb_spec cp 0x10FFFF); [|lia].
  destruct (Z.leb_spec 0xD800 cp), (Z.leb_spec cp 0xDFFF);
    try reflexivity; lia.
Qed.

Lemma utf8_init_ok : utf8_ok utf8_init.
Proof. left. reflexivity. Qed.

(** A byte read while no sequence is open. *)
Lemma utf8_lead_ok (b : Z) :
  0 <= b < 256 ->
  well_formed (fst (utf8_lead b)) = true /\ utf8_ok (snd (utf8_lead b)).
Proof.
  intros Hb. unfold utf8_lead.
  destruct (Z.leb_spec b 0x7F).
  { split; [|apply utf8_init_ok]. cbn [fst well_formed forallb].
    rewrite is_scalar_bounds by lia. reflexivity. }
  destruct (Z.leb_spec 0xC2 b), (Z.leb_spec b 0xDF); cbn [andb fst snd];
    try (split; [reflexivity|right; left; cbn; lia]).
  all: destruct (Z.leb_spec 0xE0 b), (Z.leb_spec b 0xEF); cbn [andb fst snd];
    try (split; [reflexivity|];
         right; right; left; cbn;
         destruct (Z.eqb_spec b 0xE0), (Z.eqb_spec b 0xED); lia).
  all: destruct (Z.leb_spec 0xF0 b), (Z.leb_spec b 0xF4); cbn [andb fst snd];
    try (split; [reflexivity|];
         right; right; right; right; left; cbn;
         destruct (Z.eqb_spec b 0xF0), (Z.eqb_spec b 0xF4); lia).
  all: split; [reflexivity|apply utf8_init_ok].
Qed.

Lemma utf8_step_ok (st : utf8_state) (b : Z) :
  utf8_ok st -> 0 <= b < 256 ->
  well_formed (fst (utf8_step st b)) = true /\ utf8_ok (snd (utf8_step st b)).
Proof.
  intros Hok Hb. destruct st as [cp seen needed lo hi].
  unfold utf8_step. cbn [u_cp u_seen u_needed u_lower u_upper].
  destruct (Z.eqb_spec needed 0) as [Hn|Hn]; [apply utf8_lead_ok; exact Hb|].
  destruct (Z.ltb_spec b lo) as [Hlo|Hlo]; cbn [orb].
  { destruct (utf8_lead_ok b Hb) as [W O].
    destruct (utf8_lead b) as [out st']. cbn [fst snd] in *.
    split; [|exact O]. cbn [well_formed forallb]. exact W. }
  destruct (Z.ltb_spec hi b) as [Hhi|Hhi].
  { destruct (utf8_lead_ok b Hb) as [W O].
    destruct (utf8_lead b) as [out st']. cbn [fst snd] in *.
    split; [|exact O]. cbn [well_formed forallb]. exact W. }
  unfold utf8_ok in Hok. cbn [u_cp u_seen u_needed u_lower u_upper] in Hok.
  destruct Hok as [H|[H|[H|[H|[H|[H|H]]]]]]; [contradiction| | | | | |];
    destruct (Z.eqb_spec (seen + 1) needed) as [Hs|Hs]; cbn [fst snd];
    try lia.
  - split; [|apply utf8_init_ok]. cbn [well_formed forallb].
    rewrite is_scalar_bounds by lia. reflexivity.
  - split; [reflexivity|]. right. right. right. left. cbn.
    assert (cp = 0 \/ cp = 0xD \/ (cp <> 0 /\ cp <> 0xD)) as [C|[C|C]] by lia;
      lia.
  - split; [|apply utf8_init_ok]. cbn [well_formed forallb].
    rewrite is_scalar_bounds by lia. reflexivity.
  - split; [reflexivity|]. right. right. right. right. right. left. cbn.
    assert (cp = 0 \/ cp = 4 \/ (cp <> 0 /\ cp <> 4)) as [C|[C|C]] by lia;
      lia.
  - split; [reflexivity|]. right. right. right. right. right. right. cbn.
    lia.
  - split; [|apply utf8_init_ok]. cbn [well_formed forallb].
    rewrite is_scalar_bounds by lia. reflexivity.
Qed.

Lemma well_formed_app (s1 s2 : text) :
  well_formed s1 = true -> well_formed s2 = true ->
  well_formed (s1 ++ s2) = true.
Proof.
  unfold well_formed. intros H1 H2. rewrite forallb_app, H1, H2. reflexivity.
Qed.

Lemma utf8_run_ok (bytes : Uint8Array) :
  forall st, utf8_ok st -> well_formed (utf8_run st bytes) = true.
Proof.
  induction bytes as [|b rest IH]; intros st Hok.
  - cbn [utf8_run]. destruct (u_needed st =? 0); reflexivity.
  - rewrite utf8_run_cons.
    destruct (utf8_step_ok st (b2z b) Hok (b2z_range b)) as [W O].
    apply well_formed_app; [exact W|apply IH; exact O].
Qed.

Lemma strip_bom_ok (s : text) :
  well_formed s = true -> well_formed (strip_bom s) = true.
Proof.
  destruct s as [|cp s]; [reflexivity|]. cbn [strip_bom].
  destruct (cp =? 0xFEFF); [|exact (fun H => H)].
  cbn [well_formed forallb]. intros H. apply andb_true_iff in H. apply H.
Qed.

(** What the decoder returns is well-formed, whatever the bytes. *)
Lemma decode_well_formed (bytes : Uint8Array) :
  well_formed (TextDecoder_utf8_decode bytes) = true.
Proof.
  unfold TextDecoder_utf8_decode. apply strip_bom_ok, utf8_run_ok.
  apply utf8_init_ok.
Qed.

(** X17: the script text the parser returns is well-formed, whatever the
    bytes of the payload: every code point is a Unicode scalar value, none
    a lone surrogate; encoded and decoded again it comes back, up to a
    leading U+FEFF. *)
Theorem parse_script_well_formed (buf : Uint8Array) (w : list warning)
    (h : UImageHeader.t) (s : text) :
  parseLegacyUImage buf = (w, inr (h, s)) ->
  well_formed s = true
  /\ TextDecoder_utf8_decode (TextEncoder_encode s) = strip_bom s.
Proof.
  intros E. apply parse_success_inv in E.
  destruct E as (_ & _ & _ & _ & _ & _ & Hs). subst s.
  assert (W : well_formed (scriptOf buf) = true)
    by (unfold scriptOf; apply decode_well_formed).
  split; [exact W|].
  unfold TextDecoder_utf8_decode at 1. rewrite utf8_run_encode by exact W.
  reflexivity.
Qed.

(** ** What the builder writes *)

(** X18: the builder never throws, and in the header it emits the magic
    number is 0x27051956, the timestamp is the clock value in whole seconds
    modulo 2^32, the load address and the entry point are those of the
    previous header, or the defaults when it has none, modulo 2^32, the OS,
    architecture, type and compression bytes are those of the previous
    header, or 5, 2, 6 and 0, modulo 256, and the name field is what
    [encodeName] makes of the name of the previous header, or of the
    default name. *)
Theorem build_header_fields (args : BuildArgs) (now : Z) :
  exists out,
    buildLegacyScriptImage args now = Some out
    /\ readU32BE out 0 = UIMAGE_MAGIC
    /\ readU32BE out 8 = (now / 1000) mod 2 ^ 32
    /\ readU32BE out 16 = built_loadAddr args mod 2 ^ 32
    /\ readU32BE out 20 = built_entryPoint args mod 2 ^ 32
    /\ get out 28 = built_os args mod 256
    /\ get out 29 = built_arch args mod 256
    /\ get out 30 = built_type args mod 256
    /\ get out 31 = built_comp args mod 256
    /\ encodeName (built_name args) = Some (slice out 32 64).
Proof.
  exists (image args now). split; [apply build_eq|].
  unfold image, image_header, image_header_with.
  rewrite read_magic, read_timestamp, read_loadAddr, read_entryPoint,
    read_os, read_arch, read_type, read_comp, read_name_field, encodeName_eq.
  repeat split.
Qed.

(** X19: the output of the builder does not depend on the magic, hcrc,
    timestamp, size and dcrc fields of the previous header, and with a
    complete previous header it does not depend on the defaults. *)
Theorem build_ignores_stale_fields (scriptText : text) (p : PartialHeader.t)
    (magic hcrc timestamp size dcrc : option Z)
    (dName : text) (dLoadAddr dEntryPoint now : Z) :
  buildLegacyScriptImage
    (mk_args scriptText
       (Some (PartialHeader.mk magic hcrc timestamp size
                (PartialHeader.loadAddr p) (PartialHeader.entryPoint p) dcrc
                (PartialHeader.os p) (PartialHeader.arch p)
                (PartialHeader.type p) (PartialHeader.comp p)
                (PartialHeader.name p)))
       dName dLoadAddr dEntryPoint) now
  = buildLegacyScriptImage
      (mk_args scriptText (Some p) dName dLoadAddr dEntryPoint) now
  /\ forall (h : UImageHeader.t) (dName' : text)
        (dLoadAddr' dEntryPoint' : Z),
      buildLegacyScriptImage
        (mk_args scriptText (Some (PartialHeader.of_header h))
                 dName dLoadAddr dEntryPoint) now
      = buildLegacyScriptImage
          (mk_args scriptText (Some (PartialHeader.of_header h))
                   dName' dLoadAddr' dEntryPoint') now.
Proof.
  split; [|intros h dName' dLoadAddr' dEntryPoint'];
    rewrite !build_eq; reflexivity.
Qed.

Lemma text_eqb_refl (a : text) : text_eqb a a = true.
Proof.
  unfold text_eqb. destruct (list_eq_dec Z.eq_dec a a); [reflexivity|].
  contradiction.
Qed.

(** A name that the parser returned is a valid name as soon as it is
    ASCII. *)
Lemma decodeName_valid (buf : Uint8Array) :
  ascii_name (decodeName (slice buf 32 64)) = true ->
  valid_name (decodeName (slice buf 32 64)) = true.
Proof.
  intros Ha. unfold valid_name. rewrite Ha.
  pose proof (decodeName_length (slice buf 32 64)) as N.
  pose proof (slice_length_le buf 32 64) as L.
  change (Z.to_nat 64 - Z.to_nat 32)%nat with 32%nat in L.
  rewrite decodeName_until_nul at 2 3. rewrite trim_trim.
  rewrite <- decodeName_until_nul, text_eqb_refl.
  destruct (Nat.leb_spec (length (decodeName (slice buf 32 64))) 32);
    [reflexivity|lia].
Qed.

(** The image built from a header that the parser returned. *)
Section RebuiltImage.

Variable buf : Uint8Array.
Variable w : list warning.
Variable h : UImageHeader.t.
Variable s : text.
Variables scriptText dName : text.
Variables dLoadAddr dEntryPoint now : Z.
Hypothesis Hparse : parseLegacyUImage buf = (w, inr (h, s)).

Let args : BuildArgs :=
  mk_args scriptText (Some (PartialHeader.of_header h))
          dName dLoadAddr dEntryPoint.

Lemma rebuilt_parse :
  well_formed scriptText = true ->
  starts_with_bom scriptText = false ->
  8 + Z.of_nat (length (TextEncoder_encode scriptText)) < 2 ^ 32 ->
  parseLegacyUImage (image args now)
  = ([], inr (decodeHeader (image args now), scriptText)).
Proof using.
  clear Hparse. intros Hwf Hbom Hfit.
  rewrite parse_image by exact Hfit.
  change (script args) with scriptText.
  rewrite decode_encode, strip_bom_none by assumption. reflexivity.
Qed.

Lemma rebuilt_fields :
  UImageHeader.timestamp (decodeHeader (image args now))
  = (now / 1000) mod 2 ^ 32
  /\ UImageHeader.loadAddr (decodeHeader (image args now))
     = UImageHeader.loadAddr h
  /\ UImageHeader.entryPoint (decodeHeader (image args now))
     = UImageHeader.entryPoint h
  /\ UImageHeader.os (decodeHeader (image args now)) = UImageHeader.os h
  /\ UImageHeader.arch (decodeHeader (image args now)) = UImageHeader.arch h
  /\ UImageHeader.type (decodeHeader (image args now)) = UImageHeader.type h
  /\ UImageHeader.comp (decodeHeader (image args now)) = UImageHeader.comp h
  /\ (ascii_name (UImageHeader.name h) = true ->
      UImageHeader.name (decodeHeader (image args now))
      = UImageHeader.name h).
Proof using Hparse.
  apply parse_success_inv in Hparse.
  destruct Hparse as (_ & _ & _ & _ & _ & Hh & _).
  rewrite decoded_timestamp, decoded_loadAddr, decoded_entryPoint,
    decoded_name, decoded_os, decoded_arch, decoded_type, decoded_comp.
  change (built_loadAddr args) with (UImageHeader.loadAddr h).
  change (built_entryPoint args) with (UImageHeader.entryPoint h).
  change (built_name args) with (UImageHeader.name h).
  change (built_os args) with (UImageHeader.os h).
  change (built_arch args) with (UImageHeader.arch h).
  change (built_type args) with (UImageHeader.type h).
  change (built_comp args) with (UImageHeader.comp h).
  rewrite Hh. unfold decodeHeader.
  cbn [UImageHeader.loadAddr UImageHeader.entryPoint UImageHeader.os
       UImageHeader.arch UImageHeader.type UImageHeader.comp
       UImageHeader.name].
  repeat split;
    try (apply JSFacts.ToUint32_small, readU32BE_nonneg);
    try (apply Z.mod_small, get_range).
  intros Ha. apply decodeName_name_field, decodeName_valid. exact Ha.
Qed.

End RebuiltImage.

(** X20: a header that the parser returned, passed as previous header to
    the builder with a new script text (well-formed, not beginning with
    U+FEFF, fitting the 32-bit size field), gives a container that parses
    without warning to that text and to a header with the same load
    address, entry point, OS, architecture, type and compression, with the
    timestamp of the build, and with the same name when the name is
    ASCII. *)
Theorem reparse_after_rebuild (buf : Uint8Array) (w : list warning)
    (h : UImageHeader.t) (s : text) (scriptText dName : text)
    (dLoadAddr dEntryPoint now : Z) :
  parseLegacyUImage buf = (w, inr (h, s)) ->
  well_formed scriptText = true ->
  starts_with_bom scriptText = false ->
  8 + Z.of_nat (length (TextEncoder_encode scriptText)) < 2 ^ 32 ->
  exists out h',
    buildLegacyScriptImage
      (mk_args scriptText (Some (PartialHeader.of_header h))
               dName dLoadAddr dEntryPoint) now = Some out
    /\ parseLegacyUImage out = ([], inr (h', scriptText))
    /\ UImageHeader.timestamp h' = (now / 1000) mod 2 ^ 32
    /\ UImageHeader.loadAddr h' = UImageHeader.loadAddr h
    /\ UImageHeader.entryPoint h' = UImageHeader.entryPoint h
    /\ UImageHeader.os h' = UImageHeader.os h
    /\ UImageHeader.arch h' = UImageHeader.arch h
    /\ UImageHeader.type h' = UImageHeader.type h
    /\ UImageHeader.comp h' = UImageHeader.comp h
    /\ (ascii_name (UImageHeader.name h) = true ->
        UImageHeader.name h' = UImageHeader.name h).
Proof.
  intros Hparse Hwf Hbom Hfit.
  exists (image (mk_args scriptText (Some (PartialHeader.of_header h))
                         dName dLoadAddr dEntryPoint) now).
  eexists. split; [apply build_eq|]. split.
  - apply rebuilt_parse; assumption.
  - apply (rebuilt_fields buf w h s). exact Hparse.
Qed.

(** The image is made of the script, of the seven fields the builder
    chooses and of the clock value in whole seconds. *)
Lemma image_ext (args1 args2 : BuildArgs) (now1 now2 : Z) :
  script args1 = script args2 ->
  built_loadAddr args1 = built_loadAddr args2 ->
  built_entryPoint args1 = built_entryPoint args2 ->
  built_os args1 = built_os args2 ->
  built_arch args1 = built_arch args2 ->
  built_type args1 = built_type args2 ->
  built_comp args1 = built_comp args2 ->
  built_name args1 = built_name args2 ->
  now1 / 1000 = now2 / 1000 ->
  image args1 now1 = image args2 now2.
Proof.
  intros Hs Hl He Ho Ha Ht Hc Hn Hnow.
  unfold image, image_header, image_header_with, image_payload.
  rewrite Hs, Hl, He, Ho, Ha, Ht, Hc, Hn, Hnow. reflexivity.
Qed.

(** X21: saving again changes nothing: a container built from a header
    that the parser returned, with an ASCII name, parses to a header from
    which the builder, with the same script text and at any clock value
    within the same clock second, emits the same bytes, whatever the
    defaults. *)
Theorem resave_is_stable (buf : Uint8Array) (w : list warning)
    (h : UImageHeader.t) (s : text) (scriptText dName : text)
    (dLoadAddr dEntryPoint now : Z) :
  parseLegacyUImage buf = (w, inr (h, s)) ->
  ascii_name (UImageHeader.name h) = true ->
  well_formed scriptText = true ->
  starts_with_bom scriptText = false ->
  8 + Z.of_nat (length (TextEncoder_encode scriptText)) < 2 ^ 32 ->
  exists out h',
    buildLegacyScriptImage
      (mk_args scriptText (Some (PartialHeader.of_header h))
               dName dLoadAddr dEntryPoint) now = Some out
    /\ parseLegacyUImage out = ([], inr (h', scriptText))
    /\ forall (dName' : text) (dLoadAddr' dEntryPoint' now' : Z),
         now' / 1000 = now / 1000 ->
         buildLegacyScriptImage
           (mk_args scriptText (Some (PartialHeader.of_header h'))
                    dName' dLoadAddr' dEntryPoint') now' = Some out.
Proof.
  intros Hparse Ha Hwf Hbom Hfit.
  set (args := mk_args scriptText (Some (PartialHeader.of_header h))
                       dName dLoadAddr dEntryPoint).
  exists (image args now), (decodeHeader (image args now)).
  split; [apply build_eq|]. split.
  { apply rebuilt_parse; assumption. }
  intros dName' dLoadAddr' dEntryPoint' now' Hnow. rewrite build_eq. f_equal.
  destruct (rebuilt_fields buf w h s scriptText dName dLoadAddr dEntryPoint
              now Hparse)
    as (_ & Fl & Fe & Fo & Fa & Ft & Fc & Fn).
  fold args in Fl, Fe, Fo, Fa, Ft, Fc, Fn.
  apply image_ext; [reflexivity|exact Fl|exact Fe|exact Fo|exact Fa|exact Ft
                   |exact Fc|exact (Fn Ha)|exact Hnow].
Qed.

(** * Properties of the custom editor *)

Lemma text_eqb_neq (a b : text) : a <> b -> text_eqb a b = false.
Proof.
  intros H. unfold text_eqb.
  destruct (list_eq_dec Z.eq_dec a b); [contradiction|reflexivity].
Qed.

Lemma markDirty_run (d : BootScrDocument.t) (dirty : bool) (st : Host.state) :
  markDirty d dirty st
  = (inr (BootScrDocument.mk (BootScrDocument.uri d)
                             (BootScrDocument.state d) dirty),
     Host.mk (Host.files st) (Host.trace st ++ [DidChangeDocument])).
Proof. reflexivity. Qed.

Lemma host_build_run (args : BuildArgs) (now : Z) (st : Host.state) :
  host_build args now st = (inr (image args now), st).
Proof. unfold host_build. rewrite build_eq. reflexivity. Qed.

Lemma host_parse_run (bytes : Uint8Array) (st : Host.state) :
  host_parse bytes st
  = (match outcome (parseLegacyUImage bytes) with
     | inl e => inl (ParseError e)
     | inr parsed => inr parsed
     end,
     Host.mk (Host.files st)
             (Host.trace st
              ++ map ShowWarningMessage (warnings (parseLegacyUImage bytes)))).
Proof.
  unfold host_parse, outcome, warnings.
  destruct (parseLegacyUImage bytes) as [w [e|p]]; reflexivity.
Qed.

Lemma create_run (uri : Uri) (st : Host.state) :
  create uri st
  = match Host.files st uri with
    | None => (inl (FileNotFound uri), st)
    | Some bytes =>
        (match outcome (parseLegacyUImage bytes) with
         | inl e => inl (ParseError e)
         | inr parsed =>
             inr (BootScrDocument.mk uri
                    (BootScrState.mk (snd parsed) (Some (fst parsed))) false)
         end,
         Host.mk (Host.files st)
                 (Host.trace st
                  ++ map ShowWarningMessage
                         (warnings (parseLegacyUImage bytes))))
    end.
Proof.
  unfold create, Host.bind, Host.readFile.
  destruct (Host.files st uri) as [bytes|]; [|reflexivity].
  rewrite host_parse_run.
  destruct (outcome (parseLegacyUImage bytes)); reflexivity.
Qed.

Lemma save_run (d : BootScrDocument.t) (now : Z) (st : Host.state) :
  saveCustomDocument d false now st
  = (inr (BootScrDocument.mk (BootScrDocument.uri d)
                             (BootScrDocument.state d) false),
     Host.mk (fun u => if String.eqb u (BootScrDocument.uri d)
                       then Some (image (save_args d) now)
                       else Host.files st u)
             (Host.trace st ++ [DidChangeDocument])).
Proof.
  unfold saveCustomDocument, Host.bind. rewrite host_build_run. reflexivity.
Qed.

Lemma create_inv (uri : Uri) (st st1 : Host.state) (d : BootScrDocument.t) :
  create uri st = (inr d, st1) ->
  exists bytes h s,
    Host.files st uri = Some bytes
    /\ parseLegacyUImage bytes
       = (warnings (parseLegacyUImage bytes), inr (h, s))
    /\ d = BootScrDocument.mk uri (BootScrState.mk s (Some h)) false
    /\ Host.files st1 = Host.files st.
Proof.
  rewrite create_run.
  destruct (Host.files st uri) as [bytes|]; [|discriminate].
  unfold outcome, warnings.
  destruct (parseLegacyUImage bytes) as [w [e|[h s]]] eqn:P; cbn [fst snd];
    [discriminate|].
  intros E. injection E as Ed Es. subst d st1.
  exists bytes, h, s. rewrite P. repeat split.
Qed.

(** X22: an edit message with a text other than the current one replaces
    the text, marks the document dirty and fires one edit event; the undo
    closure of that event puts the previous text back and posts it to the
    webview with [dirty: true], leaving the document dirty; the redo
    closure gives the edited document again; no file is touched. *)
Theorem edit_undo_redo (executeCommand : HostCommand)
    (document : BootScrDocument.t) (after : text) (st : Host.state) :
  let uri := BootScrDocument.uri document in
  let before := BootScrState.text (BootScrDocument.state document) in
  let header := BootScrState.header (BootScrDocument.state document) in
  let edited :=
    BootScrDocument.mk uri (BootScrState.mk after header) true in
  let undone :=
    BootScrDocument.mk uri (BootScrState.mk before header) true in
  after <> before ->
  exists st1 st2 st3,
    onDidReceiveMessage executeCommand document
      (Some (Message.mk "edit" (Some after))) st
    = (inr edited, st1)
    /\ Host.trace st1
       = Host.trace st
         ++ [DidChangeDocument;
             DidChangeCustomDocument
               (EditEvent "Edit boot.scr script" before after)]
    /\ undo edited before st1 = (inr undone, st2)
    /\ BootScrDocument.state undone = BootScrDocument.state document
    /\ (exists meta,
          Host.trace st2
          = Host.trace st1
            ++ [DidChangeDocument;
                PostMessage (InitMessage.mk "init" before meta)]
          /\ Meta.dirty meta = true)
    /\ redo undone after st2 = (inr edited, st3)
    /\ Host.files st3 = Host.files st.
Proof.
  intros uri before header edited undone Hne.
  do 3 eexists.
  split.
  { unfold onDidReceiveMessage. cbn [type_is Message.type Message.text].
    change (String.eqb "edit" "requestInit") with false.
    change (String.eqb "edit" "undo") with false.
    change (String.eqb "edit" "redo") with false.
    change (String.eqb "edit" "edit") with true. cbv iota.
    fold before. rewrite text_eqb_neq by congruence.
    reflexivity. }
  split; [cbn [Host.trace]; rewrite <- app_assoc; reflexivity|].
  split; [reflexivity|].
  split; [destruct document as [u [t h] dty]; reflexivity|].
  split.
  { eexists. split.
    - cbn [Host.trace]. rewrite <- !app_assoc. reflexivity.
    - reflexivity. }
  split; reflexivity.
Qed.

Lemma text_eqb_false (a b : text) : text_eqb a b = false -> a <> b.
Proof. intros H E. subst b. rewrite text_eqb_refl in H. discriminate. Qed.

(** Recording a call and handing the document that a command returns on
    is running the command after the record. *)
Lemma bind_ret_run (e : host_event) (m : Host.t BootScrDocument.t)
    (st : Host.state) :
  (_ <~ Host.emit e ;; document <~ m ;; Host.ret document) st
  = m (Host.mk (Host.files st) (Host.trace st ++ [e])).
Proof.
  unfold Host.bind, Host.emit, Host.ret.
  destruct (m _) as [[err|d] st']; reflexivity.
Qed.

(** X23: a message of type "undo" or "redo" is handed to the undo or redo
    command of the host, and what the command does, to the document or by
    being rejected, is what the handler does: the handler records the call
    and adds nothing of its own.  On any other message the handler does
    not throw and does not touch the files, the URI or the header of the
    document; it changes the document only on a message of type "edit"
    that carries a string other than the current text, which becomes the
    text of the document, marked dirty. *)
Theorem message_changes_only_on_edit (executeCommand : HostCommand)
    (document : BootScrDocument.t) (msg : option Message.t)
    (st : Host.state) :
  (type_is msg "undo" = true ->
   onDidReceiveMessage executeCommand document msg st
   = executeCommand "undo"%string document
       (Host.mk (Host.files st) (Host.trace st ++ [ExecuteCommand "undo"])))
  /\ (type_is msg "redo" = true ->
      onDidReceiveMessage executeCommand document msg st
      = executeCommand "redo"%string document
          (Host.mk (Host.files st) (Host.trace st ++ [ExecuteCommand "redo"])))
  /\ (type_is msg "undo" = false ->
      type_is msg "redo" = false ->
      exists d' st',
        onDidReceiveMessage executeCommand document msg st = (inr d', st')
        /\ Host.files st' = Host.files st
        /\ BootScrDocument.uri d' = BootScrDocument.uri document
        /\ BootScrState.header (BootScrDocument.state d')
           = BootScrState.header (BootScrDocument.state document)
        /\ (d' <> document ->
            exists m,
              msg = Some m
              /\ Message.type m = "edit"%string
              /\ Message.text m
                 = Some (BootScrState.text (BootScrDocument.state d'))
              /\ BootScrState.text (BootScrDocument.state d')
                 <> BootScrState.text (BootScrDocument.state document)
              /\ BootScrDocument.isDirty d' = true)).
Proof.
  unfold onDidReceiveMessage.
  split; [|split].
  - intros Hu. rewrite Hu.
    destruct msg as [[ty tx]|]; [|discriminate].
    cbn [type_is Message.type] in *.
    apply String.eqb_eq in Hu. subst ty.
    change (String.eqb "undo" "requestInit") with false. cbv iota.
    apply bind_ret_run.
  - intros Hr. rewrite Hr.
    destruct msg as [[ty tx]|]; [|discriminate].
    cbn [type_is Message.type] in *.
    apply String.eqb_eq in Hr. subst ty.
    change (String.eqb "redo" "requestInit") with false.
    change (String.eqb "redo" "undo") with false. cbv iota.
    apply bind_ret_run.
  - intros Hu Hr. rewrite Hu, Hr.
    destruct msg as [[ty tx]|]; cbn [type_is Message.type Message.text].
    2:{ exists document, st. repeat split. intros H. contradiction H.
        reflexivity. }
    destruct (String.eqb ty "requestInit").
    { eexists. eexists. split; [reflexivity|]. repeat split.
      intros H. contradiction H. reflexivity. }
    destruct (String.eqb_spec ty "edit") as [Hty|Hty].
    2:{ exists document, st. repeat split. intros H. contradiction H.
        reflexivity. }
    destruct tx as [after|].
    2:{ exists document, st. repeat split. intros H. contradiction H.
        reflexivity. }
    destruct (text_eqb (BootScrState.text (BootScrDocument.state document))
                       after) eqn:E.
    { exists document, st. repeat split. intros H. contradiction H.
      reflexivity. }
    apply text_eqb_false in E.
    eexists. eexists. split; [reflexivity|]. repeat split.
    intros _. exists (Message.mk ty (Some after)).
    repeat split; [exact Hty|]. cbn. congruence.
Qed.

Lemma undo_stack_app (t1 t2 : list host_event) :
  undo_stack (t1 ++ t2) = undo_stack t2 ++ undo_stack t1.
Proof.
  induction t1 as [|e t1 IH]; [cbn; rewrite app_nil_r; reflexivity|].
  destruct e as [w| |m|c|[l b a|]]; cbn [app undo_stack]; try exact IH.
  rewrite IH, app_assoc. reflexivity.
Qed.

Lemma undo_run (d : BootScrDocument.t) (before : text) (st : Host.state) :
  exists st',
    undo d before st
    = (inr (BootScrDocument.mk (BootScrDocument.uri d)
              (BootScrState.mk before
                 (BootScrState.header (BootScrDocument.state d))) true),
       st')
    /\ Host.files st' = Host.files st.
Proof. eexists. split; reflexivity. Qed.

Lemma undo_all_app (d : BootScrDocument.t) (s1 s2 : list (text * text))
    (st : Host.state) :
  undo_all d (s1 ++ s2) st
  = match undo_all d s1 st with
    | (inl e, st') => (inl e, st')
    | (inr d', st') => undo_all d' s2 st'
    end.
Proof.
  revert d st. induction s1 as [|[b a] s1 IH]; intros d st; [reflexivity|].
  cbn [app undo_all]. unfold Host.bind at 1 2.
  destruct (undo_run d b st) as (st' & E & _). rewrite E. apply IH.
Qed.

(** One edit message: nothing happens, or the text changes and one edit
    event is fired. *)
Lemma edit_step (executeCommand : HostCommand) (d : BootScrDocument.t)
    (t : text) (st : Host.state) :
  exists d' new,
    onDidReceiveMessage executeCommand d
      (Some (Message.mk "edit" (Some t))) st
    = (inr d', Host.mk (Host.files st) (Host.trace st ++ new))
    /\ BootScrState.text (BootScrDocument.state d') = t
    /\ (undo_stack new = []
        /\ BootScrState.text (BootScrDocument.state d) = t
        \/ undo_stack new
           = [(BootScrState.text (BootScrDocument.state d), t)]).
Proof.
  unfold onDidReceiveMessage. cbn [type_is Message.type Message.text].
  change (String.eqb "edit" "requestInit") with false.
  change (String.eqb "edit" "undo") with false.
  change (String.eqb "edit" "redo") with false.
  change (String.eqb "edit" "edit") with true. cbv iota.
  destruct (text_eqb (BootScrState.text (BootScrDocument.state d)) t) eqn:E.
  - apply text_eqb_eq in E. exists d, [].
    rewrite app_nil_r. destruct st as [f tr].
    split; [reflexivity|]. split; [exact E|]. left.
    split; [reflexivity|exact E].
  - eexists. eexists. unfold Host.bind. rewrite markDirty_run.
    cbn [Host.emit Host.ret Host.files Host.trace].
    rewrite <- app_assoc. split; [reflexivity|].
    split; [reflexivity|]. right. reflexivity.
Qed.

Lemma handle_edits_undo (executeCommand : HostCommand) (texts : list text) :
  forall (d : BootScrDocument.t) (st : Host.state),
  exists d1 new,
    handle_edits executeCommand d texts st
    = (inr d1, Host.mk (Host.files st) (Host.trace st ++ new))
    /\ forall st', exists d2 st2,
         undo_all d1 (undo_stack new) st' = (inr d2, st2)
         /\ BootScrState.text (BootScrDocument.state d2)
            = BootScrState.text (BootScrDocument.state d)
         /\ Host.files st2 = Host.files st'.
Proof.
  induction texts as [|t rest IH]; intros d st.
  - exists d, []. rewrite app_nil_r. destruct st as [f tr].
    split; [reflexivity|]. intros st'. exists d, st'. repeat split.
  - destruct (edit_step executeCommand d t st) as (d' & new & E & Ht & Hs).
    destruct (IH d' (Host.mk (Host.files st) (Host.trace st ++ new)))
      as (d1 & new' & E' & Hu).
    exists d1, (new ++ new'). split.
    { cbn [handle_edits]. unfold Host.bind. rewrite E, E'.
      cbn [Host.files Host.trace]. rewrite app_assoc. reflexivity. }
    intros st'. rewrite undo_stack_app, undo_all_app.
    destruct (Hu st') as (d2 & st2 & U & T & F). rewrite U.
    destruct Hs as [[Hs Hsame]|Hs]; rewrite Hs.
    + exists d2, st2. repeat split; [congruence|exact F].
    + cbn [undo_all]. unfold Host.bind.
      destruct (undo_run d2 (BootScrState.text (BootScrDocument.state d)) st2)
        as (st3 & E3 & F3).
      rewrite E3. eexists. eexists. split; [reflexivity|].
      split; [reflexivity|congruence].
Qed.

(** X24: after any sequence of edit messages, the undo closures of the
    edit events that were fired, run from the latest to the earliest, give
    the document its first text again, without touching a file. *)
Theorem undo_stack_unwinds (executeCommand : HostCommand)
    (document : BootScrDocument.t) (texts : list text) (st : Host.state) :
  exists edited st1 undone st2,
    handle_edits executeCommand document texts st = (inr edited, st1)
    /\ undo_all edited
         (undo_stack (skipn (length (Host.trace st)) (Host.trace st1))) st1
       = (inr undone, st2)
    /\ BootScrState.text (BootScrDocument.state undone)
       = BootScrState.text (BootScrDocument.state document)
    /\ Host.files st2 = Host.files st.
Proof.
  destruct (handle_edits_undo executeCommand texts document st)
    as (d1 & new & E & Hu).
  destruct (Hu (Host.mk (Host.files st) (Host.trace st ++ new)))
    as (d2 & st2 & U & T & F).
  exists d1. eexists. exists d2, st2.
  split; [exact E|]. cbn [Host.trace].
  rewrite skipn_app, Nat.sub_diag, skipn_all. cbn [skipn app].
  split; [exact U|]. split; [exact T|exact F].
Qed.

Lemma edit_result (executeCommand : HostCommand)
    (document : BootScrDocument.t) (scriptText : text) (st : Host.state) :
  exists edited st',
    onDidReceiveMessage executeCommand document
      (Some (Message.mk "edit" (Some scriptText))) st = (inr edited, st')
    /\ BootScrDocument.uri edited = BootScrDocument.uri document
    /\ BootScrDocument.state edited
       = BootScrState.mk scriptText
           (BootScrState.header (BootScrDocument.state document))
    /\ Host.files st' = Host.files st.
Proof.
  unfold onDidReceiveMessage. cbn [type_is Message.type Message.text].
  change (String.eqb "edit" "requestInit") with false.
  change (String.eqb "edit" "undo") with false.
  change (String.eqb "edit" "redo") with false.
  change (String.eqb "edit" "edit") with true. cbv iota.
  destruct (text_eqb (BootScrState.text (BootScrDocument.state document))
                     scriptText) eqn:E.
  - apply text_eqb_eq in E. exists document, st. repeat split.
    destruct document as [u [t h] dty]. cbn in *. subst t. reflexivity.
  - eexists. eexists. split; [reflexivity|]. repeat split.
Qed.

Lemma eqb_refl_if {A : Type} (u : Uri) (a : A) (b : option A) :
  (if String.eqb u u then Some a else b) = Some a.
Proof. rewrite String.eqb_refl. reflexivity. Qed.

Lemma save_args_eq (d : BootScrDocument.t) (scriptText : text)
    (h : UImageHeader.t) :
  BootScrDocument.state d = BootScrState.mk scriptText (Some h) ->
  save_args d
  = mk_args scriptText (Some (PartialHeader.of_header h))
            (UImageHeader.name h) (UImageHeader.loadAddr h)
            (UImageHeader.entryPoint h).
Proof. intros E. unfold save_args. rewrite E. reflexivity. Qed.

(** A file that holds an image built from a parsed header opens without
    warning. *)
Lemma create_built (uri : Uri) (st : Host.state) (out : Uint8Array)
    (h' : UImageHeader.t) (scriptText : text) :
  Host.files st uri = Some out ->
  parseLegacyUImage out = ([], inr (h', scriptText)) ->
  create uri st
  = (inr (BootScrDocument.mk uri (BootScrState.mk scriptText (Some h'))
                             false),
     Host.mk (Host.files st) (Host.trace st)).
Proof.
  intros Hf Hp. rewrite create_run, Hf.
  unfold outcome, warnings. rewrite Hp. cbn [fst snd map].
  rewrite app_nil_r. reflexivity.
Qed.

Lemma revert_built (d : BootScrDocument.t) (st : Host.state)
    (out : Uint8Array) (h' : UImageHeader.t) (scriptText : text) :
  Host.files st (BootScrDocument.uri d) = Some out ->
  parseLegacyUImage out = ([], inr (h', scriptText)) ->
  revertCustomDocument d false st
  = (inr (BootScrDocument.mk (BootScrDocument.uri d)
            (BootScrState.mk scriptText (Some h')) false),
     Host.mk (Host.files st)
             (Host.trace st
              ++ [DidChangeDocument;
                  DidChangeCustomDocument ContentChangeEvent])).
Proof.
  intros Hf Hp. unfold revertCustomDocument, Host.bind, Host.readFile.
  rewrite Hf, host_parse_run. unfold outcome, warnings. rewrite Hp.
  cbn [fst snd map]. rewrite app_nil_r, markDirty_run.
  cbn [Host.emit Host.ret Host.files Host.trace BootScrDocument.uri
       BootScrDocument.state].
  rewrite <- app_assoc. reflexivity.
Qed.

(** X25: a document opened from a file, edited to a script text
    (well-formed, not beginning with U+FEFF, fitting the 32-bit size field)
    and saved, is left clean; opening the file again shows no warning and
    gives that text with the load address, entry point, OS, architecture,
    type and compression of the first header, and its name when it is
    ASCII; reverting the saved document gives the same state. *)
Theorem open_edit_save_reopen (executeCommand : HostCommand) (uri : Uri)
    (st st1 : Host.state) (opened : BootScrDocument.t) (scriptText : text)
    (now : Z) :
  create uri st = (inr opened, st1) ->
  well_formed scriptText = true ->
  starts_with_bom scriptText = false ->
  8 + Z.of_nat (length (TextEncoder_encode scriptText)) < 2 ^ 32 ->
  exists edited st2 saved st3 reopened st4 h h',
    onDidReceiveMessage executeCommand opened
      (Some (Message.mk "edit" (Some scriptText))) st1 = (inr edited, st2)
    /\ saveCustomDocument edited false now st2 = (inr saved, st3)
    /\ BootScrDocument.isDirty saved = false
    /\ create uri st3 = (inr reopened, st4)
    /\ Host.trace st4 = Host.trace st3
    /\ BootScrDocument.isDirty reopened = false
    /\ BootScrState.text (BootScrDocument.state reopened) = scriptText
    /\ BootScrState.header (BootScrDocument.state opened) = Some h
    /\ BootScrState.header (BootScrDocument.state reopened) = Some h'
    /\ UImageHeader.loadAddr h' = UImageHeader.loadAddr h
    /\ UImageHeader.entryPoint h' = UImageHeader.entryPoint h
    /\ UImageHeader.os h' = UImageHeader.os h
    /\ UImageHeader.arch h' = UImageHeader.arch h
    /\ UImageHeader.type h' = UImageHeader.type h
    /\ UImageHeader.comp h' = UImageHeader.comp h
    /\ (ascii_name (UImageHeader.name h) = true ->
        UImageHeader.name h' = UImageHeader.name h)
    /\ (exists reverted st5,
          revertCustomDocument saved false st3 = (inr reverted, st5)
          /\ BootScrDocument.state reverted = BootScrDocument.state reopened
          /\ BootScrDocument.isDirty reverted = false).
Proof.
  intros Hc Hwf Hbom Hfit.
  apply create_inv in Hc.
  destruct Hc as (bytes & h & s & Hf & Hp & Hd & Hfs).
  set (args := mk_args scriptText (Some (PartialHeader.of_header h))
                       (UImageHeader.name h) (UImageHeader.loadAddr h)
                       (UImageHeader.entryPoint h)).
  pose proof (rebuilt_parse h scriptText (UImageHeader.name h)
                (UImageHeader.loadAddr h) (UImageHeader.entryPoint h) now
                Hwf Hbom Hfit) as Hp'.
  destruct (rebuilt_fields bytes _ h s scriptText (UImageHeader.name h)
              (UImageHeader.loadAddr h) (UImageHeader.entryPoint h) now Hp)
    as (_ & Hfields).
  fold args in Hp', Hfields.
  destruct (edit_result executeCommand opened scriptText st1)
    as (edited & st2 & He & Hu & Hs & Hfs2).
  assert (Hs' : BootScrDocument.state edited
                = BootScrState.mk scriptText (Some h))
    by (rewrite Hs, Hd; reflexivity).
  assert (Hu' : BootScrDocument.uri edited = uri)
    by (rewrite Hu, Hd; reflexivity).
  exists edited, st2. eexists. eexists. eexists. eexists.
  exists h, (decodeHeader (image args now)).
  split; [exact He|].
  split; [apply save_run|].
  split; [reflexivity|].
  split.
  { apply (create_built uri _ (image args now)
             (decodeHeader (image args now)) scriptText); [|exact Hp'].
    cbn [Host.files]. rewrite Hu', (save_args_eq edited scriptText h Hs').
    apply eqb_refl_if. }
  split; [reflexivity|]. split; [reflexivity|]. split; [reflexivity|].
  split; [rewrite Hd; reflexivity|]. split; [reflexivity|].
  destruct Hfields as (F1 & F2 & F3 & F4 & F5 & F6 & F7).
  repeat (split; [assumption|]).
  do 2 eexists. split.
  { apply (revert_built _ _ (image args now)
             (decodeHeader (image args now)) scriptText); [|exact Hp'].
    cbn [Host.files BootScrDocument.uri].
    rewrite Hu', (save_args_eq edited scriptText h Hs').
    apply eqb_refl_if. }
  split; [|reflexivity].
  cbn [BootScrDocument.state BootScrDocument.uri]. reflexivity.
Qed.

Lemma backup_run (d : BootScrDocument.t) (destination : Uri) (now : Z)
    (st : Host.state) :
  backupCustomDocument d destination false now st
  = (inr destination,
     Host.mk (fun u => if String.eqb u destination
                       then Some (image (save_args d) now)
                       else Host.files st u)
             (Host.trace st)).
Proof.
  unfold backupCustomDocument, Host.bind. cbn [negb].
  rewrite host_build_run. reflexivity.
Qed.

Lemma save_as_run (d : BootScrDocument.t) (destination : Uri) (now : Z)
    (st : Host.state) :
  saveCustomDocumentAs d destination false now st
  = (inr (BootScrDocument.mk (BootScrDocument.uri d)
                             (BootScrDocument.state d) false),
     Host.mk (fun u => if String.eqb u destination
                       then Some (image (save_args d) now)
                       else Host.files st u)
             (Host.trace st ++ [DidChangeDocument])).
Proof.
  unfold saveCustomDocumentAs, Host.bind. rewrite host_build_run. reflexivity.
Qed.

(** X26: a backup of an edited document shows, fires and posts nothing
    and writes the destination only; opening the destination shows no
    warning and gives the edited text; a cancelled backup writes nothing
    and still returns the destination; [saveCustomDocumentAs], run at the
    same clock value, leaves the same files as the backup; the [delete]
    closure of the backup removes the destination. *)
Theorem backup_then_open (executeCommand : HostCommand)
    (uri destination : Uri) (st st1 : Host.state)
    (opened : BootScrDocument.t) (scriptText : text) (now : Z) :
  create uri st = (inr opened, st1) ->
  well_formed scriptText = true ->
  starts_with_bom scriptText = false ->
  8 + Z.of_nat (length (TextEncoder_encode scriptText)) < 2 ^ 32 ->
  exists edited st2 st3 restored st4,
    onDidReceiveMessage executeCommand opened
      (Some (Message.mk "edit" (Some scriptText))) st1 = (inr edited, st2)
    /\ backupCustomDocument edited destination false now st2
       = (inr destination, st3)
    /\ Host.trace st3 = Host.trace st2
    /\ (forall u, u <> destination -> Host.files st3 u = Host.files st2 u)
    /\ create destination st3 = (inr restored, st4)
    /\ BootScrState.text (BootScrDocument.state restored) = scriptText
    /\ Host.trace st4 = Host.trace st3
    /\ backupCustomDocument edited destination true now st2
       = (inr destination, st2)
    /\ Host.files (snd (saveCustomDocumentAs edited destination false now st2))
       = Host.files st3
    /\ (exists st5,
          backup_delete destination st3 = (inr tt, st5)
          /\ Host.files st5 destination = None).
Proof.
  intros Hc Hwf Hbom Hfit.
  apply create_inv in Hc.
  destruct Hc as (bytes & h & s & Hf & Hp & Hd & Hfs).
  set (args := mk_args scriptText (Some (PartialHeader.of_header h))
                       (UImageHeader.name h) (UImageHeader.loadAddr h)
                       (UImageHeader.entryPoint h)).
  pose proof (rebuilt_parse h scriptText (UImageHeader.name h)
                (UImageHeader.loadAddr h) (UImageHeader.entryPoint h) now
                Hwf Hbom Hfit) as Hp'.
  fold args in Hp'.
  destruct (edit_result executeCommand opened scriptText st1)
    as (edited & st2 & He & Hu & Hs & Hfs2).
  assert (Hs' : BootScrDocument.state edited
                = BootScrState.mk scriptText (Some h))
    by (rewrite Hs, Hd; reflexivity).
  exists edited, st2. do 3 eexists.
  split; [exact He|].
  split; [apply backup_run|].
  split; [reflexivity|].
  split.
  { intros u Hu'. cbn [Host.files].
    destruct (String.eqb_spec u destination); [contradiction|reflexivity]. }
  split.
  { apply (create_built destination _ (image args now)
             (decodeHeader (image args now)) scriptText); [|exact Hp'].
    cbn [Host.files]. rewrite (save_args_eq edited scriptText h Hs').
    apply eqb_refl_if. }
  split; [reflexivity|]. split; [reflexivity|]. split; [reflexivity|].
  split; [rewrite save_as_run; reflexivity|].
  eexists. split.
  - unfold backup_delete, Host.try_, Host.delete. cbn [Host.files].
    rewrite String.eqb_refl. reflexivity.
  - cbn [snd Host.files]. rewrite String.eqb_refl. reflexivity.
Qed.

(** ** The further properties at concrete inputs

    Each theorem of the two parts above that has a hypothesis, applied to
    the demo image and the demo workspace. *)

Lemma writeU32BE_readU32BE_witness :
  readU32BE (writeU32BE (new_Uint8Array 8) 2 0x123456789) 2 = 0x23456789.
Proof.
  apply (writeU32BE_readU32BE (new_Uint8Array 8) 2 0x123456789).
  vm_compute. lia.
Defined.

Lemma crc32_detects_burst_witness :
  crc32 (ascii_bytes "123456789") DEFAULT_SEED
  <> crc32 (ascii_bytes "123465789") DEFAULT_SEED.
Proof.
  apply (crc32_detects_burst (ascii_bytes "123456789")
           (ascii_bytes "123465789") 3 DEFAULT_SEED).
  - reflexivity.
  - intros j Hj.
    assert (C : (j = 0 \/ j = 1 \/ j = 2 \/ j = 7 \/ j = 8 \/ 9 <= j)%nat)
      by lia.
    destruct C as [C|[C|[C|[C|[C|C]]]]]; subst; try reflexivity.
    transitivity (@None byte);
      [|symmetry]; apply nth_error_None; vm_compute; lia.
  - vm_compute. discriminate.
Defined.

Lemma name_roundtrip_witness :
  exists field,
    encodeName (str "boot script") = Some field
    /\ decodeName field = str "boot script".
Proof.
  apply (name_roundtrip (str "boot script")). vm_compute. reflexivity.
Defined.

Lemma parse_ignores_trailing_bytes_witness :
  parseLegacyUImage (demo_image ++ bytes_of [0xde; 0xad])
  = parseLegacyUImage demo_image.
Proof.
  apply (parse_ignores_trailing_bytes demo_image (bytes_of [0xde; 0xad])).
  vm_compute. discriminate.
Defined.

Lemma parse_header_invariants_witness :
  UImageHeader.magic (decodeHeader demo_image) = UIMAGE_MAGIC
  /\ 8 <= UImageHeader.size (decodeHeader demo_image)
     <= Z.of_nat (length demo_image) - 64
  /\ (length (UImageHeader.name (decodeHeader demo_image)) <= 32)%nat
  /\ str "echo hi"
     = TextDecoder_utf8_decode
         (slice demo_image 72
                (64 + UImageHeader.size (decodeHeader demo_image))).
Proof.
  destruct (parse_header_invariants demo_image [] (decodeHeader demo_image)
              (str "echo hi") ltac:(vm_compute; reflexivity))
    as (H1 & H2 & _ & _ & _ & _ & _ & _ & _ & _ & _ & H3 & H4).
  repeat split; try assumption; apply H2.
Defined.

Lemma parse_ignores_length_word_witness :
  outcome (parseLegacyUImage (store demo_image 67 0xff))
  = outcome (parseLegacyUImage demo_image).
Proof. apply (parse_ignores_length_word demo_image 67 0xff). lia. Defined.

Lemma reparse_after_rebuild_witness :
  exists out h',
    buildLegacyScriptImage
      (mk_args (str "echo bye")
               (Some (PartialHeader.of_header (decodeHeader demo_image)))
               (str "boot script") 0 0) 1700000001000 = Some out
    /\ parseLegacyUImage out = ([], inr (h', str "echo bye"))
    /\ UImageHeader.name h' = str "boot script".
Proof.
  destruct (reparse_after_rebuild demo_image [] (decodeHeader demo_image)
              (str "echo hi") (str "echo bye") (str "boot script") 0 0
              1700000001000
              ltac:(vm_compute; reflexivity) ltac:(vm_compute; reflexivity)
              ltac:(vm_compute; reflexivity) ltac:(vm_compute; reflexivity))
    as (out & h' & Hb & Hp & _ & _ & _ & _ & _ & _ & _ & Hn).
  exists out, h'. repeat split; try assumption.
  apply Hn. vm_compute. reflexivity.
Defined.

Lemma corrupted_byte_noticed_witness :
  exists h' s',
    parseLegacyUImage (store demo_image 72 0x45)
    = ([CrcMismatch], inr (h', s')).
Proof.
  destruct (corrupted_byte_noticed demo_image 72 0x45
              (decodeHeader demo_image) (str "echo hi")
              ltac:(vm_compute; reflexivity) ltac:(vm_compute; reflexivity)
              ltac:(vm_compute; discriminate))
    as [_ H].
  apply H. lia.
Defined.

Lemma open_edit_save_reopen_witness :
  exists edited st2 saved st3 reopened st4,
    onDidReceiveMessage demo_executeCommand demo_document
      (Some (Message.mk "edit" (Some (str "echo bye")))) demo_host
    = (inr edited, st2)
    /\ saveCustomDocument edited false 1700000001000 st2 = (inr saved, st3)
    /\ create demo_uri st3 = (inr reopened, st4)
    /\ BootScrState.text (BootScrDocument.state reopened) = str "echo bye".
Proof.
  destruct (open_edit_save_reopen demo_executeCommand demo_uri demo_host
              demo_host
              demo_document (str "echo bye") 1700000001000
              ltac:(vm_compute; reflexivity) ltac:(vm_compute; reflexivity)
              ltac:(vm_compute; reflexivity) ltac:(vm_compute; reflexivity))
    as (edited & st2 & saved & st3 & reopened & st4 & h & h'
        & H1 & H2 & _ & H3 & _ & _ & H4 & _).
  exists edited, st2, saved, st3, reopened, st4.
  repeat split; assumption.
Defined.

Lemma backup_then_open_witness :
  exists edited st2 st3 restored st4,
    onDidReceiveMessage demo_executeCommand demo_document
      (Some (Message.mk "edit" (Some (str "echo bye")))) demo_host
    = (inr edited, st2)
    /\ backupCustomDocument edited backup_uri false 1700000001000 st2
       = (inr backup_uri, st3)
    /\ create backup_uri st3 = (inr restored, st4)
    /\ BootScrState.text (BootScrDocument.state restored) = str "echo bye".
Proof.
  destruct (backup_then_open demo_executeCommand demo_uri backup_uri
              demo_host demo_host
              demo_document (str "echo bye") 1700000001000
              ltac:(vm_compute; reflexivity) ltac:(vm_compute; reflexivity)
              ltac:(vm_compute; reflexivity) ltac:(vm_compute; reflexivity))
    as (edited & st2 & st3 & restored & st4 & H1 & H2 & _ & _ & H3 & H4 & _).
  exists edited, st2, st3, restored, st4.
  repeat split; assumption.
Defined.

Lemma resave_is_stable_witness :
  exists out h',
    buildLegacyScriptImage
      (mk_args (str "echo bye")
               (Some (PartialHeader.of_header (decodeHeader demo_image)))
               (str "boot script") 0 0) 1700000001000 = Some out
    /\ parseLegacyUImage out = ([], inr (h', str "echo bye"))
    /\ buildLegacyScriptImage
         (mk_args (str "echo bye") (Some (PartialHeader.of_header h'))
                  (str "boot script") 0 0) 1700000001999 = Some out.
Proof.
  destruct (resave_is_stable demo_image [] (decodeHeader demo_image)
              (str "echo hi") (str "echo bye") (str "boot script") 0 0
              1700000001000
              ltac:(vm_compute; reflexivity) ltac:(vm_compute; reflexivity)
              ltac:(vm_compute; reflexivity) ltac:(vm_compute; reflexivity)
              ltac:(vm_compute; reflexivity))
    as (out & h' & Hb & Hp & Hr).
  exists out, h'. repeat split; [exact Hb|exact Hp|].
  apply Hr. vm_compute. reflexivity.
Defined.

Lemma parse_script_well_formed_witness :
  well_formed (str "echo hi") = true
  /\ TextDecoder_utf8_decode (TextEncoder_encode (str "echo hi"))
     = strip_bom (str "echo hi").
Proof.
  apply (parse_script_well_formed demo_image [] (decodeHeader demo_image)
           (str "echo hi")).
  vm_compute. reflexivity.
Defined.

Lemma edit_undo_redo_witness :
  exists edited undone st1 st2 st3,
    onDidReceiveMessage demo_executeCommand demo_document
      (Some (Message.mk "edit" (Some (str "echo bye")))) demo_host
    = (inr edited, st1)
    /\ BootScrState.text (BootScrDocument.state edited) = str "echo bye"
    /\ undo edited (str "echo hi") st1 = (inr undone, st2)
    /\ BootScrDocument.state undone = BootScrDocument.state demo_document
    /\ redo undone (str "echo bye") st2 = (inr edited, st3).
Proof.
  destruct (edit_undo_redo demo_executeCommand demo_document
              (str "echo bye") demo_host)
    as (st1 & st2 & st3 & H1 & _ & H2 & H3 & _ & H4 & _).
  - discriminate.
  - do 2 eexists. exists st1, st2, st3.
    split; [exact H1|]. split; [reflexivity|]. split; [exact H2|].
    split; [exact H3|exact H4].
Defined.

Lemma message_changes_only_on_edit_witness :
  onDidReceiveMessage demo_executeCommand demo_edited
    (Some (Message.mk "undo" None)) demo_host_edited
  = demo_executeCommand "undo"%string demo_edited
      (Host.mk (Host.files demo_host_edited)
               (Host.trace demo_host_edited ++ [ExecuteCommand "undo"]))
  /\ BootScrState.text
       (BootScrDocument.state
          match fst (onDidReceiveMessage demo_executeCommand demo_edited
                       (Some (Message.mk "undo" None)) demo_host_edited) with
          | inr d => d
          | inl _ => demo_edited
          end)
     = str "echo hi".
Proof.
  destruct (message_changes_only_on_edit demo_executeCommand demo_edited
              (Some (Message.mk "undo" None)) demo_host_edited)
    as (Hu & _ & _).
  split; [apply Hu; reflexivity|].
  rewrite Hu by reflexivity. vm_compute. reflexivity.
Defined.
